(** * Editor framework: windows, request/reply sessions, panel docking
      and package loading

    A shallow embedding of [lib/main/editor-window.js] and
    [lib/main/editor-panel.js] (the window registry, the per-window
    request/reply session table and the panel-to-window dock table), and of
    the package registry's load order as the specification describes it.

    JavaScript objects that are shared and mutated (the [EditorWindow]
    instances) live in a heap and are named by references; the module-level
    tables ([_windows], [_panel2windows], [_panel2argv]) are fields of one
    [World] record; everything the code does to the outside (IPC sends,
    native window calls, callbacks, profile writes, log messages) is appended
    to an effect log. *)

From Stdlib Require Import ZArith Lia Ascii String.
From stdpp Require Import base strings list pretty gmap relations.

#[local] Set Warnings "-register-all,-clear-no-such-hyp".

(* ===================================================================== *)
(** * JavaScript values, strings and objects *)
(* ===================================================================== *)

Module JS.

(** A function object is known by its identity; what a call of it does is
    asked of the world ([throws] below). *)
Abbreviation callback := nat (only parsing).

(** Numbers are integers, or [NaN]. *)
Inductive value :=
| Undefined
| Null
| Bool (b : bool)
| Num (n : Z)
| NaN
| Str (s : string)
| Fn (f : callback)
| Arr (elems : list value)
| Obj (fields : list (string * value)).

Definition typeof (v : value) : string :=
  match v with
  | Undefined => "undefined"
  | Null => "object"
  | Bool _ => "boolean"
  | Num _ => "number"
  | NaN => "number"
  | Str _ => "string"
  | Fn _ => "function"
  | Arr _ => "object"
  | Obj _ => "object"
  end.

(** [s.split(sep)] for a one-character separator: always at least one
    piece, and an empty piece on either side of a leading, trailing or
    doubled separator. *)
Fixpoint split (sep : ascii) (s : string) : list string :=
  match s with
  | EmptyString => [EmptyString]
  | String c s' =>
      if Ascii.eqb c sep then EmptyString :: split sep s'
      else match split sep s' with
           | [] => [String c EmptyString]
           | piece :: pieces => String c piece :: pieces
           end
  end.

(** [arr.join(sep)] on an array of strings; with [","] this is also what an
    array turns into when it is used as a property key or interpolated in a
    template string. *)
Definition join (sep : string) (arr : list string) : string :=
  String.concat sep arr.

(** [s.includes(c)] for a character [c]. *)
Fixpoint includes (c : ascii) (s : string) : bool :=
  match s with
  | EmptyString => false
  | String c' s' => Ascii.eqb c' c || includes c s'
  end.

(** [n++] on a number holding a non-negative integer: doubles count exactly
    up to 2^53, where adding one rounds back to 2^53 (so a counter started
    at 0 never gets past it). *)
Definition MAX_EXACT : Z := 2 ^ 53.

Definition incr (n : Z) : Z :=
  if decide (n < MAX_EXACT)%Z then (n + 1)%Z else n.

(** A plain object used as a table.  Own keys are kept in creation order,
    which is the order [for ... in] visits them for the tables of this
    program: session ids are created in increasing order, and panel
    identifiers are not array indices.  Assigning to an existing key keeps
    its place; [delete] removes it.  The properties inherited from
    [Object.prototype] are left out: none is named by a number or by an
    identifier with a dot or a comma in it. *)
Section object.
Context {K V : Type} `{EqDecision K}.

Fixpoint obj_get (o : list (K * V)) (k : K) : option V :=
  match o with
  | [] => None
  | (k', v) :: o' => if decide (k' = k) then Some v else obj_get o' k
  end.

Fixpoint obj_set (o : list (K * V)) (k : K) (v : V) : list (K * V) :=
  match o with
  | [] => [(k, v)]
  | (k', v') :: o' =>
      if decide (k' = k) then (k, v) :: o' else (k', v') :: obj_set o' k v
  end.

Fixpoint obj_delete (o : list (K * V)) (k : K) : list (K * V) :=
  match o with
  | [] => []
  | (k', v) :: o' =>
      if decide (k' = k) then obj_delete o' k else (k', v) :: obj_delete o' k
  end.

Definition obj_keys (o : list (K * V)) : list K := o.*1.
End object.

End JS.

Import JS.

(* ===================================================================== *)
(** * Data model *)
(* ===================================================================== *)

(** The options object handed to [new BrowserWindow].  A numeric field that
    is absent or [NaN] is [None]; [opt_save] is [None] when [options.save]
    is not a boolean. *)
Record Options := mkOptions {
  opt_windowType : option string;
  opt_save : option bool;
  opt_useContentSize : bool;
  opt_x : option Z;
  opt_y : option Z;
  opt_width : option Z;
  opt_height : option Z;
  opt_minWidth : option Z;
  opt_minHeight : option Z;
  opt_maxWidth : option Z;
  opt_maxHeight : option Z;
  opt_resizable : option bool;
  opt_alwaysOnTop : option bool;
}.

(** The native window behind an [EditorWindow]: the options it was built
    with, and whether it has web contents. *)
Record BrowserWindow := mkBrowserWindow {
  bw_options : Options;
  bw_webContents : bool;
}.

(** A layout profile [layout.<panelID>]; a field never written is [None]. *)
Record LayoutProfile := mkLayoutProfile {
  lp_x : option Z;
  lp_y : option Z;
  lp_width : option Z;
  lp_height : option Z;
}.

(** The panel fragment of a package manifest, as [Editor.Package.panelInfo]
    returns it; the numeric fields hold what [parseInt] makes of them. *)
Record PanelInfo := mkPanelInfo {
  pi_type : option string;
  pi_frame : string;
  pi_width : option Z;
  pi_height : option Z;
  pi_min_width : option Z;
  pi_min_height : option Z;
  pi_max_width : option Z;
  pi_max_height : option Z;
}.

(** Reference to an [EditorWindow] instance: its place in the heap. *)
Abbreviation winref := nat (only parsing).

(** What reaches a [panelID] parameter: a string, or an array of strings. *)
Inductive panel_arg :=
| ArgStr (s : string)
| ArgArr (pieces : list string).

(** Use of a [panelID] argument as a property key or inside a template
    string. *)
Definition to_key (a : panel_arg) : string :=
  match a with
  | ArgStr s => s
  | ArgArr pieces => join "," pieces
  end.

Definition to_value (a : panel_arg) : value :=
  match a with
  | ArgStr s => Str s
  | ArgArr pieces => Arr (Str <$> pieces)
  end.

Inductive effect :=
| EditorError (parts : list value)
| EditorWarn (parts : list value)
| NewBrowserWindow (w : winref) (options : Options)
| SetAlwaysOnTop (w : winref) (flag : bool)
| WebContentsSend (w : winref) (args : list value)
| CallbackApply (w : winref) (sessionId : Z) (cb : callback) (args : list value)
    (* the callback stored under sessionId, called with args *)
| NativeShow (w : winref)
| NativeHide (w : winref)
| NativeFocus (w : winref)
| NativeClose (w : winref)
| PreventDefault (w : winref)
| SetContentSize (w : winref) (width height : option Z)
| SetMenuBarVisibility (w : winref) (visible : bool)
| LoadPage (w : winref) (url : string) (argv : value)
| SendToPanel (panelID : string) (channel : string) (argv : value)
| ProfileSave (name : string) (profile : LayoutProfile)
| CommitWindowStates
| SaveWindowStates
| EditorQuit.

(** The fields of an [EditorWindow] instance. *)
Record Window := mkWindow {
  name : string;
  hideWhenBlur : bool;
  windowType : string;
  save : bool;
  _loaded : bool;
  _nextSessionId : Z;
  _replyCallbacks : list (Z * callback);
  nativeWin : option BrowserWindow;
}.

(** Process-wide state of the main process. *)
Record World := mkWorld {
  heap : list Window;                               (* EditorWindow instances *)
  _windows : list winref;                           (* editor-window.js *)
  mainWindow : option winref;                       (* Editor.mainWindow *)
  _panel2windows : list (string * option winref);   (* editor-panel.js *)
  _panel2argv : list (string * value);              (* editor-panel.js *)
  profiles : list (string * LayoutProfile);         (* Editor.loadProfile store *)
  now : Z;                                          (* new Date().getTime() *)
  url : string -> option string;                    (* Editor.url *)
  getPosition : winref -> Z * Z;                    (* nativeWin.getPosition() *)
  getContentSize : winref -> Z * Z;                 (* nativeWin.getContentSize() *)
  throws : callback -> list value -> option string; (* what a call of a function
                                                       with these arguments throws,
                                                       if it throws *)
  log : list effect;
}.

(* ===================================================================== *)
(** * Computations over the world *)
(* ===================================================================== *)

(** A call either returns or throws; what it did to the world before
    throwing stays done. *)
Inductive result (A : Type) :=
| Return (a : A)
| Throw (err : string).
Arguments Return {A} a.
Arguments Throw {A} err.

Definition M (A : Type) : Type := World -> result A * World.

Definition ret {A} (a : A) : M A := fun W => (Return a, W).

Definition throw {A} (err : string) : M A := fun W => (Throw err, W).

Definition bind {A B} (m : M A) (k : A -> M B) : M B :=
  fun W =>
    match m W with
    | (Return a, W') => k a W'
    | (Throw err, W') => (Throw err, W')
    end.

Declare Scope js_scope.
Delimit Scope js_scope with js.
Notation "'let!' x ':=' m 'in' k" := (bind m (fun x => k))
  (at level 10, x name, m at level 100, k at level 200) : js_scope.
Notation "m ';;' k" := (bind m (fun _ => k))
  (at level 100, k at level 200, right associativity) : js_scope.
Open Scope js_scope.

(** The world after a call, and what the call appended to the log. *)
Definition exec {A} (m : M A) (W : World) : World := (m W).2.
Definition outcome {A} (m : M A) (W : World) : result A := (m W).1.

Definition with_heap (h : list Window) (W : World) : World :=
  mkWorld h (_windows W) (mainWindow W) (_panel2windows W) (_panel2argv W)
          (profiles W) (now W) (url W) (getPosition W) (getContentSize W) (throws W)
          (log W).

Definition with_windows (ws : list winref) (W : World) : World :=
  mkWorld (heap W) ws (mainWindow W) (_panel2windows W) (_panel2argv W)
          (profiles W) (now W) (url W) (getPosition W) (getContentSize W) (throws W)
          (log W).

Definition with_mainWindow (mw : option winref) (W : World) : World :=
  mkWorld (heap W) (_windows W) mw (_panel2windows W) (_panel2argv W)
          (profiles W) (now W) (url W) (getPosition W) (getContentSize W) (throws W)
          (log W).

Definition with_panel2windows (t : list (string * option winref)) (W : World)
  : World :=
  mkWorld (heap W) (_windows W) (mainWindow W) t (_panel2argv W)
          (profiles W) (now W) (url W) (getPosition W) (getContentSize W) (throws W)
          (log W).

Definition with_panel2argv (t : list (string * value)) (W : World) : World :=
  mkWorld (heap W) (_windows W) (mainWindow W) (_panel2windows W) t
          (profiles W) (now W) (url W) (getPosition W) (getContentSize W) (throws W)
          (log W).

Definition with_profiles (t : list (string * LayoutProfile)) (W : World)
  : World :=
  mkWorld (heap W) (_windows W) (mainWindow W) (_panel2windows W)
          (_panel2argv W) t (now W) (url W) (getPosition W) (getContentSize W) (throws W)
          (log W).

Definition with_log (l : list effect) (W : World) : World :=
  mkWorld (heap W) (_windows W) (mainWindow W) (_panel2windows W)
          (_panel2argv W) (profiles W) (now W) (url W) (getPosition W)
          (getContentSize W) (throws W) l.

Definition emit (e : effect) : M unit :=
  fun W => (Return tt, with_log (log W ++ [e]) W).

Definition read {A} (f : World -> A) : M A := fun W => (Return (f W), W).

Definition modify (f : World -> World) : M unit := fun W => (Return tt, f W).

(** Reading a property of [null] or [undefined]. *)
Definition TypeError : string := "TypeError".

(** The instance behind a reference (every reference the model hands out
    is in the heap). *)
Definition deref (w : winref) : M Window :=
  fun W =>
    match heap W !! w with
    | Some win => (Return win, W)
    | None => (Throw TypeError, W)
    end.

Definition update (w : winref) (f : Window -> Window) : M unit :=
  modify (fun W => with_heap (alter f w (heap W)) W).

(** [this.nativeWin.<something>]: throws once the window is disposed. *)
Definition native (w : winref) : M BrowserWindow :=
  let! win := deref w in
  match nativeWin win with
  | Some bw => ret bw
  | None => throw TypeError
  end.

(** [cb.apply(null, args)] and [cb()] for a stored reply callback: the call
    is recorded, and it returns or throws as the function does.  What else
    the function does is not part of the model. *)
Definition invoke (w : winref) (sessionId : Z) (cb : callback)
    (args : list value) : M unit :=
  emit (CallbackApply w sessionId cb args);;
  let! thrown := read (fun W => throws W cb args) in
  match thrown with
  | Some err => throw err
  | None => ret tt
  end.

Definition set_loaded (b : bool) (win : Window) : Window :=
  mkWindow (name win) (hideWhenBlur win) (windowType win) (save win) b
           (_nextSessionId win) (_replyCallbacks win) (nativeWin win).

Definition set_nextSessionId (n : Z) (win : Window) : Window :=
  mkWindow (name win) (hideWhenBlur win) (windowType win) (save win)
           (_loaded win) n (_replyCallbacks win) (nativeWin win).

Definition set_replyCallbacks (t : list (Z * callback)) (win : Window)
  : Window :=
  mkWindow (name win) (hideWhenBlur win) (windowType win) (save win)
           (_loaded win) (_nextSessionId win) t (nativeWin win).

Definition set_nativeWin (n : option BrowserWindow) (win : Window) : Window :=
  mkWindow (name win) (hideWhenBlur win) (windowType win) (save win)
           (_loaded win) (_nextSessionId win) (_replyCallbacks win) n.

(** What a log gained between two worlds. *)
Definition since (W W' : World) : list effect :=
  drop (length (log W)) (log W').

(** A loop body run for each element in turn. *)
Fixpoint for_each {A} (l : list A) (body : A -> M unit) : M unit :=
  match l with
  | [] => ret tt
  | x :: l' => body x;; for_each l' body
  end.

(* ===================================================================== *)
(** * lib/main/editor-window.js *)
(* ===================================================================== *)

Module EditorWindow.

(** [_.defaultsDeep(options, { windowType: 'dockable', width: 400,
    height: 300, ... })], for the fields this model keeps. *)
Definition defaults (o : Options) : Options :=
  mkOptions (Some (default "dockable" (opt_windowType o))) (opt_save o)
            (opt_useContentSize o) (opt_x o) (opt_y o)
            (Some (default 400%Z (opt_width o)))
            (Some (default 300%Z (opt_height o)))
            (opt_minWidth o) (opt_minHeight o) (opt_maxWidth o)
            (opt_maxHeight o) (opt_resizable o) (opt_alwaysOnTop o).

Definition set_resizable_alwaysOnTop (r a : bool) (o : Options) : Options :=
  mkOptions (opt_windowType o) (opt_save o) (opt_useContentSize o)
            (opt_x o) (opt_y o) (opt_width o) (opt_height o)
            (opt_minWidth o) (opt_minHeight o) (opt_maxWidth o)
            (opt_maxHeight o) (Some r) (Some a).

(** [switch ( this.windowType )] of the constructor: the options written,
    and the new value of [this.hideWhenBlur]. *)
Definition switch_windowType (wt : string) (o : Options) : Options * bool :=
  if decide (wt = "dockable") then (set_resizable_alwaysOnTop true false o, false)
  else if decide (wt = "float") then (set_resizable_alwaysOnTop true true o, false)
  else if decide (wt = "fixed-size") then (set_resizable_alwaysOnTop false true o, false)
  else if decide (wt = "quick") then (set_resizable_alwaysOnTop true true o, true)
  else (o, false).

Definition addWindow (win : winref) : M unit :=
  modify (fun W => with_windows (_windows W ++ [win]) W).

(** [_windows.splice(_windows.indexOf(win), 1)] *)
Fixpoint splice_first (win : winref) (ws : list winref) : list winref :=
  match ws with
  | [] => []
  | w :: ws' => if decide (w = win) then ws' else w :: splice_first win ws'
  end.

Definition removeWindow (win : winref) : M unit :=
  let! ws := read _windows in
  if bool_decide (win ∈ ws)
  then modify (with_windows (splice_first win ws))
  else (let! o := deref win in
        emit (EditorWarn [Str "Can not find window "; Str (name o)])).

(** [new EditorWindow(name, options)].  The handlers the constructor
    installs on the native window are [on_close] and [on_closed] below. *)
Definition new (name : string) (options : Options) : M winref :=
  let options := defaults options in
  let wt := default "dockable" (opt_windowType options) in
  let save := default true (opt_save options) in
  let '(options, hide) := switch_windowType wt options in
  let! this := read (fun W => length (heap W)) in
  modify (fun W =>
    with_heap (heap W ++ [mkWindow name hide wt save false 0 []
                            (Some (mkBrowserWindow options true))]) W);;
  emit (NewBrowserWindow this options);;
  (if hide then emit (SetAlwaysOnTop this true) else ret tt);;
  addWindow this;;
  ret this.

(** The double quote character of the log messages. *)
Definition dquote : string := String (ascii_of_nat 34) EmptyString.

Definition dispose (this : winref) : M unit :=
  update this (set_nativeWin None).

Definition show (this : winref) : M unit :=
  native this;; emit (NativeShow this).

Definition close (this : winref) : M unit :=
  update this (set_loaded false);;
  native this;; emit (NativeClose this).

Definition focus (this : winref) : M unit :=
  native this;; emit (NativeFocus this).

(** [load(editorUrl, argv)]: the page and the [argv] it is given are
    recorded; how [argv] is encoded into the URL is left out. *)
Definition load (this : winref) (editorUrl : string) (argv : value) : M unit :=
  let! resultUrl := read (fun W => url W editorUrl) in
  match resultUrl with
  | None =>
      let! win := deref this in
      emit (EditorError [Str "Failed to load page "; Str editorUrl;
                         Str (" for window " +:+ dquote); Str (name win);
                         Str dquote])
  | Some resultUrl =>
      update this (set_loaded false);;
      native this;;
      emit (LoadPage this resultUrl argv)
  end.

Definition isMainWindow (this : winref) : M bool :=
  read (fun W => bool_decide (mainWindow W = Some this)).

Definition sendToPage (this : winref) (args : list value) : M unit :=
  let! bw := native this in
  if bw_webContents bw then emit (WebContentsSend this args)
  else
    let! win := deref this in
    emit (EditorError [Str ("Failed to send " +:+ dquote); default Undefined (head args);
                       Str (dquote +:+ " to "); Str (name win);
                       Str " because web contents not yet loaded"]).

(** [typeof reply === 'function'] holds exactly for a function object, here
    [Fn reply]. *)
Definition sendRequestToPage (this : winref) (channel : value)
    (args : list value) : M (option Z) :=
  if negb (bool_decide (typeof channel = "string")) then
    emit (EditorError [Str "The channel must be string"]);;
    ret None
  else
    match last args with
    | None =>
        emit (EditorError [Str "Invalid arguments, reply function not found!"]);;
        ret None
    | Some (Fn reply) =>
        let args := removelast args in
        let! win := deref this in
        let sessionId := _nextSessionId win in
        update this (set_nextSessionId (incr sessionId));;
        update this (fun win =>
          set_replyCallbacks (obj_set (_replyCallbacks win) sessionId reply) win);;
        sendToPage this [Str "editor:sendreq2page"; channel; Num sessionId; Arr args];;
        ret (Some sessionId)
    | Some _ =>
        emit (EditorError [Str "The last argument must be function"]);;
        ret None
    end.

Definition cancelRequestToPage (this : winref) (sessionId : Z) : M unit :=
  update this (fun win =>
    set_replyCallbacks (obj_delete (_replyCallbacks win) sessionId) win).

Definition _reply (this : winref) (sessionId : Z) (args : list value)
  : M unit :=
  let! win := deref this in
  match obj_get (_replyCallbacks win) sessionId with
  | Some cb =>
      invoke this sessionId cb args;;
      update this (fun win =>
        set_replyCallbacks (obj_delete (_replyCallbacks win) sessionId) win)
  | None => ret tt
  end.

End EditorWindow.

(* ===================================================================== *)
(** * lib/main/editor-panel.js *)
(* ===================================================================== *)

Module EditorPanel.

Definition templateUrl : string := "editor-framework://static/window.html".

(** [_panel2windows[panelID] = win]; [win] is [None] when the caller found
    no editor window for the sender ([null]). *)
Definition _dock (panelID : string) (win : option winref) : M unit :=
  modify (fun W =>
    with_panel2windows (obj_set (_panel2windows W) panelID win) W).

Definition _undock (panelID : panel_arg) : M (option winref) :=
  let! t := read _panel2windows in
  match obj_get t (to_key panelID) with
  | Some (Some editorWin) =>
      EditorWindow.sendToPage editorWin [Str "panel:undock"; to_value panelID];;
      modify (fun W =>
        with_panel2windows (obj_delete (_panel2windows W) (to_key panelID)) W);;
      ret (Some editorWin)
  | _ => ret None
  end.

(** [Editor.loadProfile(name, 'local')]: the stored profile, or a new one. *)
Definition loadProfile (name : string) : M LayoutProfile :=
  read (fun W =>
    default (mkLayoutProfile None None None None) (obj_get (profiles W) name)).

Definition _saveLayout (editorWin : winref) (panelID : panel_arg) : M unit :=
  let! main := EditorWindow.isMainWindow editorWin in
  if main then ret tt
  else
    let profileName := "layout." +:+ to_key panelID in
    loadProfile profileName;;
    native editorWin;;
    let! winSize := read (fun W => getContentSize W editorWin) in
    let! winPos := read (fun W => getPosition W editorWin) in
    let panelProfile :=
      mkLayoutProfile (Some winPos.1) (Some winPos.2)
                      (Some winSize.1) (Some winSize.2) in
    modify (fun W =>
      with_profiles (obj_set (profiles W) profileName panelProfile) W);;
    emit (ProfileSave profileName panelProfile).

(** [_panel2windows[panelID]]; [undefined] and [null] are both [None]. *)
Definition findWindow (panelID : string) : M (option winref) :=
  read (fun W => mjoin (obj_get (_panel2windows W) panelID)).

(** Truth value of a profile field: a number other than zero. *)
Definition truthy (field : option Z) : bool :=
  match field with
  | Some n => negb (n =? 0)%Z
  | None => false
  end.

Definition or_else (field fallback : option Z) : option Z :=
  if truthy field then field else fallback.

(** [isNaN(field)] replaced by [dflt]. *)
Definition unless_NaN (field : option Z) (dflt : Z) : option Z :=
  Some (default dflt field).

(** The options [open] computes for the window of a panel. *)
Definition windowOptions (panelInfo : PanelInfo) (layoutProfile : LayoutProfile)
  : Options :=
  let x := or_else (lp_x layoutProfile) None in
  let y := or_else (lp_y layoutProfile) None in
  let width := or_else (lp_width layoutProfile) (pi_width panelInfo) in
  let height := or_else (lp_height layoutProfile) (pi_height panelInfo) in
  let windowType :=
    match pi_type panelInfo with
    | Some ty => if decide (ty = "") then "dockable" else ty
    | None => "dockable"
    end in
  let fixed := bool_decide (pi_type panelInfo = Some "fixed-size") in
  let width := if fixed then pi_width panelInfo else width in
  let height := if fixed then pi_height panelInfo else height in
  mkOptions (Some windowType) None true x y
            (unless_NaN width 400) (unless_NaN height 400)
            (unless_NaN (pi_min_width panelInfo) 200)
            (unless_NaN (pi_min_height panelInfo) 200)
            (pi_max_width panelInfo) (pi_max_height panelInfo) None None.

Section with_packages.
(** [Editor.Package.panelInfo], of the package registry. *)
Variable panelInfo : string -> option PanelInfo.

Definition open (panelID : string) (argv : value) : M unit :=
  match panelInfo panelID with
  | None =>
      emit (EditorError [Str "Failed to open panel "; Str panelID;
                         Str ", panel info not found."])
  | Some panelInfo =>
      modify (fun W =>
        with_panel2argv (obj_set (_panel2argv W) panelID argv) W);;
      let! editorWin := findWindow panelID in
      match editorWin with
      | Some editorWin =>
          emit (SendToPanel panelID "panel:run" argv);;
          EditorWindow.show editorWin;;
          EditorWindow.focus editorWin
      | None =>
          let! time := read now in
          let windowName := "editor-window-" +:+ pretty time in
          let! layoutProfile := loadProfile ("layout." +:+ panelID) in
          let windowOptions := windowOptions panelInfo layoutProfile in
          let! editorWin := EditorWindow.new windowName windowOptions in
          _dock panelID (Some editorWin);;
          native editorWin;;
          emit (SetContentSize editorWin (opt_width windowOptions)
                               (opt_height windowOptions));;
          emit (SetMenuBarVisibility editorWin false);;
          (if decide (pi_type panelInfo = Some "simple") then
             let names := split "." panelID in
             EditorWindow.load editorWin
               ("packages://" +:+ default "" (head names) +:+ "/"
                  +:+ pi_frame panelInfo) argv
           else
             EditorWindow.load editorWin templateUrl
               (Obj [("panelID", Str panelID)]));;
          EditorWindow.focus editorWin
      end
  end.
End with_packages.

Definition close (panelID : panel_arg) : M unit :=
  let! editorWin := _undock panelID in
  match editorWin with
  | None => ret tt
  | Some editorWin =>
      _saveLayout editorWin panelID;;
      let! t := read _panel2windows in
      let found :=
        existsb (fun id => bool_decide (obj_get t id = Some (Some editorWin)))
                (obj_keys t) in
      let! main := EditorWindow.isMainWindow editorWin in
      if negb found && negb main then EditorWindow.close editorWin
      else ret tt
  end.

(** One round of the loop of [findWindows]. *)
Definition findWindows_step (t : list (string * option winref))
    (packageName : string) (wins : list (option winref)) (p : string)
  : list (option winref) :=
  let pair := split "." p in
  if decide (length pair ≠ 2) then wins
  else
    let name := default "" (pair !! 1%nat) in
    if decide (name = packageName) then
      let editorWin := mjoin (obj_get t p) in
      if bool_decide (editorWin ∈ wins) then wins else wins ++ [editorWin]
    else wins.

Definition findWindows (packageName : string) : M (list (option winref)) :=
  let! t := read _panel2windows in
  ret (foldl (findWindows_step t packageName) [] (obj_keys t)).

(** One round of the loop of [findPanels]. *)
Definition findPanels_step (packageName : string)
    (panelIDs : list (list string)) (p : string) : list (list string) :=
  let pair := split "." p in
  if decide (length pair ≠ 2) then panelIDs
  else
    let name := default "" (pair !! 0%nat) in
    if decide (name = packageName) then panelIDs ++ [pair] else panelIDs.

Definition findPanels (packageName : string) : M (list (list string)) :=
  let! t := read _panel2windows in
  ret (foldl (findPanels_step packageName) [] (obj_keys t)).

Definition closeAll (packageName : string) : M unit :=
  let! panelIDs := findPanels packageName in
  for_each panelIDs (fun panelID => close (ArgArr panelID)).

Definition _onWindowClose (editorWin : winref) : M unit :=
  let! t := read _panel2windows in
  for_each (obj_keys t) (fun id =>
    let! win := findWindow id in
    if decide (win = Some editorWin) then _saveLayout editorWin (ArgStr id)
    else ret tt).

Definition _onWindowClosed (editorWin : winref) : M unit :=
  let! t := read _panel2windows in
  for_each (obj_keys t) (fun id =>
    let! win := findWindow id in
    if decide (win = Some editorWin) then
      modify (fun W => with_panel2windows (obj_delete (_panel2windows W) id) W)
    else ret tt).

End EditorPanel.

(** ** The handlers the [EditorWindow] constructor installs on its native
       window *)

Module NativeEvents.

(** [this.nativeWin.on('close', event => ...)]; committing and saving the
    window states is recorded as two effects. *)
Definition on_close (this : winref) : M unit :=
  let! win := deref this in
  (if decide (windowType win = "quick") then
     emit (PreventDefault this);;
     native this;;
     emit (NativeHide this)
   else ret tt);;
  EditorPanel._onWindowClose this;;
  emit CommitWindowStates;;
  emit SaveWindowStates.

(** [this.nativeWin.on('closed', () => ...)] *)
Definition on_closed (this : winref) : M unit :=
  EditorPanel._onWindowClosed this;;
  let! win := deref this in
  for_each (obj_keys (_replyCallbacks win)) (fun sessionId =>
    let! win := deref this in
    match obj_get (_replyCallbacks win) sessionId with
    | Some cb => invoke this sessionId cb []
    | None => ret tt
    end);;
  update this (set_replyCallbacks []);;
  let! main := EditorWindow.isMainWindow this in
  (if main then
     EditorWindow.removeWindow this;;
     modify (with_mainWindow None);;
     emit EditorQuit
   else EditorWindow.removeWindow this);;
  EditorWindow.dispose this.

End NativeEvents.

(* ===================================================================== *)
(** * The life of a window's request/reply sessions *)
(* ===================================================================== *)

Module Sessions.

(** The calls that read or write [_nextSessionId] and [_replyCallbacks]. *)
Inductive call :=
| SendRequestToPage (channel : value) (args : list value)
| CancelRequestToPage (sessionId : Z)
| Reply (sessionId : Z) (args : list value)
| Closed.

Definition perform (this : winref) (c : call) : M (option Z) :=
  match c with
  | SendRequestToPage channel args =>
      EditorWindow.sendRequestToPage this channel args
  | CancelRequestToPage sessionId =>
      EditorWindow.cancelRequestToPage this sessionId;; ret None
  | Reply sessionId args =>
      EditorWindow._reply this sessionId args;; ret None
  | Closed =>
      NativeEvents.on_closed this;; ret None
  end.

(** A sequence of calls, each made whether or not an earlier one threw. *)
Fixpoint run (this : winref) (cs : list call) (W : World) : World :=
  match cs with
  | [] => W
  | c :: cs' => run this cs' (exec (perform this c) W)
  end.

(** The session ids the calls of a sequence returned. *)
Fixpoint returned (this : winref) (cs : list call) (W : World) : list Z :=
  match cs with
  | [] => []
  | c :: cs' =>
      match outcome (perform this c) W with
      | Return (Some sessionId) => [sessionId]
      | _ => []
      end ++ returned this cs' (exec (perform this c) W)
  end.

(** A call of [sendRequestToPage] that passes the three checks. *)
Definition well_formed (c : call) : bool :=
  match c with
  | SendRequestToPage channel args =>
      bool_decide (typeof channel = "string")
      && match last args with
         | Some (Fn _) => true
         | _ => false
         end
  | _ => false
  end.

(** The session ids the calls of a sequence took: a call that passes the
    checks takes the [_nextSessionId] it finds ([this._nextSessionId++]),
    whether or not it comes to return it. *)
Fixpoint allocated (this : winref) (cs : list call) (W : World) : list Z :=
  match cs with
  | [] => []
  | c :: cs' =>
      (if well_formed c then
         match heap W !! this with
         | Some win => [_nextSessionId win]
         | None => []
         end
       else [])
      ++ allocated this cs' (exec (perform this c) W)
  end.

(** The reply callbacks of a window that a log shows invoked: session id,
    callback and arguments, in order. *)
Definition applied_of (this : winref) (e : effect)
  : option (Z * (callback * list value)) :=
  match e with
  | CallbackApply w sessionId cb args =>
      if decide (w = this) then Some (sessionId, (cb, args)) else None
  | _ => None
  end.

Definition applied (this : winref) (l : list effect)
  : list (Z * (callback * list value)) :=
  omap (applied_of this) l.

Definition callbacks (W : World) (this : winref) : list (Z * callback) :=
  match heap W !! this with
  | Some win => _replyCallbacks win
  | None => []
  end.

(** The reply callbacks still stored, as the handler of [closed] calls
    them: each with no argument. *)
Definition pending_of (win : Window) (ids : list Z)
  : list (Z * (callback * list value)) :=
  omap (fun sessionId =>
          (fun cb => (sessionId, (cb, []))) <$> obj_get (_replyCallbacks win) sessionId)
       ids.

Definition pending (win : Window) : list (Z * (callback * list value)) :=
  pending_of win (obj_keys (_replyCallbacks win)).

(** The log entry of an invocation. *)
Definition invocation (this : winref) (a : Z * (callback * list value)) : effect :=
  CallbackApply this a.1 a.2.1 a.2.2.

Section with_functions.
(** What a call of each function throws, if it throws: [throws] of the
    world. *)
Variable th : callback -> list value -> option string.

(** Calls made one after the other until one throws: the calls made, the
    last of them the one that threw, and what it threw. *)
Fixpoint until_throw (l : list (Z * (callback * list value)))
  : list (Z * (callback * list value)) * option string :=
  match l with
  | [] => ([], None)
  | a :: l' =>
      match th a.2.1 a.2.2 with
      | Some err => ([a], Some err)
      | None => (a :: (until_throw l').1, (until_throw l').2)
      end
  end.

(** What a call does to the instance it is made on, and the reply callbacks
    it invokes ([perform_step] below: this is the part of [perform] that
    concerns the instance).  A reply callback that throws is left stored;
    one that throws in the handler of [closed] ends the handler there. *)
Definition step (c : call) (win : Window)
  : Window * list (Z * (callback * list value)) :=
  match c with
  | SendRequestToPage channel args =>
      if bool_decide (typeof channel = "string") then
        match last args with
        | Some (Fn reply) =>
            (set_replyCallbacks
               (obj_set (_replyCallbacks win) (_nextSessionId win) reply)
               (set_nextSessionId (incr (_nextSessionId win)) win), [])
        | _ => (win, [])
        end
      else (win, [])
  | CancelRequestToPage sessionId =>
      (set_replyCallbacks (obj_delete (_replyCallbacks win) sessionId) win, [])
  | Reply sessionId args =>
      match obj_get (_replyCallbacks win) sessionId with
      | Some cb =>
          (match th cb args with
           | Some _ => win
           | None =>
               set_replyCallbacks (obj_delete (_replyCallbacks win) sessionId) win
           end,
           [(sessionId, (cb, args))])
      | None => (win, [])
      end
  | Closed =>
      (match (until_throw (pending win)).2 with
       | Some _ => win
       | None => set_nativeWin None (set_replyCallbacks [] win)
       end,
       (until_throw (pending win)).1)
  end.

(** A sequence of calls, on the instance alone. *)
Fixpoint steps (cs : list call) (win : Window)
  : Window * list (Z * (callback * list value)) :=
  match cs with
  | [] => (win, [])
  | c :: cs' =>
      let '(win1, applied1) := step c win in
      let '(win2, applied2) := steps cs' win1 in
      (win2, applied1 ++ applied2)
  end.


End with_functions.



(** C3 as stated, for a call that passes the checks: after the calls [cs]
    it stores the reply callback under an id above every id taken before,
    and returns that id. *)
Definition takes_and_returns_id (this : winref) (cs : list call) (W1 : World)
    (channel : string) (args : list value) (reply : callback) : Prop :=
  let Wn := run this cs W1 in
  let call := EditorWindow.sendRequestToPage this (Str channel) (args ++ [Fn reply]) in
  exists sessionId,
    Forall (fun s => (s < sessionId)%Z) (allocated this cs W1)
    /\ obj_get (callbacks (exec call Wn) this) sessionId = Some reply
    /\ outcome call Wn = Return (Some sessionId).

End Sessions.

(* ===================================================================== *)
(** * The claims about panels, and sample worlds *)
(* ===================================================================== *)

(** A panel is docked in [w]: the dock table maps its identifier to [w]. *)
Definition docked (W : World) (panelID : string) (w : winref) : Prop :=
  mjoin (obj_get (_panel2windows W) panelID) = Some w.

(** The instance [w] still has its native window, with web contents. *)
Definition live (W : World) (w : winref) : Prop :=
  exists win bw,
    heap W !! w = Some win /\ nativeWin win = Some bw /\ bw_webContents bw = true.

(** What the native window's geometry makes of a layout profile. *)
Definition geometry (W : World) (w : winref) : LayoutProfile :=
  mkLayoutProfile (Some (getPosition W w).1) (Some (getPosition W w).2)
                  (Some (getContentSize W w).1) (Some (getContentSize W w).2).

(** [w] hosts no panel other than [panelID]. *)
Definition last_panel (W : World) (panelID : string) (w : winref) : Prop :=
  forall other, other <> panelID -> ~ docked W other w.

(** The elements of a list, each at the place where it comes first. *)
Fixpoint nub {A} `{EqDecision A} (l : list A) : list A :=
  match l with
  | [] => []
  | x :: l' => x :: filter (fun y => y <> x) (nub l')
  end.

(** The window [findWindows] takes from a docked identifier: the one the
    table holds for it, when the identifier is made of two pieces and the
    second is [packageName]. *)
Definition window_of (t : list (string * option winref)) (packageName p : string)
  : option (option winref) :=
  match split "." p with
  | [a; b] => if decide (b = packageName) then Some (mjoin (obj_get t p)) else None
  | _ => None
  end.

(** C5 as stated: opening a docked panel delivers [panel:run] with the new
    [argv], shows and focuses its window, creates no window and leaves the
    panel docked there. *)
Definition open_redelivers_run (panelInfo : string -> option PanelInfo)
    (W : World) (panelID : string) (argv : value) (w : winref) : Prop :=
  let W' := exec (EditorPanel.open panelInfo panelID argv) W in
  since W W' = [SendToPanel panelID "panel:run" argv; NativeShow w; NativeFocus w]
  /\ heap W' = heap W
  /\ _windows W' = _windows W
  /\ docked W' panelID w.

(** C6 as stated: closing a docked panel sends [panel:undock] to its window,
    saves the window's geometry in the panel's layout profile, and then
    closes the window exactly when it hosts no other panel and is not the
    main window. *)
Definition close_undocks_saves_closes (W : World) (panelID : string)
    (w : winref) : Prop :=
  let W' := exec (EditorPanel.close (ArgStr panelID)) W in
  exists closing,
    since W W'
      = [WebContentsSend w [Str "panel:undock"; Str panelID];
         ProfileSave ("layout." +:+ panelID) (geometry W w)] ++ closing
    /\ (last_panel W panelID w /\ mainWindow W <> Some w -> closing = [NativeClose w])
    /\ (~ (last_panel W panelID w /\ mainWindow W <> Some w) -> closing = [])
    /\ _panel2windows W' = obj_delete (_panel2windows W) panelID.

(** C6 as the code has it: the geometry is saved unless the window is the
    main window. *)
Definition close_undocks_saves_unless_main (W : World) (panelID : string)
    (w : winref) : Prop :=
  let W' := exec (EditorPanel.close (ArgStr panelID)) W in
  exists saving closing,
    since W W'
      = [WebContentsSend w [Str "panel:undock"; Str panelID]] ++ saving ++ closing
    /\ (mainWindow W <> Some w ->
          saving = [ProfileSave ("layout." +:+ panelID) (geometry W w)]
          /\ obj_get (profiles W') ("layout." +:+ panelID) = Some (geometry W w))
    /\ (mainWindow W = Some w -> saving = [] /\ profiles W' = profiles W)
    /\ (last_panel W panelID w /\ mainWindow W <> Some w -> closing = [NativeClose w])
    /\ (~ (last_panel W panelID w /\ mainWindow W <> Some w) -> closing = [])
    /\ _panel2windows W' = obj_delete (_panel2windows W) panelID.

(** ** Sample worlds *)

Definition no_options : Options :=
  mkOptions None None false None None None None None None None None None None.

Definition empty_world : World :=
  mkWorld [] [] None [] [] [] 0 (fun editorUrl => Some editorUrl)
          (fun _ => (0, 0)%Z) (fun _ => (0, 0)%Z) (fun _ _ => None) [].

(** A registry with one panel, [foo.bar]. *)
Definition foo_bar_only (panelID : string) : option PanelInfo :=
  if decide (panelID = "foo.bar")
  then Some (mkPanelInfo None "" None None None None None None)
  else None.

(** A registry with no panel at all. *)
Definition no_packages (panelID : string) : option PanelInfo := None.

(** The world after opening [foo.bar] from nothing: one window, hosting it. *)
Definition foo_bar_open : World :=
  exec (EditorPanel.open foo_bar_only "foo.bar" Undefined) empty_world.

(** The same, with that window as the main window. *)
Definition foo_bar_in_main : World := with_mainWindow (Some 0) foo_bar_open.

(** A short life of a window: two requests, a reply to the first, a
    cancelled request, and the window closed with the second still pending. *)
Definition sample_calls : list Sessions.call :=
  [Sessions.SendRequestToPage (Str "scene:query") [Num 1; Fn 7];
   Sessions.SendRequestToPage (Str "asset:info") [Fn 8];
   Sessions.Reply 0 [Str "done"];
   Sessions.SendRequestToPage (Str "asset:info") [Fn 9];
   Sessions.CancelRequestToPage 2;
   Sessions.Closed].

(** The same life before the window is closed. *)
Definition sample_requests : list Sessions.call := take 4 sample_calls.



(* ===================================================================== *)
(** * The package registry's load order *)
(* ===================================================================== *)

Module Package.

(** Why a load calls back with an error. *)
Inductive error :=
| InvalidManifest
| MissingHost
| EntryLoadError.

(** A package descriptor as parsed: the declared dependencies, in
    declaration order, whether every declared host is present, and whether
    the main script runs without throwing. *)
Record Manifest := mkManifest {
  dependencies : list string;
  hosts_present : bool;
  main_runs : bool;
}.

(** The registry: the packages loaded, and what the notification bus has
    broadcast to the windows (channel and package name), oldest first. *)
Record Registry := mkRegistry {
  loaded : gset string;
  broadcasts : list (string * string);
}.

Definition package_loaded (name : string) : string * string :=
  ("package:loaded", name).

(** Loading the packages of a list one after the other, stopping at the
    first that fails or does not finish. *)
Fixpoint load_each
    (load1 : string -> Registry -> option (option error * Registry))
    (names : list string) (reg : Registry)
  : option (option error * Registry) :=
  match names with
  | [] => Some (None, reg)
  | name :: names' =>
      match load1 name reg with
      | Some (None, reg') => load_each load1 names' reg'
      | failed => failed
      end
  end.

Section with_descriptors.
(** What parsing the descriptor of each package gives; a package whose
    descriptor is missing or malformed has none. *)
Variable descriptors : gmap string Manifest.

(** Modelled from the spec: [Editor.Package.load], the package registry
    (its code is not among the sources; section 4.1 of the specification).
    Loading an already-loaded package is a no-op that calls back with no
    error; otherwise the descriptor is parsed, the hosts checked, every
    declared dependency loaded in declaration order, each to completion,
    then the package itself loaded (its main script run), registered and
    announced by [package:loaded].  A failure is passed to the callback and
    leaves loaded what was loaded.  The result is [None] when the load does
    not finish within [fuel] nested loads, which is what happens on a
    dependency cycle. *)
Fixpoint load (fuel : nat) (name : string) (reg : Registry)
  : option (option error * Registry) :=
  match fuel with
  | O => None
  | S fuel' =>
      if decide (name ∈ loaded reg) then Some (None, reg)
      else
        match descriptors !! name with
        | None => Some (Some InvalidManifest, reg)
        | Some manifest =>
            if negb (hosts_present manifest) then Some (Some MissingHost, reg)
            else
              match load_each (load fuel') (dependencies manifest) reg with
              | Some (None, reg') =>
                  if main_runs manifest then
                    Some (None,
                          mkRegistry ({[name]} ∪ loaded reg')
                                     (broadcasts reg' ++ [package_loaded name]))
                  else Some (Some EntryLoadError, reg')
              | failed => failed
              end
        end
  end.

(** [p] declares [d] as a dependency. *)
Definition requires (p d : string) : Prop :=
  exists manifest,
    descriptors !! p = Some manifest /\ d ∈ dependencies manifest.

(** [p] depends on [d], directly or through other packages (or is [d]). *)
Definition depends : string -> string -> Prop := rtc requires.

(** Loading [p] from [reg] comes to load [d]: [p] is not loaded, and every
    dependency it declares before [d] is. *)
Definition calls (reg : Registry) (p d : string) : Prop :=
  (p ∉ loaded reg)
  /\ exists manifest i,
       descriptors !! p = Some manifest
       /\ dependencies manifest !! i = Some d
       /\ forall k dk, (k < i)%nat -> dependencies manifest !! k = Some dk ->
                       dk ∈ loaded reg.

(** [y] is [name] or a package whose load, from [reg], is waiting for the
    load of [name] to finish. *)
Definition waits_for (reg : Registry) (name y : string) : Prop :=
  y = name \/ tc (calls reg) y name.

(** What a load that finished without error did: it announced the packages
    [tr], none of them loaded before and each a dependency of [name], each
    once; they are now loaded, and so is [name], announced last when it was
    not loaded before; and no package waiting for [name] got loaded. *)
Definition load_spec (name : string) (reg reg' : Registry) : Prop :=
  exists tr,
    broadcasts reg' = broadcasts reg ++ (package_loaded <$> tr)
    /\ loaded reg' = list_to_set tr ∪ loaded reg
    /\ NoDup tr
    /\ (forall y, y ∈ tr -> (y ∉ loaded reg) /\ depends name y)
    /\ name ∈ loaded reg'
    /\ (name ∉ loaded reg -> exists tr', tr = tr' ++ [name])
    /\ (forall y, tc (calls reg) y name -> y ∉ loaded reg').

End with_descriptors.

(** [x] comes before [y] in a list. *)
Definition before {A} (x y : A) (l : list A) : Prop :=
  exists l1 l2 l3, l = l1 ++ x :: l2 ++ y :: l3.

(** From [reg] to [reg'] the packages [tr] were announced and are now
    loaded, each after those of its declared dependencies that were not
    loaded in [reg]. *)
Definition dependencies_first (descriptors : gmap string Manifest)
    (reg reg' : Registry) (tr : list string) : Prop :=
  broadcasts reg' = broadcasts reg ++ (package_loaded <$> tr)
  /\ loaded reg' = list_to_set tr ∪ loaded reg
  /\ forall y manifest d,
       y ∈ tr -> descriptors !! y = Some manifest -> d ∈ dependencies manifest ->
       d ∉ loaded reg -> before d y tr.

(** The packages a load announced: the names broadcast since [reg]. *)
Definition announced (reg reg' : Registry) : list string :=
  snd <$> drop (length (broadcasts reg)) (broadcasts reg').

(** C1 as stated: a successful load of [name] announces every declared
    dependency before [name], and the dependencies in declaration order. *)
Definition announces_in_declared_order (descriptors : gmap string Manifest)
    (fuel : nat) (name : string) (reg : Registry) : Prop :=
  forall manifest reg',
    descriptors !! name = Some manifest ->
    load descriptors fuel name reg = Some (None, reg') ->
    (forall d, d ∈ dependencies manifest -> before d name (announced reg reg'))
    /\ (forall i j di dj,
          (i < j)%nat ->
          dependencies manifest !! i = Some di ->
          dependencies manifest !! j = Some dj ->
          before di dj (announced reg reg')).

(** ** Sample registries *)

Definition nothing_loaded : Registry := mkRegistry ∅ [].

Definition plain (deps : list string) : Manifest := mkManifest deps true true.

(** The fixture of the test suite: [package-deps] needs [dep-01], which
    needs [dep-02]; and an application that needs [package-deps] and
    [simple]. *)
Definition fixtures : gmap string Manifest :=
  list_to_map
    [("app", plain ["package-deps"; "simple"]);
     ("package-deps", plain ["dep-01"]);
     ("dep-01", plain ["dep-02"]);
     ("dep-02", plain []);
     ("simple", plain [])].

(** A package whose first dependency itself needs the second. *)
Definition diamond : gmap string Manifest :=
  list_to_map
    [("top", plain ["left"; "base"]);
     ("left", plain ["base"]);
     ("base", plain [])].

End Package.

(* ===================================================================== *)
(** * lib/main/editor-window.js: the registered windows *)
(* ===================================================================== *)

(** A [BrowserWindow] object is known by the [EditorWindow] whose
    constructor created it: [CreatedBy w] is the object [w.nativeWin] holds
    until [w] is disposed.  [Elsewhere] is a native window that no
    [EditorWindow] created. *)
Inductive native_window :=
| CreatedBy (w : winref)
| Elsewhere.

#[global] Instance native_window_eq_dec : EqDecision native_window.
Proof. solve_decision. Defined.

Module Windows.

(** [EditorWindow.windows]: a copy of the list. *)
Definition windows : M (list winref) := read _windows.

(** What [find] is given: a string, a [BrowserWindow], or anything else,
    which is then taken for web contents and handed to
    [BrowserWindow.fromWebContents]; [from] is what that call gives. *)
Inductive param :=
| Name (s : string)
| Native (bw : native_window)
| WebContents (from : option native_window).

(** [for ( let i = 0; i < _windows.length; ++i )] with a [return] at the
    first window that passes the test. *)
Fixpoint find_loop (test : winref -> Window -> bool) (ws : list winref)
  : M (option winref) :=
  match ws with
  | [] => ret None
  | win :: ws' =>
      let! o := deref win in
      if test win o then ret (Some win) else find_loop test ws'
  end.

(** [win.name === param] *)
Definition named (s : string) (win : winref) (o : Window) : bool :=
  bool_decide (name o = s).

(** [win.nativeWin === nativeWin] *)
Definition has_native (bw : native_window) (win : winref) (o : Window) : bool :=
  bool_decide (is_Some (nativeWin o) /\ bw = CreatedBy win).

Definition find (p : param) : M (option winref) :=
  let! ws := read _windows in
  match p with
  | Name s => find_loop (named s) ws
  | Native bw => find_loop (has_native bw) ws
  | WebContents (Some bw) => find_loop (has_native bw) ws
  | WebContents None => ret None
  end.

End Windows.

(** ** Whether the page of a window is loaded *)

Module WebContentsEvents.

(** [this.nativeWin.webContents.on('did-finish-load', () => ...)] *)
Definition on_did_finish_load (this : winref) : M unit :=
  update this (set_loaded true).

End WebContentsEvents.

(** The property [isLoaded]. *)
Definition isLoaded (this : winref) : M bool :=
  let! win := deref this in
  ret (_loaded win).

(* ===================================================================== *)
(** * The [ipcMain] handlers of editor-window.js and editor-panel.js *)
(* ===================================================================== *)

(** The sender of a message is given by its native window,
    [BrowserWindow.fromWebContents(event.sender)]. *)
Module Ipc.

(** ['editor:sendreq2page:reply'] *)
Definition sendreq2page_reply (sender : native_window) (sessionId : Z)
    (args : list value) : M unit :=
  let! editorWin := Windows.find (Windows.Native sender) in
  match editorWin with
  | None =>
      emit (EditorWarn
              [Str "editor:sendreq2page:reply failed: Can not find the window."])
  | Some editorWin => EditorWindow._reply editorWin sessionId args
  end.

(** ['window:open']; [options] is the options object with its [argv]
    field, or [None] when the message carries none ([options || {}]). *)
Definition window_open (name url : string) (options : option (Options * value))
  : M unit :=
  let '(options, argv) := default (no_options, Undefined) options in
  let! editorWin := EditorWindow.new name options in
  native editorWin;;
  emit (SetMenuBarVisibility editorWin false);;
  EditorWindow.load editorWin url argv;;
  EditorWindow.show editorWin.

(** ['window:load'] *)
Definition window_load (sender : native_window) (url : string) (argv : value)
  : M unit :=
  let! editorWin := Windows.find (Windows.Native sender) in
  match editorWin with
  | None => emit (EditorWarn [Str "Failed to focus, can not find the window."])
  | Some editorWin => EditorWindow.load editorWin url argv
  end.

(** ['panel:ready'] *)
Definition panel_ready (panelID : string) : M unit :=
  let! argv := read (fun W => default Undefined (obj_get (_panel2argv W) panelID)) in
  emit (SendToPanel panelID "panel:run" argv).

Section with_packages.
Variable panelInfo : string -> option PanelInfo.

(** ['panel:open'] *)
Definition panel_open (panelID : string) (argv : value) : M unit :=
  EditorPanel.open panelInfo panelID argv.
End with_packages.

(** ['panel:dock'] *)
Definition panel_dock (sender : native_window) (panelID : string) : M unit :=
  let! editorWin := Windows.find (Windows.Native sender) in
  EditorPanel._dock panelID editorWin.

(** ['panel:close'] *)
Definition panel_close (panelID : string) : M unit :=
  EditorPanel.close (ArgStr panelID).

End Ipc.

(* ===================================================================== *)
(** * The main process as a whole *)
(* ===================================================================== *)

Module Process.

(** What the main process reacts to: messages from the pages, events of the
    native windows, and calls of the modules' methods. *)
Inductive event :=
| IpcReply (sender : native_window) (sessionId : Z) (args : list value)
| IpcWindowOpen (name url : string) (options : option (Options * value))
| IpcWindowLoad (sender : native_window) (url : string) (argv : value)
| IpcPanelReady (panelID : string)
| IpcPanelOpen (panelID : string) (argv : value)
| IpcPanelDock (sender : native_window) (panelID : string)
| IpcPanelClose (panelID : string)
| CloseEvent (w : winref)
| ClosedEvent (w : winref)
| DidFinishLoad (w : winref)
| NewWindow (name : string) (options : Options)
| WindowShow (w : winref)
| WindowFocus (w : winref)
| WindowClose (w : winref)
| WindowLoad (w : winref) (editorUrl : string) (argv : value)
| WindowSendToPage (w : winref) (args : list value)
| WindowSendRequestToPage (w : winref) (channel : value) (args : list value)
| WindowCancelRequestToPage (w : winref) (sessionId : Z)
| PanelOpen (panelID : string) (argv : value)
| PanelClose (panelID : string)
| PanelCloseAll (packageName : string).

Section with_packages.
Variable panelInfo : string -> option PanelInfo.

Definition handle (e : event) : M unit :=
  match e with
  | IpcReply sender sessionId args => Ipc.sendreq2page_reply sender sessionId args
  | IpcWindowOpen name url options => Ipc.window_open name url options
  | IpcWindowLoad sender url argv => Ipc.window_load sender url argv
  | IpcPanelReady panelID => Ipc.panel_ready panelID
  | IpcPanelOpen panelID argv => Ipc.panel_open panelInfo panelID argv
  | IpcPanelDock sender panelID => Ipc.panel_dock sender panelID
  | IpcPanelClose panelID => Ipc.panel_close panelID
  | CloseEvent w => NativeEvents.on_close w
  | ClosedEvent w => NativeEvents.on_closed w
  | DidFinishLoad w => WebContentsEvents.on_did_finish_load w
  | NewWindow name options => EditorWindow.new name options;; ret tt
  | WindowShow w => EditorWindow.show w
  | WindowFocus w => EditorWindow.focus w
  | WindowClose w => EditorWindow.close w
  | WindowLoad w editorUrl argv => EditorWindow.load w editorUrl argv
  | WindowSendToPage w args => EditorWindow.sendToPage w args
  | WindowSendRequestToPage w channel args =>
      EditorWindow.sendRequestToPage w channel args;; ret tt
  | WindowCancelRequestToPage w sessionId =>
      EditorWindow.cancelRequestToPage w sessionId
  | PanelOpen panelID argv => EditorPanel.open panelInfo panelID argv
  | PanelClose panelID => EditorPanel.close (ArgStr panelID)
  | PanelCloseAll packageName => EditorPanel.closeAll packageName
  end.

(** The events of a list handled in turn, each whether or not an earlier
    handler threw. *)
Fixpoint run (es : list event) (W : World) : World :=
  match es with
  | [] => W
  | e :: es' => run es' (exec (handle e) W)
  end.
End with_packages.

(** The registry of windows and the dock table agree with the heap: no
    window is registered twice, a registered window has its native window
    and web contents, and a panel is docked in a registered window. *)
Record consistent (W : World) : Prop := {
  registered_once : NoDup (_windows W);
  registered_live : forall w, w ∈ _windows W -> live W w;
  docked_registered : forall panelID w, docked W panelID w -> w ∈ _windows W;
}.

End Process.

(** ** Reading the code as a transformer of worlds *)

(** Whatever [m] does, the world it leaves is related by [R] to the world
    it started in, whether it returns or throws. *)
Definition respects (R : relation World) {A} (m : M A) : Prop :=
  forall W, R W (exec m W).

(** Started where [P] holds, [m] returns [a] in a world where [Q a] holds,
    or throws in a world where [E] holds. *)
Definition triple {A} (P : World -> Prop) (m : M A)
    (Q : A -> World -> Prop) (E : World -> Prop) : Prop :=
  forall W, P W ->
    match m W with
    | (Return a, W') => Q a W'
    | (Throw _, W') => E W'
    end.

(** The registry and the dock table are as they were, and the windows that
    had their native window still have it. *)
Definition frame (W W' : World) : Prop :=
  _windows W' = _windows W
  /\ _panel2windows W' = _panel2windows W
  /\ forall w, live W w -> live W' w.

(** [m] keeps [P] true, also when it throws. *)
Definition keeps {A} (P : World -> Prop) (m : M A) : Prop :=
  triple P m (fun _ => P) P.

(** The event is a call of [Editor.Panel.open] for [panelID], direct or by
    [panel:open]. *)
Definition opens (panelID : string) (e : Process.event) : bool :=
  match e with
  | Process.IpcPanelOpen p _ | Process.PanelOpen p _ => bool_decide (p = panelID)
  | _ => false
  end.

(** The page of [w] is not loaded. *)
Definition unloaded (w : winref) (W : World) : Prop :=
  exists win, heap W !! w = Some win /\ _loaded win = false.

(** If the page of [w] was not loaded, it still is not. *)
Definition still_unloaded (w : winref) (W W' : World) : Prop :=
  unloaded w W -> unloaded w W'.

(** The [argv] cached for [panelID] is as it was. *)
Definition same_argv (panelID : string) (W W' : World) : Prop :=
  obj_get (_panel2argv W') panelID = obj_get (_panel2argv W) panelID.

(** ** Sample runs *)

(** [foo.bar] opened with an [argv], then closed, then its window closed. *)
Definition foo_bar_closed : World :=
  Process.run foo_bar_only [Process.PanelClose "foo.bar"; Process.ClosedEvent 0]
    (exec (EditorPanel.open foo_bar_only "foo.bar" (Str "scene")) empty_world).

(** [foo.bar] open in a window at (100, 50) whose content is 640 by 480. *)
Definition foo_bar_placed : World :=
  mkWorld (heap foo_bar_open) (_windows foo_bar_open) (mainWindow foo_bar_open)
          (_panel2windows foo_bar_open) (_panel2argv foo_bar_open)
          (profiles foo_bar_open) (now foo_bar_open) (url foo_bar_open)
          (fun _ => (100, 50)%Z) (fun _ => (640, 480)%Z) (throws foo_bar_open)
          (log foo_bar_open).

(* ===================================================================== *)
(** * Notions used to state what the main process does *)
(* ===================================================================== *)

(** No panel is docked in [this]. *)
Definition hosts_nothing (this : winref) (W : World) : Prop :=
  forall panelID, ~ docked W panelID this.

(** Every registered reference is an instance of the heap. *)
Definition registered_in_heap_all (W : World) : Prop :=
  Forall (fun w => is_Some (heap W !! w)) (_windows W).

(** The first element of a list that passes a test. *)
Fixpoint first_where {A} (test : A -> bool) (l : list A) : option A :=
  match l with
  | [] => None
  | x :: l' => if test x then Some x else first_where test l'
  end.

(** The test of [find] with the instance looked up in the heap. *)
Definition passes (W : World) (test : winref -> Window -> bool) (w : winref) : bool :=
  match heap W !! w with
  | Some o => test w o
  | None => false
  end.

(** The editor window of a native window: registered, created it, and still
    holds it. *)
Definition owner_of (W : World) (bw : native_window) (w : winref) : Prop :=
  bw = CreatedBy w /\ w ∈ _windows W
  /\ exists o, heap W !! w = Some o /\ is_Some (nativeWin o).

(** The page [open] loads into the window of a panel. *)
Definition panel_page (info : PanelInfo) (panelID : string) (argv : value)
  : string * value :=
  if decide (pi_type info = Some "simple")
  then ("packages://" +:+ default "" (head (split "." panelID)) +:+ "/" +:+ pi_frame info,
        argv)
  else (EditorPanel.templateUrl, Obj [("panelID", Str panelID)]).

(** What the [EditorWindow] constructor hands to [new BrowserWindow] and
    whether the window hides on blur. *)
Definition constructed (options : Options) : Options * bool :=
  EditorWindow.switch_windowType
    (default "dockable" (opt_windowType (EditorWindow.defaults options)))
    (EditorWindow.defaults options).

(** The layout profile [open] reads for a panel. *)
Definition saved_layout (W : World) (panelID : string) : LayoutProfile :=
  default (mkLayoutProfile None None None None)
          (obj_get (profiles W) ("layout." +:+ panelID)).

(** The panels docked in [this], in the order of the dock table. *)
Definition hosted (W : World) (this : winref) : list string :=
  filter (fun id => mjoin (obj_get (_panel2windows W) id) = Some this)
         (obj_keys (_panel2windows W)).

(** The identifier cut in two, when it is a panel of [packageName]. *)
Definition panel_of (packageName : string) (p : string) : option (list string) :=
  match split "." p with
  | [a; b] => if decide (a = packageName) then Some [a; b] else None
  | _ => None
  end.

(* ===================================================================== *)
(** * lib/main/editor-window.js: position, size and layout of the windows *)
(* ===================================================================== *)

(** The functions that place a window and that keep, save and give back the
    window states.  They touch none of the tables above, so the state they
    work on is passed to them: the table [_windowLayouts], and what the
    native window, the screen, the profile [layout.windows] and the file
    system give when asked. *)
Module WindowStates.

(** A number as a variable of [adjust] holds it: an integer, or NaN. *)
Inductive num :=
| Int (n : Z)
| NotANumber.

Bind Scope Z_scope with num.
Coercion Int : Z >-> num.

(** [typeof v === 'number'], which holds for NaN too. *)
Definition number (v : value) : option num :=
  match v with
  | Num n => Some (Int n)
  | NaN => Some NotANumber
  | _ => None
  end.

(** [n <= 0]: false when [n] is NaN. *)
Definition le_zero (n : num) : bool :=
  match n with
  | Int n => (n <=? 0)%Z
  | NotANumber => false
  end.

(** The truth value of a value in a condition. *)
Definition ToBoolean (v : value) : bool :=
  match v with
  | Undefined | Null => false
  | Bool b => b
  | Num n => negb (n =? 0)%Z
  | NaN => false
  | Str s => negb (bool_decide (s = ""))
  | Fn _ | Arr _ | Obj _ => true
  end.

(** [o.k] on an object: [undefined] when there is no such field. *)
Definition field (o : list (string * value)) (k : string) : value :=
  default Undefined (obj_get o k).

(** What [nativeWin.getBounds()] returns. *)
Record Bounds := mkBounds {
  b_x : Z;
  b_y : Z;
  b_width : Z;
  b_height : Z;
}.

(** The calls [adjust] makes on the native window. *)
Inductive native_call :=
| SetSize (w h : num)
| SetPosition (x y : num)
| Center.

(** The state of one window as [_windowLayouts] and the profile
    [layout.windows] hold it: an object with the fields [x], [y], [width],
    [height] and, once a layout was committed, [layout]. *)
Abbreviation WinInfo := (list (string * value)) (only parsing).

Section with_screen.
(** [Screen.getDisplayMatching({x, y, width, height}).workArea], its [x] and
    [y]. *)
Variable getDisplayMatching : num -> num -> num -> num -> Z * Z.

(** [adjust(x, y, w, h)]: the calls made on [this.nativeWin], in order. *)
Definition adjust (this : Window) (x y w h : value) : result (list native_call) :=
  let adjustToCenter := false in
  let '(adjustToCenter, x) :=
    match number x with
    | Some x => (adjustToCenter, x)
    | None => (true, Int 0)
    end in
  let '(adjustToCenter, y) :=
    match number y with
    | Some y => (adjustToCenter, y)
    | None => (true, Int 0)
    end in
  let '(adjustToCenter, w) :=
    match number w with
    | Some w => if le_zero w then (true, Int 800) else (adjustToCenter, w)
    | None => (true, Int 800)
    end in
  let '(adjustToCenter, h) :=
    match number h with
    | Some h => if le_zero h then (true, Int 600) else (adjustToCenter, h)
    | None => (true, Int 600)
    end in
  let workArea := getDisplayMatching x y w h in
  match nativeWin this with
  | None => Throw TypeError
  | Some _ =>
      Return ([SetSize w h; SetPosition (Int workArea.1) (Int workArea.2)]
                ++ [if adjustToCenter then Center else SetPosition x y])
  end.

(** [restorePositionAndSize()]; [size] is [this.nativeWin.getSize()] and
    [windows] the [windows] field of the profile [layout.windows], where an
    entry can be [undefined]. *)
Definition restorePositionAndSize (this : Window) (size : Z * Z)
    (windows : option (list (string * option WinInfo)))
  : result (list native_call) :=
  match nativeWin this with
  | None => Throw TypeError
  | Some _ =>
      match mjoin (windows ≫= fun ws => obj_get ws (name this)) with
      | Some winInfo =>
          adjust this (field winInfo "x") (field winInfo "y")
                 (field winInfo "width") (field winInfo "height")
      | None => adjust this Undefined Undefined (Num size.1) (Num size.2)
      end
  end.
End with_screen.

(** [_windowLayouts], with the warnings logged on the way. *)
Record Layouts := mkLayouts {
  _windowLayouts : list (string * WinInfo);
  warned : list effect;
}.

(** [_.assign(winInfo, winBounds)] *)
Definition assign (winInfo : WinInfo) (winBounds : Bounds) : WinInfo :=
  obj_set (obj_set (obj_set (obj_set winInfo "x" (Num (b_x winBounds)))
                            "y" (Num (b_y winBounds)))
                   "width" (Num (b_width winBounds)))
          "height" (Num (b_height winBounds)).

Section with_bounds.
(** [nativeWin.getBounds()] of each window. *)
Variable getBounds : winref -> Bounds.

(** [commitWindowState(layoutInfo)] *)
Definition commitWindowState (W : World) (this : winref) (layoutInfo : value)
    (L : Layouts) : result unit * Layouts :=
  match heap W !! this with
  | None => (Throw TypeError, L)
  | Some win =>
      if negb (save win) then (Return tt, L)
      else
        match nativeWin win with
        | None => (Throw TypeError, L)
        | Some _ =>
            let winBounds := getBounds this in
            let '(winBounds, warned1) :=
              if (b_width winBounds =? 0)%Z then
                (mkBounds (b_x winBounds) (b_y winBounds) 800 (b_height winBounds),
                 [EditorWarn [Str "Failed to commit window state. Invalid window width: ";
                              Num (b_width winBounds)]])
              else (winBounds, []) in
            let '(winBounds, warned2) :=
              if (b_height winBounds =? 0)%Z then
                (mkBounds (b_x winBounds) (b_y winBounds) (b_width winBounds) 600,
                 [EditorWarn [Str "Failed to commit window state. Invalid window height ";
                              Num (b_height winBounds)]])
              else (winBounds, []) in
            let winInfo := obj_get (_windowLayouts L) (name win) in
            let winInfo := assign (default [] winInfo) winBounds in
            let winInfo :=
              if ToBoolean layoutInfo then obj_set winInfo "layout" layoutInfo
              else winInfo in
            (Return tt,
             mkLayouts (obj_set (_windowLayouts L) (name win) winInfo)
                       (warned L ++ warned1 ++ warned2))
        end
  end.

(** The loop of [commitWindowStates]. *)
Fixpoint commit_each (W : World) (ws : list winref) (L : Layouts)
  : result unit * Layouts :=
  match ws with
  | [] => (Return tt, L)
  | editorWin :: ws' =>
      match commitWindowState W editorWin Undefined L with
      | (Return _, L') => commit_each W ws' L'
      | (Throw err, L') => (Throw err, L')
      end
  end.

Definition commitWindowStates (W : World) (L : Layouts) : result unit * Layouts :=
  commit_each W (_windows W) L.
End with_bounds.

(** [loadLayouts()]: [_windowLayouts] made anew from the [windows] field of
    the profile [layout.windows]. *)
Definition loadLayouts (windows : list (string * WinInfo))
  : list (string * WinInfo) :=
  foldl (fun layouts entry => obj_set layouts entry.1 entry.2) [] windows.

(** The loop of [saveWindowStates] that fills [profile.windows]. *)
Fixpoint fill_windows (W : World) (L : Layouts) (ws : list winref)
    (windows : list (string * option WinInfo))
  : result (list (string * option WinInfo)) :=
  match ws with
  | [] => Return windows
  | editorWin :: ws' =>
      match heap W !! editorWin with
      | None => Throw TypeError
      | Some win =>
          fill_windows W L ws'
            (obj_set windows (name win) (obj_get (_windowLayouts L) (name win)))
      end
  end.

(** [saveWindowStates()]: the [windows] object of the profile at the call of
    [profile.save()], or [None] when the function returns before. *)
Definition saveWindowStates (runMode : string) (W : World) (L : Layouts)
  : result (option (list (string * option WinInfo))) :=
  if decide (runMode = "test") then Return None
  else if decide (mainWindow W = None) then Return None
  else
    match fill_windows W L (_windows W) [] with
    | Return windows => Return (Some windows)
    | Throw err => Throw err
    end.

Section with_bounds_and_mode.
Variable getBounds : winref -> Bounds.
Variable runMode : string.

(** The end of the handler of the native [close] event:
    [EditorWindow.commitWindowStates(); EditorWindow.saveWindowStates();] *)
Definition commit_and_save (W : World) (L : Layouts)
  : result (option (list (string * option WinInfo))) * Layouts :=
  match commitWindowStates getBounds W L with
  | (Return _, L') => (saveWindowStates runMode W L', L')
  | (Throw err, L') => (Throw err, L')
  end.

(** ['window:save-layout'] *)
Definition window_save_layout (W : World) (sender : native_window)
    (layoutInfo : value) (L : Layouts)
  : result (option (list (string * option WinInfo))) * Layouts :=
  match outcome (Windows.find (Windows.Native sender)) W with
  | Throw err => (Throw err, L)
  | Return None =>
      (Return None,
       mkLayouts (_windowLayouts L)
                 (warned L ++ [EditorWarn
                    [Str "Failed to save layout, can not find the window."]]))
  | Return (Some editorWin) =>
      match commitWindowState getBounds W editorWin layoutInfo L with
      | (Return _, L') => (saveWindowStates runMode W L', L')
      | (Throw err, L') => (Throw err, L')
      end
  end.
End with_bounds_and_mode.

(** ['window:query-layout']: the arguments [reply] is called with.
    [defaultLayout] is what reading the default layout gives: [None] when
    [Fs.existsSync(Editor._defaultLayout)] is false, else the value
    [JSON.parse] returns or the message of the error that is thrown. *)
Definition window_query_layout (W : World) (sender : native_window)
    (defaultLayout : option (result value)) (L : Layouts)
  : result (list value) * list effect :=
  match outcome (Windows.find (Windows.Native sender)) W with
  | Throw err => (Throw err, [])
  | Return None =>
      (Return [], [EditorWarn [Str "Failed to query layout, can not find the window."]])
  | Return (Some editorWin) =>
      match heap W !! editorWin with
      | None => (Throw TypeError, [])
      | Some win =>
          let layout :=
            match obj_get (_windowLayouts L) (name win) with
            | Some winInfo =>
                if ToBoolean (field winInfo "layout") then field winInfo "layout"
                else Null
            | None => Null
            end in
          if bool_decide (mainWindow W = Some editorWin) && negb (ToBoolean layout) then
            match defaultLayout with
            | Some (Return parsed) => (Return [parsed; Bool true], [])
            | Some (Throw message) =>
                (Return [Null; Bool false],
                 [EditorError [Str "Failed to load default layout: "; Str message]])
            | None => (Return [layout; Bool false], [])
            end
          else (Return [layout; Bool false], [])
      end
  end.

End WindowStates.

(** The width or height that [adjust] keeps as it is given: a number for
    which [n <= 0] is false, so an integer above zero, or NaN. *)
Definition kept (v : value) : option WindowStates.num :=
  match WindowStates.number v with
  | Some n => if WindowStates.le_zero n then None else Some n
  | None => None
  end.

(** ** A sample world: the main window alone *)

Definition main_window : Window :=
  mkWindow "main" false "dockable" true false 0 []
           (Some (mkBrowserWindow no_options true)).

Definition main_only : World :=
  mkWorld [main_window] [0%nat] (Some 0%nat) [] [] [] 0
          (fun editorUrl => Some editorUrl) (fun _ => (0, 0)%Z) (fun _ => (0, 0)%Z)
          (fun _ _ => None) [].

(** The bounds [commitWindowState] stores: a width or height of zero is
    replaced. *)
Definition committed (b : WindowStates.Bounds) : WindowStates.Bounds :=
  WindowStates.mkBounds (WindowStates.b_x b) (WindowStates.b_y b)
    (if (WindowStates.b_width b =? 0)%Z then 800 else WindowStates.b_width b)
    (if (WindowStates.b_height b =? 0)%Z then 600 else WindowStates.b_height b).

(** The names of the windows of a list. *)
Definition names (W : World) (ws : list winref) : list string :=
  omap (fun w => name <$> heap W !! w) ws.

(* ===================================================================== *)
(** * Tactics *)
(* ===================================================================== *)

Import Sessions.

(** Projections of a world out of the world setters. *)
Ltac wsimpl :=
  cbn [heap _windows mainWindow _panel2windows _panel2argv profiles now url
       getPosition getContentSize throws log with_heap with_windows with_mainWindow
       with_panel2windows with_panel2argv with_profiles with_log fst snd].

(** Unfolding of the computations on worlds. *)
Ltac run_js :=
  unfold native, update;
  unfold bind, modify, deref, emit, read, ret, throw; wsimpl.

(* ===================================================================== *)
(** * Facts *)
(* ===================================================================== *)

(** ** Tables *)

Section object_facts.
Context {K V : Type} `{EqDecision K}.
Implicit Types (o : list (K * V)) (k : K) (v : V).

Lemma obj_get_set o k v k' :
  obj_get (obj_set o k v) k' = if decide (k = k') then Some v else obj_get o k'.
Proof.
  induction o as [|[k0 v0] o IH]; simpl.
  - repeat case_decide; congruence.
  - repeat (case_decide; simpl); try congruence.
Qed.

Lemma obj_get_delete o k k' :
  obj_get (obj_delete o k) k' = if decide (k = k') then None else obj_get o k'.
Proof.
  induction o as [|[k0 v0] o IH]; simpl.
  - by case_decide.
  - repeat (case_decide; simpl); try congruence.
Qed.

Lemma obj_get_Some_key o k v : obj_get o k = Some v -> k ∈ obj_keys o.
Proof.
  unfold obj_keys. induction o as [|[k0 v0] o IH]; simpl; [done|].
  case_decide; intros; [subst; left | right; auto].
Qed.

Lemma obj_get_None_key o k : obj_get o k = None <-> k ∉ obj_keys o.
Proof.
  unfold obj_keys. induction o as [|[k0 v0] o IH]; simpl.
  - split; [intros _; apply not_elem_of_nil | done].
  - rewrite not_elem_of_cons. case_decide; subst.
    + split; [done | intros [? _]; done].
    + rewrite IH. split; [intros Hni; split; [congruence | done] | by intros [_ Hni]].
Qed.


Lemma obj_delete_absent o k : k ∉ obj_keys o -> obj_delete o k = o.
Proof.
  unfold obj_keys. induction o as [|[k0 v0] o IH]; simpl; [done|].
  rewrite not_elem_of_cons. intros [Hne Hni].
  rewrite decide_False by done. by rewrite IH.
Qed.

Lemma obj_keys_set o k v :
  obj_keys (obj_set o k v) = if decide (k ∈ obj_keys o) then obj_keys o else obj_keys o ++ [k].
Proof.
  unfold obj_keys. induction o as [|[k0 v0] o IH]; csimpl.
  - done.
  - destruct (decide (k0 = k)) as [->|Hne]; csimpl.
    + clear IH. case_decide as Hni; [done | destruct Hni; left].
    + rewrite IH. clear IH.
      repeat case_decide; try done; exfalso;
        rewrite ?elem_of_cons in *; intuition congruence.
Qed.

Lemma obj_keys_delete o k :
  obj_keys (obj_delete o k) = filter (fun k' => k' <> k) (obj_keys o).
Proof.
  unfold obj_keys. induction o as [|[k0 v0] o IH]; csimpl; [done|].
  rewrite filter_cons. destruct (decide (k0 = k)) as [->|Hne]; csimpl.
  - by rewrite decide_False by (intros ?; done).
  - rewrite decide_True by done. by rewrite IH.
Qed.
End object_facts.

(** ** Request/reply sessions *)

Lemma for_each_app {A} (l1 l2 : list A) (body : A -> M unit) W :
  for_each (l1 ++ l2) body W = (for_each l1 body;; for_each l2 body) W.
Proof.
  revert W. induction l1 as [|x l1 IH]; intros W; simpl.
  - reflexivity.
  - unfold bind in *. destruct (body x W) as [[[]|err] W1]; [|reflexivity].
    apply IH.
Qed.

(** The loop of [_onWindowClosed] rewrites the dock table and nothing else. *)
Lemma onWindowClosed_loop editorWin (ids : list string) W :
  exists t, for_each ids (fun id =>
    let! win := EditorPanel.findWindow id in
    if decide (win = Some editorWin) then
      modify (fun W => with_panel2windows (obj_delete (_panel2windows W) id) W)
    else ret tt) W = (Return tt, with_panel2windows t W).
Proof.
  revert W. induction ids as [|id ids IH]; intros W; simpl.
  - exists (_panel2windows W). by destruct W.
  - unfold bind at 1. unfold EditorPanel.findWindow at 1. unfold read at 1. unfold bind at 1.
    case_decide.
    + unfold modify at 1. destruct (IH (with_panel2windows (obj_delete (_panel2windows W) id) W)) as [t Ht].
      rewrite Ht. by exists t.
    + unfold ret at 1. destruct (IH W) as [t Ht]. rewrite Ht. by exists t.
Qed.

Lemma onWindowClosed_frame editorWin W :
  exists t, EditorPanel._onWindowClosed editorWin W = (Return tt, with_panel2windows t W).
Proof.
  unfold EditorPanel._onWindowClosed. unfold bind at 1, read at 1.
  apply onWindowClosed_loop.
Qed.

Lemma invoke_run this s cb args W :
  invoke this s cb args W
  = (match throws W cb args with
     | Some err => Throw err
     | None => Return tt
     end,
     with_log (log W ++ [CallbackApply this s cb args]) W).
Proof. unfold invoke. run_js. by destruct (throws W cb args). Qed.

(** The loop of the handler of [closed] over the stored callbacks: it calls
    them in turn and ends where one throws. *)
Lemma closed_loop this win (ids : list Z) W :
  heap W !! this = Some win ->
  for_each ids (fun sessionId =>
    let! win := deref this in
    match obj_get (_replyCallbacks win) sessionId with
    | Some cb => invoke this sessionId cb []
    | None => ret tt
    end) W =
  (match (until_throw (throws W) (pending_of win ids)).2 with
   | Some err => Throw err
   | None => Return tt
   end,
   with_log (log W ++ (invocation this <$> (until_throw (throws W) (pending_of win ids)).1)) W).
Proof.
  revert W. induction ids as [|s ids IH]; intros W Hw; cbn [for_each pending_of omap list_omap].
  - cbn. rewrite app_nil_r. by destruct W.
  - unfold bind at 1. unfold deref at 1, bind at 1. rewrite Hw.
    destruct (obj_get (_replyCallbacks win) s) as [cb|];
      cbn [fmap option_fmap option_map until_throw fst snd].
    + rewrite invoke_run. destruct (throws W cb []) as [err|] eqn:Hth.
      * done.
      * rewrite IH by done. wsimpl. cbn [fmap list_fmap fst snd].
        by rewrite <- app_assoc.
    + unfold ret at 1. by rewrite IH.
Qed.

Lemma applied_app this l1 l2 :
  applied this (l1 ++ l2) = applied this l1 ++ applied this l2.
Proof. apply omap_app. Qed.

Lemma applied_invocations this l : applied this (invocation this <$> l) = l.
Proof.
  unfold applied. induction l as [|[s [cb args]] l IH]; [done|].
  cbn [fmap list_fmap omap list_omap invocation applied_of fst snd].
  rewrite decide_True by done. cbn. f_equal. exact IH.
Qed.

Lemma removeWindow_frame this W win :
  heap W !! this = Some win ->
  exists ws evs,
    EditorWindow.removeWindow this W
      = (Return tt, with_log (log W ++ evs) (with_windows ws W))
    /\ applied this evs = [].
Proof.
  intros Hw. unfold EditorWindow.removeWindow. run_js.
  case_bool_decide; simpl.
  - exists (EditorWindow.splice_first this (_windows W)), []. rewrite app_nil_r.
    split; [by destruct W | auto].
  - rewrite Hw. simpl.
    eexists (_windows W), [_]. split; [by destruct W | auto].
Qed.

Lemma on_closed_step this W win :
  heap W !! this = Some win ->
  exists r W' evs,
    NativeEvents.on_closed this W = (r, W')
    /\ heap W' !! this = Some (step (throws W) Closed win).1
    /\ log W' = log W ++ evs
    /\ applied this evs = (step (throws W) Closed win).2
    /\ throws W' = throws W.
Proof.
  intros Hw. unfold NativeEvents.on_closed. cbn [step fst snd].
  unfold bind at 1. destruct (onWindowClosed_frame this W) as [t ->].
  unfold bind at 1. unfold deref at 1. wsimpl. rewrite Hw.
  unfold bind at 1. rewrite (closed_loop this win) by done. wsimpl. fold (pending win).
  destruct (until_throw (throws W) (pending win)) as [called [err|]]; cbn [fst snd].
  { eexists _, _, _. split; [reflexivity|]. wsimpl.
    split; [done|]. split; [done|]. split; [apply applied_invocations|done]. }
  unfold bind at 1. unfold update at 1, modify at 1.
  unfold bind at 1. unfold EditorWindow.isMainWindow at 1, read at 1.
  set (W1 := with_heap _ _).
  assert (Hh1 : heap W1 !! this = Some (set_replyCallbacks [] win)).
  { subst W1. wsimpl. by rewrite list_lookup_alter_eq, Hw. }
  assert (Hl1 : log W1 = log W ++ (invocation this <$> called)) by done.
  assert (Ht1 : throws W1 = throws W) by done.
  destruct (removeWindow_frame this W1 _ Hh1) as (ws & evs & Hex & Hap).
  case_bool_decide.
  - unfold bind at 1. unfold bind at 1. rewrite Hex.
    unfold bind at 1. unfold modify at 1. unfold emit at 1.
    unfold EditorWindow.dispose, update, modify. wsimpl.
    eexists _, _, _. split; [done|]. wsimpl. rewrite list_lookup_alter_eq, Hh1.
    split; [done|]. rewrite Hl1, <- !app_assoc. split; [done|].
    rewrite !applied_app, applied_invocations, Hap. simpl. by rewrite app_nil_r.
  - unfold bind at 1. rewrite Hex.
    unfold EditorWindow.dispose, update, modify. wsimpl.
    eexists _, _, _. split; [done|]. wsimpl. rewrite list_lookup_alter_eq, Hh1.
    split; [done|]. rewrite Hl1, <- !app_assoc. split; [done|].
    rewrite !applied_app, applied_invocations, Hap. by rewrite app_nil_r.
Qed.

Lemma sendToPage_frame this args W win :
  heap W !! this = Some win ->
  exists r evs,
    EditorWindow.sendToPage this args W = (r, with_log (log W ++ evs) W)
    /\ applied this evs = []
    /\ (is_Some (nativeWin win) -> r = Return tt).
Proof.
  intros Hw. unfold EditorWindow.sendToPage. run_js. rewrite Hw.
  destruct (nativeWin win) as [bw|].
  - destruct (bw_webContents bw).
    + eexists _, [_]. repeat split; reflexivity.
    + rewrite Hw. eexists _, [_]. repeat split; reflexivity.
  - exists (Throw TypeError), []. rewrite app_nil_r.
    split; [by destruct W|]. split; [done|]. by intros [? ?].
Qed.

Lemma perform_step this c W win :
  heap W !! this = Some win ->
  exists r W' evs,
    perform this c W = (r, W')
    /\ heap W' !! this = Some (step (throws W) c win).1
    /\ log W' = log W ++ evs
    /\ applied this evs = (step (throws W) c win).2
    /\ throws W' = throws W
    /\ (forall s, r = Return (Some s) ->
          s = _nextSessionId win
          /\ _nextSessionId (step (throws W) c win).1 = incr (_nextSessionId win)).
Proof.
  intros Hw. destruct c as [channel args|s|s args|]; cbn [perform step].
  - unfold EditorWindow.sendRequestToPage.
    case_bool_decide; cbn [negb].
    + destruct (last args) as [[| | | | | |reply| |]|] eqn:Hlast;
        try (eexists _, _, [_]; run_js; split; [reflexivity|]; rewrite ?Hw;
             repeat split; done).
      unfold bind at 1. unfold deref at 1. rewrite Hw.
      unfold bind at 1. unfold update at 1, modify at 1.
      unfold bind at 1. unfold update at 1, modify at 1.
      set (W1 := with_heap _ (with_heap _ W)).
      assert (Hh1 : heap W1 !! this = Some
        (set_replyCallbacks
           (obj_set (_replyCallbacks win) (_nextSessionId win) reply)
           (set_nextSessionId (incr (_nextSessionId win)) win))).
      { subst W1. wsimpl. by rewrite !list_lookup_alter_eq, Hw. }
      destruct (sendToPage_frame this
        [Str "editor:sendreq2page"; channel; Num (_nextSessionId win); Arr (removelast args)]
        W1 _ Hh1) as (r & evs & Hs & Hap & _).
      unfold bind at 1. rewrite Hs.
      destruct r; run_js; (eexists _, _, evs; split; [reflexivity|]); wsimpl;
        rewrite Hh1; repeat split; try done.
      congruence.
    + eexists _, _, [_]; run_js; split; [reflexivity|]; rewrite ?Hw;
        repeat split; done.
  - unfold EditorWindow.cancelRequestToPage. run_js.
    eexists _, _, []. split; [reflexivity|]. wsimpl.
    rewrite app_nil_r, list_lookup_alter_eq, Hw. repeat split; done.
  - unfold EditorWindow._reply.
    unfold bind at 1. unfold bind at 1. unfold deref at 1. rewrite Hw.
    destruct (obj_get (_replyCallbacks win) s) as [cb|].
    + unfold bind at 1. rewrite invoke_run.
      destruct (throws W cb args) as [err|]; cbn [fst snd].
      * eexists _, _, [_]. split; [reflexivity|]. wsimpl.
        split; [done|]. split; [done|].
        split; [by cbn; rewrite decide_True|]. split; done.
      * run_js. eexists _, _, [_]. split; [reflexivity|]. wsimpl.
        rewrite list_lookup_alter_eq, Hw. split; [done|]. split; [done|].
        split; [by cbn; rewrite decide_True|]. split; done.
    + run_js. eexists _, _, []. split; [reflexivity|]. rewrite app_nil_r, Hw.
      repeat split; done.
  - destruct (on_closed_step this W win Hw) as (r & W' & evs & H0 & H1 & H2 & H3 & H4).
    unfold bind. rewrite H0.
    destruct r as [[]|err]; eexists _, W', evs; (split; [reflexivity|]);
      repeat split; done.
Qed.

Lemma pending_keys win : (pending win).*1 = obj_keys (_replyCallbacks win).
Proof.
  unfold pending, pending_of.
  assert (Hsub : forall k, k ∈ obj_keys (_replyCallbacks win) ->
                      is_Some (obj_get (_replyCallbacks win) k)).
  { intros k Hk. destruct (obj_get (_replyCallbacks win) k) eqn:E; [by eexists|].
    by apply obj_get_None_key in E. }
  induction (obj_keys (_replyCallbacks win)) as [|k ids IH]; [done|].
  destruct (Hsub k) as [cb Hcb]; [left|]. cbn [omap list_omap]. rewrite Hcb. csimpl.
  f_equal. apply IH. intros k' Hk'. apply Hsub. by right.
Qed.


Section with_functions.
Context (th : callback -> list value -> option string).

(** The calls [until_throw] keeps are the first of the list. *)
Lemma until_throw_prefix l : exists rest, l = (until_throw th l).1 ++ rest.
Proof.
  induction l as [|a l [rest IH]]; cbn [until_throw]; [by exists []|].
  destruct (th a.2.1 a.2.2); cbn [fst]; [by exists l|].
  exists rest. by rewrite <- app_comm_cons, <- IH.
Qed.



Lemma Forall_filter_keep {A} (P Q : A -> Prop) `{forall x, Decision (Q x)} l :
  Forall P l -> Forall P (filter Q l).
Proof.
  rewrite !Forall_forall. intros HP x Hx.
  apply list_elem_of_filter in Hx as [_ Hx]. auto.
Qed.



Lemma incr_below n : (n < MAX_EXACT)%Z -> incr n = (n + 1)%Z.
Proof. intros Hn. unfold incr. by rewrite decide_True. Qed.

Lemma incr_mono n : (n <= incr n)%Z.
Proof. unfold incr. case_decide; lia. Qed.

Lemma step_next c win :
  (_nextSessionId win <= _nextSessionId (step th c win).1 <= _nextSessionId win + 1)%Z.
Proof.
  pose proof (incr_mono (_nextSessionId win)).
  assert (incr (_nextSessionId win) <= _nextSessionId win + 1)%Z
    by (unfold incr; case_decide; lia).
  destruct c as [channel args|s|s args|]; cbn [step].
  - case_bool_decide; [|simpl; lia].
    destruct (last args) as [[| | | | | |reply| |]|]; simpl; lia.
  - simpl; lia.
  - destruct (obj_get _ _) as [cb|]; [destruct (th cb args)|]; simpl; lia.
  - destruct (until_throw th (pending win)).2; simpl; lia.
Qed.

(** A call that passes the checks moves the counter on. *)
Lemma step_well_formed c win :
  well_formed c = true ->
  _nextSessionId (step th c win).1 = incr (_nextSessionId win).
Proof.
  destruct c as [channel args|s|s args|]; cbn [well_formed step]; try done.
  case_bool_decide; [|done]. cbn [andb].
  by destruct (last args) as [[| | | | | |reply| |]|].
Qed.



Lemma steps_next_mono cs win :
  (_nextSessionId win <= _nextSessionId (steps th cs win).1)%Z.
Proof.
  revert win. induction cs as [|c cs IH]; intros win; cbn [steps]; [simpl; lia|].
  pose proof (step_next c win) as Hs. destruct (step th c win) as [win1 a1].
  specialize (IH win1). destruct (steps th cs win1) as [win2 a2]. simpl in *. lia.
Qed.

Lemma steps_next_bound cs win :
  (_nextSessionId (steps th cs win).1 <= _nextSessionId win + Z.of_nat (length cs))%Z.
Proof.
  revert win. induction cs as [|c cs IH]; intros win; cbn [steps length]; [simpl; lia|].
  pose proof (step_next c win) as Hs. destruct (step th c win) as [win1 a1].
  specialize (IH win1). destruct (steps th cs win1) as [win2 a2]. simpl in *. lia.
Qed.


(** Stored sessions are below the counter, whatever the callbacks do. *)
Lemma step_keys_lt c win :
  (_nextSessionId win < MAX_EXACT)%Z ->
  Forall (fun k => (k < _nextSessionId win)%Z) (obj_keys (_replyCallbacks win)) ->
  Forall (fun k => (k < _nextSessionId (step th c win).1)%Z)
         (obj_keys (_replyCallbacks (step th c win).1)).
Proof.
  intros Hn Hk.
  destruct c as [channel args|s|s args|]; cbn [step].
  - case_bool_decide; [|done].
    destruct (last args) as [[| | | | | |reply| |]|]; try done.
    cbn [fst _nextSessionId _replyCallbacks set_replyCallbacks set_nextSessionId].
    rewrite incr_below by done.
    assert (Hkeys : Forall (fun k => (k < _nextSessionId win + 1)%Z)
                      (obj_keys (_replyCallbacks win) ++ [_nextSessionId win])).
    { apply Forall_app. split; [|apply Forall_singleton; lia].
      eapply Forall_impl; [exact Hk|]. simpl. intros; lia. }
    rewrite obj_keys_set. case_decide; [|done].
    by apply Forall_app in Hkeys as [? _].
  - cbn [fst _nextSessionId _replyCallbacks set_replyCallbacks].
    rewrite obj_keys_delete. by apply Forall_filter_keep.
  - destruct (obj_get _ _) as [cb|]; [|done].
    destruct (th cb args); cbn [fst _nextSessionId _replyCallbacks set_replyCallbacks];
      [done|].
    rewrite obj_keys_delete. by apply Forall_filter_keep.
  - destruct (until_throw th (pending win)).2;
      cbn [fst _nextSessionId _replyCallbacks set_replyCallbacks set_nativeWin];
      [done|constructor].
Qed.

Lemma steps_keys_lt cs win :
  (_nextSessionId win + Z.of_nat (length cs) <= MAX_EXACT)%Z ->
  Forall (fun k => (k < _nextSessionId win)%Z) (obj_keys (_replyCallbacks win)) ->
  Forall (fun k => (k < _nextSessionId (steps th cs win).1)%Z)
         (obj_keys (_replyCallbacks (steps th cs win).1)).
Proof.
  revert win. induction cs as [|c cs IH]; intros win Hn Hk; cbn [steps]; [done|].
  cbn [length] in Hn.
  pose proof (step_next c win) as Hs.
  pose proof (step_keys_lt c win ltac:(lia) Hk) as Hk1.
  destruct (step th c win) as [win1 a1]. cbn [fst snd] in *.
  specialize (IH win1 ltac:(lia) Hk1).
  by destruct (steps th cs win1) as [win2 a2].
Qed.

Lemma step_never s c win :
  (s < _nextSessionId win)%Z ->
  s ∉ obj_keys (_replyCallbacks win) ->
  (s < _nextSessionId (step th c win).1)%Z
  /\ (s ∉ obj_keys (_replyCallbacks (step th c win).1))
  /\ (s ∉ ((step th c win).2).*1).
Proof.
  intros Hlt Hni. pose proof (step_next c win) as Hn.
  split; [lia|]. clear Hn.
  destruct c as [channel args|s'|s' args|]; cbn [step].
  - case_bool_decide; [|split; [done|apply not_elem_of_nil]].
    destruct (last args) as [[| | | | | |reply| |]|];
      try (split; [done|apply not_elem_of_nil]).
    cbn [fst snd _replyCallbacks set_replyCallbacks set_nextSessionId].
    split; [|apply not_elem_of_nil].
    rewrite obj_keys_set. case_decide; [done|].
    rewrite elem_of_app, list_elem_of_singleton. intros [?| ->]; [done|lia].
  - cbn [fst snd _replyCallbacks set_replyCallbacks].
    split; [|apply not_elem_of_nil].
    rewrite obj_keys_delete. intros Hin. by apply list_elem_of_filter in Hin as [_ ?].
  - destruct (obj_get (_replyCallbacks win) s') as [cb|] eqn:Hget;
      cbn [fst snd]; [|split; [done|apply not_elem_of_nil]].
    split.
    + destruct (th cb args); cbn [_replyCallbacks set_replyCallbacks]; [done|].
      rewrite obj_keys_delete. intros Hin. by apply list_elem_of_filter in Hin as [_ ?].
    + csimpl. rewrite list_elem_of_singleton. intros ->.
      by apply obj_get_Some_key in Hget.
  - cbn [fst snd]. split.
    + destruct (until_throw th (pending win)).2;
        cbn [_replyCallbacks set_replyCallbacks set_nativeWin]; [done|apply not_elem_of_nil].
    + destruct (until_throw_prefix (pending win)) as [rest Hrest].
      intros Hin. apply Hni. rewrite <- pending_keys, Hrest, fmap_app.
      apply elem_of_app. by left.
Qed.

Lemma steps_never s cs win :
  (s < _nextSessionId win)%Z ->
  s ∉ obj_keys (_replyCallbacks win) ->
  s ∉ (steps th cs win).2.*1.
Proof.
  revert win. induction cs as [|c cs IH]; intros win Hlt Hni; cbn [steps].
  - apply not_elem_of_nil.
  - destruct (step_never s c win Hlt Hni) as (Hlt1 & Hni1 & Ha1).
    destruct (step th c win) as [win1 a1]. cbn [fst snd] in *.
    specialize (IH win1 Hlt1 Hni1).
    destruct (steps th cs win1) as [win2 a2]. cbn [fst snd] in *.
    rewrite fmap_app, elem_of_app. by intros [?|?].
Qed.
End with_functions.

Lemma run_steps this cs W win :
  heap W !! this = Some win ->
  exists evs,
    heap (run this cs W) !! this = Some (steps (throws W) cs win).1
    /\ log (run this cs W) = log W ++ evs
    /\ applied this evs = (steps (throws W) cs win).2
    /\ throws (run this cs W) = throws W.
Proof.
  revert W win. induction cs as [|c cs IH]; intros W win Hw; cbn [run steps].
  - exists []. by rewrite app_nil_r.
  - destruct (perform_step this c W win Hw) as (r & W' & evs & Hp & Hh & Hl & Ha & Ht & _).
    unfold exec. rewrite Hp. cbn [snd].
    destruct (step (throws W) c win) as [win1 a1]. cbn [fst snd] in *.
    destruct (IH W' win1 Hh) as (evs' & Hh' & Hl' & Ha' & Ht'). rewrite Ht in *.
    destruct (steps (throws W) cs win1) as [win2 a2]. cbn [fst snd] in *.
    exists (evs ++ evs'). rewrite Hl', Hl, applied_app, Ha, Ha', app_assoc. done.
Qed.

Lemma allocated_lt this cs W win :
  heap W !! this = Some win ->
  (_nextSessionId win + Z.of_nat (length cs) <= MAX_EXACT)%Z ->
  Forall (fun s => (s < _nextSessionId (steps (throws W) cs win).1)%Z) (allocated this cs W).
Proof.
  revert W win. induction cs as [|c cs IH]; intros W win Hw Hn; cbn [allocated steps].
  - constructor.
  - cbn [length] in Hn. rewrite Hw.
    destruct (perform_step this c W win Hw) as (r & W' & evs & Hp & Hh & Hl & Ha & Ht & _).
    unfold exec. rewrite Hp. cbn [fst snd].
    pose proof (step_next (throws W) c win) as Hs.
    pose proof (step_well_formed (throws W) c win) as Hwf.
    destruct (step (throws W) c win) as [win1 a1]. cbn [fst snd] in *.
    specialize (IH W' win1 Hh ltac:(lia)). rewrite Ht in IH.
    pose proof (steps_next_mono (throws W) cs win1) as Hm.
    destruct (steps (throws W) cs win1) as [win2 a2]. cbn [fst snd] in *.
    apply Forall_app. split; [|done].
    destruct (well_formed c); [|constructor].
    apply Forall_singleton. rewrite incr_below in Hwf by lia.
    specialize (Hwf eq_refl). lia.
Qed.

(** The ids a sequence of calls returned are among those it took. *)
Lemma returned_allocated this cs W win :
  heap W !! this = Some win -> returned this cs W ⊆ allocated this cs W.
Proof.
  revert W win. induction cs as [|c cs IH]; intros W win Hw; cbn [returned allocated]; [done|].
  destruct (perform_step this c W win Hw) as (r & W' & evs & Hp & Hh & _ & _ & _ & Hr).
  unfold exec, outcome. rewrite Hp, Hw. cbn [fst snd].
  specialize (IH W' _ Hh).
  assert (Hhead : match r with Return (Some s) => [s] | _ => [] end
                  ⊆ (if well_formed c then [_nextSessionId win] else [])).
  { destruct r as [[s|]|]; try apply list_subseteq_nil.
    destruct (Hr s eq_refl) as [-> _].
    destruct c as [channel args|s'|s' args|]; cbn [perform] in Hp.
    - unfold EditorWindow.sendRequestToPage in Hp. cbn [well_formed].
      case_bool_decide; cbn [negb andb] in *; [|by run_js].
      destruct (last args) as [[| | | | | |reply| |]|]; by run_js.
    - unfold bind in Hp. by destruct (EditorWindow.cancelRequestToPage _ _ _) as [[]].
    - unfold bind in Hp. by destruct (EditorWindow._reply _ _ _ _) as [[]].
    - unfold bind in Hp. by destruct (NativeEvents.on_closed _ _) as [[]]. }
  intros x Hx. apply elem_of_app in Hx as [Hx|Hx]; apply elem_of_app; [left|right]; auto.
Qed.

Lemma new_window name options W0 :
  exists win evs W1,
    EditorWindow.new name options W0 = (Return (length (heap W0)), W1)
    /\ heap W1 !! length (heap W0) = Some win
    /\ _nextSessionId win = 0%Z
    /\ _replyCallbacks win = []
    /\ is_Some (nativeWin win)
    /\ log W1 = log W0 ++ evs
    /\ throws W1 = throws W0.
Proof.
  unfold EditorWindow.new.
  destruct (EditorWindow.switch_windowType _ _) as [o hide].
  unfold EditorWindow.addWindow. run_js.
  destruct hide; run_js.
  - eexists _, [_; _], _. split; [reflexivity|]. wsimpl.
    rewrite list_lookup_middle by done. rewrite <- app_assoc. repeat split; eauto.
  - eexists _, [_], _. split; [reflexivity|]. wsimpl.
    rewrite list_lookup_middle by done. repeat split; eauto.
Qed.


Lemma since_app W W' evs : log W' = log W ++ evs -> since W W' = evs.
Proof. intros H. unfold since. by rewrite H, drop_app_length. Qed.


Lemma callbacks_heap W this win :
  heap W !! this = Some win -> callbacks W this = _replyCallbacks win.
Proof. intros H. unfold callbacks. by rewrite H. Qed.




Lemma sendRequestToPage_rejected this channel args W :
  typeof channel <> "string" \/ args = []
  \/ (exists v, last args = Some v /\ typeof v <> "function") ->
  exists msg,
    EditorWindow.sendRequestToPage this channel args W
      = (Return None, with_log (log W ++ [EditorError msg]) W).
Proof.
  intros Hbad. unfold EditorWindow.sendRequestToPage.
  case_bool_decide as Hch; cbn [negb]; [|by eexists].
  destruct Hbad as [?|[->|(v & Hlast & Hv)]]; [done|by eexists|].
  rewrite Hlast. destruct v; cbn [typeof] in Hv; try done; by eexists.
Qed.

(** C3, amended.  After any sequence of fewer than 2^53 calls since the
    window's construction, [sendRequestToPage] with a string channel and a
    function as last argument takes a session id greater than every id taken
    before and stores the reply callback under it, on every window; it
    returns that id when the window still has its native window, and throws
    when the window is disposed.  A call whose channel is not a string, that
    has no argument after the channel, or whose last argument is not a
    function logs an error, returns [null] and changes nothing else. *)
Theorem sendRequestToPage_allocates_increasing_ids
    (W0 : World) (name : string) (options : Options) (cs : list call)
    (channel : string) (args : list value) (reply : callback) :
  (Z.of_nat (length cs) < MAX_EXACT)%Z ->
  let this := length (heap W0) in
  let W1 := exec (EditorWindow.new name options) W0 in
  let Wn := run this cs W1 in
  (exists sessionId win,
      let call := EditorWindow.sendRequestToPage this (Str channel) (args ++ [Fn reply]) in
      heap Wn !! this = Some win
      /\ Forall (fun s => (s < sessionId)%Z) (allocated this cs W1)
      /\ returned this cs W1 ⊆ allocated this cs W1
      /\ obj_get (callbacks (exec call Wn) this) sessionId = Some reply
      /\ (is_Some (nativeWin win) -> outcome call Wn = Return (Some sessionId))
      /\ (nativeWin win = None -> outcome call Wn = Throw TypeError))
  /\ (forall channel' args',
        typeof channel' <> "string" \/ args' = []
        \/ (exists v, last args' = Some v /\ typeof v <> "function") ->
        let call := EditorWindow.sendRequestToPage this channel' args' in
        outcome call Wn = Return None
        /\ exists msg, exec call Wn = with_log (log Wn ++ [EditorError msg]) Wn).
Proof.
  intros Hlen this W1 Wn.
  destruct (new_window name options W0)
    as (win & evs0 & W1' & Hnew & Hw1 & Hn0 & Hc0 & Hlive & _ & Ht1).
  assert (W1 = W1') as <- by (subst W1; unfold exec; by rewrite Hnew).
  fold this in Hw1.
  destruct (run_steps this cs W1 win Hw1) as (evs & Hh & Hl & Ha & Htn).
  fold Wn in Hh, Hl, Htn.
  set (winn := (steps (throws W1) cs win).1) in *.
  split.
  - exists (_nextSessionId winn), winn. intros call.
    split; [done|]. split; [|split; [|split]].
    + apply (allocated_lt this cs W1 win Hw1). lia.
    + by apply (returned_allocated this cs W1 win).
    + destruct (perform_step this (SendRequestToPage (Str channel) (args ++ [Fn reply])) Wn _ Hh)
        as (r & W' & evs' & Hp & Hh' & _).
      cbn [perform] in Hp. subst call. unfold exec. rewrite Hp. cbn [snd].
      rewrite (callbacks_heap _ _ _ Hh'). cbn [step].
      rewrite bool_decide_true, last_snoc by done.
      cbn [fst _replyCallbacks set_replyCallbacks].
      by rewrite obj_get_set, decide_True.
    + assert (Hout : outcome call Wn
                = match nativeWin winn with
                  | Some _ => Return (Some (_nextSessionId winn))
                  | None => Throw TypeError
                  end).
      { subst call. unfold outcome, EditorWindow.sendRequestToPage.
        rewrite bool_decide_true by done. cbn [negb]. rewrite last_snoc.
        unfold bind at 1. unfold deref at 1. rewrite Hh.
        unfold bind at 1. unfold update at 1, modify at 1.
        unfold bind at 1. unfold update at 1, modify at 1.
        unfold bind at 1. unfold EditorWindow.sendToPage, native.
        unfold bind at 1. unfold bind at 1. unfold deref at 1. wsimpl.
        rewrite !list_lookup_alter_eq, Hh.
        cbn [fmap option_fmap option_map nativeWin set_replyCallbacks set_nextSessionId].
        destruct (nativeWin winn) as [bw|]; [|done].
        unfold ret at 1. destruct (bw_webContents bw); [done|].
        unfold bind at 1. unfold deref at 1. wsimpl.
        by rewrite !list_lookup_alter_eq, Hh. }
      rewrite Hout. split.
      * by intros [bw ->].
      * by intros ->.
  - intros channel' args' Hbad call.
    destruct (sendRequestToPage_rejected this channel' args' Wn Hbad) as [msg Hrej].
    subst call. unfold outcome, exec. rewrite Hrej. split; [done|by exists msg].
Qed.

(** After three requests the fourth gets the id 3. *)
Lemma sendRequestToPage_allocates_increasing_ids_witness :
  let W1 := exec (EditorWindow.new "main" no_options) empty_world in
  let Wn := run 0 sample_requests W1 in
  allocated 0 sample_requests W1 = [0; 1; 2]%Z
  /\ outcome (EditorWindow.sendRequestToPage 0 (Str "scene:query") ([] ++ [Fn 10])) Wn
     = Return (Some 3%Z)
  /\ exists sessionId,
       Forall (fun s => (s < sessionId)%Z) (allocated 0 sample_requests W1)
       /\ obj_get (callbacks
                     (exec (EditorWindow.sendRequestToPage 0 (Str "scene:query")
                                                           ([] ++ [Fn 10])) Wn) 0)
                  sessionId = Some 10.
Proof.
  split; [reflexivity|]. split; [reflexivity|].
  destruct (sendRequestToPage_allocates_increasing_ids empty_world "main" no_options
              sample_requests "scene:query" [] 10) as [(sessionId & win & _ & H1 & _ & H2 & _) _].
  - reflexivity.
  - exists sessionId. by split.
Defined.

(** C3, counterexample.  Once the window is closed and disposed, a call
    that passes the checks stores the reply callback under the id 0 and
    throws: it returns no id. *)
Lemma sendRequestToPage_on_disposed_window_returns_no_id :
  (let Wn := run 0 [Closed] (exec (EditorWindow.new "main" no_options) empty_world) in
   let call := EditorWindow.sendRequestToPage 0 (Str "scene:query") ([] ++ [Fn 7]) in
   outcome call Wn = Throw TypeError
   /\ callbacks (exec call Wn) 0 = [(0%Z, 7)])
  /\ ~ takes_and_returns_id 0 [Closed]
         (exec (EditorWindow.new "main" no_options) empty_world) "scene:query" [] 7.
Proof.
  split; [split; reflexivity|].
  intros (sessionId & _ & _ & Hout). vm_compute in Hout. discriminate.
Qed.

(** C8.  After any sequence of fewer than 2^53 calls since the window's
    construction, [cancelRequestToPage] of a stored session removes it and
    invokes nothing; afterwards a reply for that session changes nothing, and
    no later sequence of calls ever invokes a callback for it.  Cancelling a
    session that is not stored leaves the world as it was. *)
Theorem cancelRequestToPage_removes_without_invoking
    (W0 : World) (name : string) (options : Options) (cs : list call) (s : Z) :
  (Z.of_nat (length cs) < MAX_EXACT)%Z ->
  let this := length (heap W0) in
  let W1 := exec (EditorWindow.new name options) W0 in
  let Wn := run this cs W1 in
  let Wc := exec (EditorWindow.cancelRequestToPage this s) Wn in
  (is_Some (obj_get (callbacks Wn this) s) ->
     log Wc = log Wn
     /\ obj_get (callbacks Wc this) s = None
     /\ (forall args, exec (EditorWindow._reply this s args) Wc = Wc)
     /\ (forall cs', s ∉ (applied this (since Wc (run this cs' Wc))).*1))
  /\ (obj_get (callbacks Wn this) s = None -> Wc = Wn).
Proof.
  intros Hlen this W1 Wn Wc.
  destruct (new_window name options W0) as (win & evs0 & W1' & Hnew & Hw1 & Hn0 & Hc0 & _ & _).
  assert (W1 = W1') as <- by (subst W1; unfold exec; by rewrite Hnew).
  fold this in Hw1.
  destruct (run_steps this cs W1 win Hw1) as (evs & Hh & Hl & Ha & _). fold Wn in Hh, Hl.
  assert (Hk : Forall (fun k => (k < _nextSessionId (steps (throws W1) cs win).1)%Z)
                 (obj_keys (_replyCallbacks (steps (throws W1) cs win).1))).
  { apply steps_keys_lt; [lia|]. rewrite Hc0. constructor. }
  set (winn := (steps (throws W1) cs win).1) in *.
  assert (Hhc : heap Wc !! this
            = Some (set_replyCallbacks (obj_delete (_replyCallbacks winn) s) winn)).
  { subst Wc. unfold exec, EditorWindow.cancelRequestToPage. run_js.
    by rewrite list_lookup_alter_eq, Hh. }
  rewrite (callbacks_heap _ _ _ Hh), (callbacks_heap _ _ _ Hhc).
  cbn [_replyCallbacks set_replyCallbacks]. split.
  - intros [cb Hget]. split; [done|]. split; [|split].
    + by rewrite obj_get_delete, decide_True.
    + intros args. unfold exec, EditorWindow._reply. run_js. rewrite Hhc.
      cbn [_replyCallbacks set_replyCallbacks].
      by rewrite obj_get_delete, decide_True.
    + intros cs'.
      destruct (run_steps this cs' Wc _ Hhc) as (evs' & _ & Hl' & Ha' & _).
      rewrite (since_app _ _ _ Hl'), Ha'. apply steps_never.
      * cbn [_nextSessionId set_replyCallbacks].
        rewrite Forall_forall in Hk.
        apply Hk. by eapply obj_get_Some_key.
      * cbn [_replyCallbacks set_replyCallbacks]. rewrite obj_keys_delete.
        intros Hin. by apply list_elem_of_filter in Hin as [? _].
  - intros Hnone. subst Wc. unfold exec, EditorWindow.cancelRequestToPage. run_js.
    rewrite obj_get_None_key in Hnone.
    replace (alter _ this (heap Wn)) with (heap Wn); [by destruct Wn|].
    symmetry. apply list_eq. intros i. destruct (decide (i = this)) as [->|Hne].
    + rewrite list_lookup_alter_eq, Hh. cbn [fmap option_fmap option_map].
      rewrite obj_delete_absent by done. by destruct winn.
    + by rewrite list_lookup_alter_ne.
Qed.

(** Cancelling the pending session 2 of the sample life. *)
Lemma cancelRequestToPage_removes_without_invoking_witness :
  let W1 := exec (EditorWindow.new "main" no_options) empty_world in
  let Wn := run 0 sample_requests W1 in
  let Wc := exec (EditorWindow.cancelRequestToPage 0 2) Wn in
  callbacks Wn 0 = [(1%Z, 8); (2%Z, 9)]
  /\ callbacks Wc 0 = [(1%Z, 8)]
  /\ log Wc = log Wn
  /\ exec (EditorWindow._reply 0 2 [Str "late"]) Wc = Wc.
Proof.
  split; [reflexivity|]. split; [reflexivity|].
  destruct (cancelRequestToPage_removes_without_invoking empty_world "main" no_options
              sample_requests 2) as [Hpending _].
  - reflexivity.
  - destruct Hpending as (Hlog & _ & Hreply & _); [by eexists|].
    split; [exact Hlog | apply Hreply].
Defined.

(** ** Panels and windows *)

(** C10.  When the package registry has no panel info for [panelID], [open]
    logs an error and does nothing else: no window is created and the dock
    table and the cached [argv] table are as they were. *)
Theorem open_without_panelInfo_changes_nothing
    (panelInfo : string -> option PanelInfo) (W : World)
    (panelID : string) (argv : value) :
  panelInfo panelID = None ->
  let W' := exec (EditorPanel.open panelInfo panelID argv) W in
  outcome (EditorPanel.open panelInfo panelID argv) W = Return tt
  /\ since W W' = [EditorError [Str "Failed to open panel "; Str panelID;
                                Str ", panel info not found."]]
  /\ heap W' = heap W
  /\ _windows W' = _windows W
  /\ _panel2windows W' = _panel2windows W
  /\ _panel2argv W' = _panel2argv W.
Proof.
  intros Hnone W'. subst W'. unfold exec, outcome, EditorPanel.open, since.
  rewrite Hnone. run_js. by rewrite drop_app_length.
Qed.

(** The failed call leaves the [argv] cached for [foo.bar] as it was. *)
Lemma open_without_panelInfo_changes_nothing_witness :
  no_packages "foo.bar" = None
  /\ _panel2argv (exec (EditorPanel.open no_packages "foo.bar" (Str "again")) foo_bar_open)
     = [("foo.bar", Undefined)].
Proof.
  split; [reflexivity|].
  by rewrite (proj2 (proj2 (proj2 (proj2 (proj2
       (open_without_panelInfo_changes_nothing no_packages foo_bar_open
          "foo.bar" (Str "again") eq_refl)))))).
Defined.

Lemma open_docked (panelInfo : string -> option PanelInfo) W panelID argv w :
  is_Some (panelInfo panelID) -> docked W panelID w -> live W w ->
  EditorPanel.open panelInfo panelID argv W =
    (Return tt,
     with_log (log W ++ [SendToPanel panelID "panel:run" argv; NativeShow w; NativeFocus w])
              (with_panel2argv (obj_set (_panel2argv W) panelID argv) W)).
Proof.
  intros [info Hi] Hd (win & bw & Hw & Hn & Hc).
  unfold EditorPanel.open. rewrite Hi.
  unfold EditorPanel.findWindow, EditorWindow.show, EditorWindow.focus. run_js.
  unfold docked in Hd. do 3 (wsimpl; rewrite ?Hd, ?Hw, ?Hn).
  wsimpl. by rewrite <- !app_assoc.
Qed.

(** C5, amended.  When the package registry knows the panel and the panel is
    docked in a live window [w], [open] delivers [panel:run] with the new
    [argv], shows and focuses [w], creates no window, and the panel is still
    docked in [w]. *)
Theorem open_docked_panel_redelivers_run
    (panelInfo : string -> option PanelInfo) (W : World)
    (panelID : string) (argv : value) (w : winref) :
  is_Some (panelInfo panelID) -> docked W panelID w -> live W w ->
  open_redelivers_run panelInfo W panelID argv w.
Proof.
  intros Hi Hd Hl. unfold open_redelivers_run, exec, since.
  rewrite (open_docked _ _ _ _ w Hi Hd Hl). wsimpl.
  by rewrite drop_app_length.
Qed.

(** Opening [foo.bar] again while it is docked in window 0. *)
Lemma open_docked_panel_redelivers_run_witness :
  open_redelivers_run foo_bar_only foo_bar_open "foo.bar" (Str "again") 0.
Proof.
  apply open_docked_panel_redelivers_run.
  - by eexists.
  - reflexivity.
  - eexists _, _. repeat split; reflexivity.
Defined.

(** C5, counterexample.  [foo.bar] is docked in the live window 0, the
    package registry no longer knows it, and [open] delivers no [panel:run]:
    it only logs an error. *)
Lemma open_docked_panel_without_panelInfo :
  docked foo_bar_open "foo.bar" 0
  /\ live foo_bar_open 0
  /\ ~ open_redelivers_run no_packages foo_bar_open "foo.bar" (Str "again") 0.
Proof.
  split; [reflexivity|]. split.
  - eexists _, _. repeat split; reflexivity.
  - intros [Hlog _]. vm_compute in Hlog. discriminate.
Qed.

Lemma docked_get W panelID w :
  docked W panelID w <-> obj_get (_panel2windows W) panelID = Some (Some w).
Proof.
  unfold docked. destruct (obj_get (_panel2windows W) panelID) as [[w'|]|]; simpl;
    split; congruence.
Qed.

Lemma found_other (t : list (string * option winref)) panelID w :
  existsb (fun id => bool_decide (obj_get (obj_delete t panelID) id = Some (Some w)))
          (obj_keys (obj_delete t panelID)) = true
  <-> exists other, other <> panelID /\ obj_get t other = Some (Some w).
Proof.
  rewrite existsb_exists. split.
  - intros (id & _ & Hid). apply bool_decide_eq_true in Hid.
    rewrite obj_get_delete in Hid. case_decide; [done|]. exists id. split; congruence.
  - intros (other & Hne & Hget). exists other.
    assert (Hget' : obj_get (obj_delete t panelID) other = Some (Some w))
      by (rewrite obj_get_delete, decide_False; congruence).
    split; [|by apply bool_decide_eq_true].
    apply list_elem_of_In. by eapply obj_get_Some_key.
Qed.

Lemma last_panel_found W panelID w :
  last_panel W panelID w <->
  existsb (fun id => bool_decide (obj_get (obj_delete (_panel2windows W) panelID) id
                                    = Some (Some w)))
          (obj_keys (obj_delete (_panel2windows W) panelID)) = false.
Proof.
  rewrite <- not_true_iff_false, found_other. unfold last_panel. split.
  - intros Hlast (other & Hne & Hget). apply (Hlast other Hne). by apply docked_get.
  - intros Hno other Hne Hd. apply Hno. exists other. split; [done|]. by apply docked_get.
Qed.

(** What [close] does to a panel docked in a live window. *)
Lemma close_docked W panelID w :
  docked W panelID w -> live W w ->
  let main := bool_decide (mainWindow W = Some w) in
  let t' := obj_delete (_panel2windows W) panelID in
  let found := existsb (fun id => bool_decide (obj_get t' id = Some (Some w))) (obj_keys t') in
  let saving := if main then [] else [ProfileSave ("layout." +:+ panelID) (geometry W w)] in
  let closing := if negb found && negb main then [NativeClose w] else [] in
  let W' := exec (EditorPanel.close (ArgStr panelID)) W in
  log W' = log W ++ [WebContentsSend w [Str "panel:undock"; Str panelID]] ++ saving ++ closing
  /\ _panel2windows W' = t'
  /\ profiles W' = (if main then profiles W
                    else obj_set (profiles W) ("layout." +:+ panelID) (geometry W w)).
Proof.
  intros Hd (win & bw & Hw & Hn & Hc). cbn zeta.
  apply docked_get in Hd.
  unfold exec, EditorPanel.close, EditorPanel._undock.
  unfold EditorWindow.sendToPage, EditorPanel._saveLayout, EditorWindow.isMainWindow,
    EditorPanel.loadProfile, EditorWindow.close.
  run_js. cbn [to_key to_value]. rewrite Hd. wsimpl. rewrite Hw, Hn. wsimpl. rewrite Hc. wsimpl.
  destruct (decide (mainWindow W = Some w)) as [Hm|Hm];
    rewrite ?(bool_decide_true _ Hm), ?(bool_decide_false _ Hm); wsimpl.
  - rewrite ?(bool_decide_true _ Hm), andb_false_r. wsimpl. by rewrite app_nil_r.
  - rewrite Hw, Hn. wsimpl. rewrite ?(bool_decide_false _ Hm), andb_true_r.
    destruct (existsb _ _); cbn [negb]; wsimpl.
    + by rewrite app_nil_r, <- app_assoc.
    + rewrite list_lookup_alter_eq, Hw. cbn. rewrite Hn. wsimpl.
      by rewrite <- !app_assoc.
Qed.

(** C6, amended.  Closing a panel docked in a live window sends
    [panel:undock] to the window and removes the panel from the dock table;
    the window's geometry is saved in the panel's layout profile unless the
    window is the main window; and the window is then closed exactly when it
    hosts no other panel and is not the main window. *)
Theorem close_undocks_then_closes_last_window
    (W : World) (panelID : string) (w : winref) :
  docked W panelID w -> live W w ->
  close_undocks_saves_unless_main W panelID w.
Proof.
  intros Hd Hl. destruct (close_docked W panelID w Hd Hl) as (Hlog & Ht & Hp).
  unfold close_undocks_saves_unless_main. cbn zeta.
  eexists _, _. rewrite (since_app _ _ _ Hlog). split; [reflexivity|].
  rewrite Hp, Ht. pose proof (last_panel_found W panelID w) as Hlast.
  repeat split.
  - by rewrite bool_decide_false.
  - rewrite bool_decide_false by done. by rewrite obj_get_set, decide_True.
  - by rewrite bool_decide_true.
  - by rewrite bool_decide_true.
  - intros [Hlp Hm]. apply Hlast in Hlp. rewrite Hlp, bool_decide_false by done. done.
  - intros Hnot. case_bool_decide as Hm; [by rewrite andb_false_r|].
    rewrite andb_true_r.
    destruct (existsb _ _) eqn:Hf; [done|]. destruct Hnot. split; [|done]. by apply Hlast.
Qed.

(** Closing [foo.bar], the only panel of window 0, which is not the main
    window. *)
Lemma close_undocks_then_closes_last_window_witness :
  close_undocks_saves_unless_main foo_bar_open "foo.bar" 0.
Proof.
  apply close_undocks_then_closes_last_window.
  - reflexivity.
  - eexists _, _. repeat split; reflexivity.
Defined.

(** C6, counterexample.  [foo.bar] is docked in the main window: [close]
    undocks it and saves no layout profile. *)
Lemma close_panel_of_main_window_saves_nothing :
  docked foo_bar_in_main "foo.bar" 0
  /\ live foo_bar_in_main 0
  /\ ~ close_undocks_saves_closes foo_bar_in_main "foo.bar" 0.
Proof.
  split; [reflexivity|]. split.
  - eexists _, _. repeat split; reflexivity.
  - intros (closing & Hlog & _). vm_compute in Hlog. discriminate.
Qed.

Lemma findPanels_pairs packageName (ids : list string) (acc : list (list string)) :
  Forall (fun pair => length pair = 2%nat) acc ->
  Forall (fun pair => length pair = 2%nat)
         (foldl (EditorPanel.findPanels_step packageName) acc ids).
Proof.
  revert acc. induction ids as [|p ids IH]; intros acc Hacc; cbn [foldl]; [done|].
  apply IH. unfold EditorPanel.findPanels_step.
  case_decide as Hlen; [done|]. case_decide; [|done].
  apply Forall_app. split; [done|]. apply Forall_singleton.
  destruct (decide (length (split "." p) = 2%nat)); [done|by destruct Hlen].
Qed.

Lemma close_pair_ignored W (a b : string) :
  obj_get (_panel2windows W) (a +:+ "," +:+ b) = None ->
  EditorPanel.close (ArgArr [a; b]) W = (Return tt, W).
Proof.
  intros Hnone. unfold EditorPanel.close, EditorPanel._undock. run_js.
  cbn [to_key]. change (join "," [a; b]) with (a +:+ "," +:+ b).
  by rewrite Hnone.
Qed.

Lemma includes_joined c (a b : string) :
  includes c (a +:+ String c b) = true.
Proof.
  induction a as [|c' a IH].
  - change (EmptyString +:+ String c b) with (String c b). cbn [includes].
    by rewrite Ascii.eqb_refl.
  - change (String c' a +:+ String c b) with (String c' (a +:+ String c b)).
    cbn [includes]. rewrite IH. apply orb_true_r.
Qed.

(** C4, what the code does.  [findPanels] returns the two pieces of each
    identifier rather than the identifier, and [close] looks a panel up
    under the pieces joined by a comma: when no docked identifier has a
    comma in it, [closeAll] closes nothing and leaves the world as it was. *)
Theorem closeAll_closes_nothing (W : World) (packageName : string) :
  Forall (fun id => includes "," id = false) (obj_keys (_panel2windows W)) ->
  EditorPanel.closeAll packageName W = (Return tt, W).
Proof.
  intros Hkeys. unfold EditorPanel.closeAll, EditorPanel.findPanels.
  unfold bind at 1. unfold bind at 1, read at 1, ret at 1.
  pose proof (findPanels_pairs packageName (obj_keys (_panel2windows W)) []
                (Forall_nil_2 _)) as Hpairs.
  induction Hpairs as [|pair pairs Hlen _ IH]; cbn [for_each]; [done|].
  destruct pair as [|a [|b [|c pair]]]; try done.
  unfold bind. rewrite close_pair_ignored; [done|].
  apply obj_get_None_key. intros Hin. rewrite Forall_forall in Hkeys.
  apply Hkeys in Hin. change (a +:+ "," +:+ b) with (a +:+ String "," b) in Hin.
  by rewrite includes_joined in Hin.
Qed.

(** [closeAll] for the package of the docked panel [foo.bar] leaves it
    docked. *)
Lemma closeAll_closes_nothing_witness :
  docked foo_bar_open "foo.bar" 0
  /\ outcome (EditorPanel.findPanels "foo") foo_bar_open = Return [["foo"; "bar"]]
  /\ docked (exec (EditorPanel.closeAll "foo") foo_bar_open) "foo.bar" 0.
Proof.
  split; [reflexivity|]. split; [reflexivity|].
  unfold exec. rewrite closeAll_closes_nothing; [reflexivity|].
  repeat constructor.
Defined.

Lemma filter_all {A} (P : A -> Prop) `{forall x, Decision (P x)} (l : list A) :
  Forall P l -> filter P l = l.
Proof.
  induction 1 as [|x l Hx _ IH]; [done|].
  by rewrite filter_cons, decide_True, IH.
Qed.

Lemma findWindows_step_window_of t packageName wins p :
  EditorPanel.findWindows_step t packageName wins p
  = match window_of t packageName p with
    | Some editorWin => if bool_decide (editorWin ∈ wins) then wins else wins ++ [editorWin]
    | None => wins
    end.
Proof.
  unfold EditorPanel.findWindows_step, window_of.
  destruct (split "." p) as [|a [|b [|c rest]]]; cbn [length];
    try (by rewrite decide_True by lia).
  rewrite decide_False by (intros Hne; by apply Hne).
  cbn [lookup list_lookup default from_option id]. by case_decide.
Qed.

Lemma findWindows_loop t packageName (ids : list string) (acc : list (option winref)) :
  foldl (EditorPanel.findWindows_step t packageName) acc ids
  = acc ++ filter (fun editorWin => editorWin ∉ acc)
                  (nub (omap (window_of t packageName) ids)).
Proof.
  revert acc. induction ids as [|p ids IH]; intros acc; cbn [foldl omap list_omap].
  - by rewrite app_nil_r.
  - rewrite IH, findWindows_step_window_of.
    destruct (window_of t packageName p) as [editorWin|]; [|done].
    cbn [nub]. case_bool_decide as Hin.
    + rewrite filter_cons_False by (by intros Hni). rewrite list_filter_filter.
      f_equal. apply list_filter_iff. intros x. split; [|by intros [? _]].
      intros Hx. split; [done|]. by intros ->.
    + rewrite filter_cons_True by done. rewrite list_filter_filter, <- app_assoc.
      cbn [app]. do 2 f_equal. apply list_filter_iff. intros x.
      rewrite not_elem_of_app, list_elem_of_singleton. done.
Qed.

(** What [findWindows] computes: the windows of the docked identifiers that
    split in two pieces at the dot with [packageName] as the second piece,
    each window once, in the order in which the dock table first has them;
    the world is not touched. *)
Lemma findWindows_second_piece W packageName :
  exists wins,
    EditorPanel.findWindows packageName W = (Return wins, W)
    /\ wins = nub (omap (window_of (_panel2windows W) packageName)
                        (obj_keys (_panel2windows W)))
    /\ NoDup wins
    /\ forall editorWin,
         editorWin ∈ wins <->
         exists p a,
           p ∈ obj_keys (_panel2windows W)
           /\ split "." p = [a; packageName]
           /\ mjoin (obj_get (_panel2windows W) p) = editorWin.
Proof.
  unfold EditorPanel.findWindows, bind, read, ret.
  eexists. split; [reflexivity|].
  split.
  { rewrite findWindows_loop. cbn [app]. apply filter_all.
    apply Forall_forall. intros x _. apply not_elem_of_nil. }
  set (t := _panel2windows W).
  assert (Hloop : forall ids acc,
    NoDup acc ->
    NoDup (foldl (EditorPanel.findWindows_step t packageName) acc ids)
    /\ forall editorWin,
         editorWin ∈ foldl (EditorPanel.findWindows_step t packageName) acc ids <->
         editorWin ∈ acc
         \/ exists p a, p ∈ ids /\ split "." p = [a; packageName]
                        /\ mjoin (obj_get t p) = editorWin).
  { induction ids as [|p ids IH]; intros acc Hacc; cbn [foldl].
    - split; [done|]. intros editorWin. split; [by left|].
      intros [?|(p & a & Hp & _)]; [done|]. by apply elem_of_nil in Hp.
    - assert (Hstep : NoDup (EditorPanel.findWindows_step t packageName acc p)
        /\ forall editorWin,
             editorWin ∈ EditorPanel.findWindows_step t packageName acc p <->
             editorWin ∈ acc
             \/ exists a, split "." p = [a; packageName]
                          /\ mjoin (obj_get t p) = editorWin).
      { unfold EditorPanel.findWindows_step.
        destruct (split "." p) as [|a [|b [|c rest]]] eqn:Hsplit; cbn [length];
          try (rewrite decide_True by lia; split; [done|]; intros editorWin;
               split; [by left|]; by intros [?|(? & ? & _)]).
        rewrite decide_False by (intros Hne; by apply Hne). cbn [lookup list_lookup default from_option id].
        case_decide as Hname.
        - subst b. case_bool_decide as Hin.
          + split; [done|]. intros editorWin. split; [by left|].
            intros [?|(a' & [= <-] & <-)]; done.
          + split.
            * apply NoDup_app. split; [done|]. split; [|apply NoDup_singleton].
              intros x Hx Hx'. apply list_elem_of_singleton in Hx' as ->. done.
            * intros editorWin. rewrite elem_of_app, list_elem_of_singleton.
              split; [intros [?| ->]; [by left|right; by exists a]|].
              intros [?|(a' & [= <-] & <-)]; [by left|by right].
        - split; [done|]. intros editorWin. split; [by left|].
          intros [?|(a' & [= <- ?] & _)]; done. }
      destruct Hstep as [Hnd Hmem]. destruct (IH _ Hnd) as [Hnd' Hmem'].
      split; [done|]. intros editorWin. rewrite Hmem', Hmem. split.
      + intros [[?|(a & Hs & Hw)]|(p' & a & Hp' & Hs & Hw)].
        * by left.
        * right. exists p, a. split; [left|done].
        * right. exists p', a. split; [by right|done].
      + intros [?|(p' & a & Hp' & Hs & Hw)]; [by left; left|].
        apply elem_of_cons in Hp' as [->|Hp'].
        * left. right. by exists a.
        * right. by exists p', a. }
  destruct (Hloop (obj_keys t) [] NoDup_nil_2) as [Hnd Hmem].
  split; [done|]. intros editorWin. rewrite Hmem. split.
  - intros [Hnil|?]; [by apply elem_of_nil in Hnil|done].
  - by right.
Qed.

(** C7, what the code does.  With [foo.bar] docked in window 0,
    [findWindows] finds nothing for the package [foo] and finds window 0 for
    [bar], the panel's name: it compares the piece after the dot. *)
Theorem findWindows_matches_panel_name :
  docked foo_bar_open "foo.bar" 0
  /\ EditorPanel.findWindows "foo" foo_bar_open = (Return [], foo_bar_open)
  /\ EditorPanel.findWindows "bar" foo_bar_open = (Return [Some 0], foo_bar_open).
Proof. repeat split. Qed.

(** A loop whose rounds keep the heap and the window list keeps them. *)
Lemma for_each_keeps {A} (l : list A) (body : A -> M unit) W :
  (forall x W, heap (exec (body x) W) = heap W
               /\ _windows (exec (body x) W) = _windows W
               /\ exists evs, log (exec (body x) W) = log W ++ evs) ->
  heap (exec (for_each l body) W) = heap W
  /\ _windows (exec (for_each l body) W) = _windows W
  /\ exists evs, log (exec (for_each l body) W) = log W ++ evs.
Proof.
  intros Hbody. revert W. induction l as [|x l IH]; intros W; cbn [for_each].
  - repeat split. exists []. by rewrite app_nil_r.
  - destruct (Hbody x W) as (Hh & Hw & evs & Hl). unfold exec, bind in *.
    destruct (body x W) as [[[]|err] W1]; cbn [snd] in *.
    + destruct (IH W1) as (Hh' & Hw' & evs' & Hl').
      rewrite Hh', Hw', Hl', Hh, Hw, Hl, <- app_assoc. eauto.
    + eauto.
Qed.

Lemma saveLayout_keeps editorWin panelID W :
  heap (exec (EditorPanel._saveLayout editorWin panelID) W) = heap W
  /\ _windows (exec (EditorPanel._saveLayout editorWin panelID) W) = _windows W
  /\ exists evs, log (exec (EditorPanel._saveLayout editorWin panelID) W) = log W ++ evs.
Proof.
  unfold exec, EditorPanel._saveLayout, EditorWindow.isMainWindow, EditorPanel.loadProfile.
  run_js. case_bool_decide; wsimpl.
  - repeat split. exists []. by rewrite app_nil_r.
  - destruct (heap W !! editorWin) as [win|]; wsimpl.
    + destruct (nativeWin win); wsimpl; repeat split; eauto.
      exists []. by rewrite app_nil_r.
    + repeat split. exists []. by rewrite app_nil_r.
Qed.

Lemma onWindowClose_keeps editorWin W :
  heap (exec (EditorPanel._onWindowClose editorWin) W) = heap W
  /\ _windows (exec (EditorPanel._onWindowClose editorWin) W) = _windows W
  /\ exists evs, log (exec (EditorPanel._onWindowClose editorWin) W) = log W ++ evs.
Proof.
  unfold EditorPanel._onWindowClose, exec. unfold bind at 1, read at 1.
  apply for_each_keeps. intros id W1.
  unfold exec, bind, EditorPanel.findWindow, read.
  case_decide.
  - apply saveLayout_keeps.
  - repeat split. exists []. by rewrite app_nil_r.
Qed.

(** The handler of [close] on a quick window that still has its native
    window: the close is prevented, the window hidden, and the instance and
    the window list are as before. *)
Lemma on_close_quick this W win :
  heap W !! this = Some win -> windowType win = "quick" -> is_Some (nativeWin win) ->
  exists r W' rest,
    NativeEvents.on_close this W = (r, W')
    /\ log W' = log W ++ PreventDefault this :: NativeHide this :: rest
    /\ heap W' = heap W
    /\ _windows W' = _windows W.
Proof.
  intros Hw Hq [bw Hn].
  unfold NativeEvents.on_close.
  unfold bind at 1. unfold deref at 1. rewrite Hw.
  rewrite decide_True by done.
  unfold bind at 1. unfold bind at 1. unfold bind at 1. unfold emit at 1.
  unfold bind at 1. unfold native at 1. unfold bind at 1, deref at 1. wsimpl. rewrite Hw, Hn.
  unfold ret at 1. unfold emit at 1.
  set (W1 := with_log _ _).
  assert (H1 : heap W1 = heap W /\ _windows W1 = _windows W
               /\ log W1 = log W ++ [PreventDefault this; NativeHide this]).
  { subst W1. wsimpl. by rewrite <- app_assoc. }
  destruct H1 as (Hh1 & Hw1 & Hl1).
  destruct (onWindowClose_keeps this W1) as (Hh2 & Hw2 & evs & Hl2).
  unfold exec in *. unfold bind at 1.
  destruct (EditorPanel._onWindowClose this W1) as [[[]|err] W2]; cbn [snd] in *.
  - run_js. eexists _, _, _. split; [reflexivity|]. wsimpl.
    rewrite Hl2, Hl1, Hh2, Hw2, <- !app_assoc. cbn [app]. done.
  - eexists _, _, _. split; [reflexivity|].
    rewrite Hl2, Hl1, Hh2, Hw2, <- !app_assoc. cbn [app]. done.
Qed.

(** C9.  The window built by [new EditorWindow(name, options)] hands its
    native window options that are resizable and not always on top for
    [dockable], resizable and always on top for [float], not resizable and
    always on top for [fixed-size], resizable and always on top for [quick];
    and whenever a quick window that still has its native window gets the
    native [close] event, it prevents the close and hides, and stays in the
    heap and in the window list as it was. *)
Theorem windowType_decides_native_options
    (W0 : World) (name : string) (options : Options) (wt : string) :
  opt_windowType options = Some wt ->
  let this := length (heap W0) in
  let W1 := exec (EditorWindow.new name options) W0 in
  exists win bw,
    heap W1 !! this = Some win
    /\ windowType win = wt
    /\ nativeWin win = Some bw
    /\ NewBrowserWindow this (bw_options bw) ∈ since W0 W1
    /\ this ∈ _windows W1
    /\ (wt = "dockable" ->
          opt_resizable (bw_options bw) = Some true
          /\ opt_alwaysOnTop (bw_options bw) = Some false)
    /\ (wt = "float" ->
          opt_resizable (bw_options bw) = Some true
          /\ opt_alwaysOnTop (bw_options bw) = Some true)
    /\ (wt = "fixed-size" ->
          opt_resizable (bw_options bw) = Some false
          /\ opt_alwaysOnTop (bw_options bw) = Some true)
    /\ (wt = "quick" ->
          opt_resizable (bw_options bw) = Some true
          /\ opt_alwaysOnTop (bw_options bw) = Some true
          /\ forall W win',
               heap W !! this = Some win' ->
               windowType win' = windowType win ->
               is_Some (nativeWin win') ->
               let W' := exec (NativeEvents.on_close this) W in
               (exists rest, since W W' = PreventDefault this :: NativeHide this :: rest)
               /\ heap W' = heap W
               /\ _windows W' = _windows W).
Proof.
  intros Hwt this W1.
  assert (Hclose : forall W win',
      heap W !! this = Some win' ->
      windowType win' = "quick" ->
      is_Some (nativeWin win') ->
      let W' := exec (NativeEvents.on_close this) W in
      (exists rest, since W W' = PreventDefault this :: NativeHide this :: rest)
      /\ heap W' = heap W
      /\ _windows W' = _windows W).
  { intros W win' Hw Hq' Hn.
    destruct (on_close_quick _ _ win' Hw Hq' Hn) as (r & W' & rest & Hrun & Hl & Hh & Hws).
    unfold exec. rewrite Hrun. cbn [snd]. unfold since. rewrite Hl, drop_app_length. eauto. }
  subst W1. unfold exec, EditorWindow.new.
  unfold EditorWindow.defaults. cbn [opt_windowType]. rewrite Hwt.
  unfold default. cbn [from_option id].
  unfold EditorWindow.switch_windowType, EditorWindow.addWindow.
  repeat case_decide; subst; try done; run_js;
    (eexists _, _; split; [by apply list_lookup_middle|]);
    cbn [windowType nativeWin bw_options opt_resizable opt_alwaysOnTop
         EditorWindow.set_resizable_alwaysOnTop];
    (split; [done|]); (split; [done|]);
    (split; [unfold since; wsimpl; rewrite <- ?app_assoc, drop_app_length;
             apply list_elem_of_here|]);
    (split; [apply elem_of_app; right; apply list_elem_of_here|]);
    (split; [by intros ?|]); (split; [by intros ?|]); (split; [by intros ?|]);
    intros ?; try done; (split; [done|]); (split; [done|]); by apply Hclose.
Qed.

(** A quick window built on the empty world. *)
Lemma windowType_decides_native_options_witness :
  exists win bw,
    heap (exec (EditorWindow.new "quick-open"
                  (mkOptions (Some "quick") None false None None None None None
                             None None None None None) ) empty_world) !! 0%nat = Some win
    /\ nativeWin win = Some bw
    /\ hideWhenBlur win = true
    /\ opt_resizable (bw_options bw) = Some true
    /\ opt_alwaysOnTop (bw_options bw) = Some true.
Proof.
  destruct (windowType_decides_native_options empty_world "quick-open"
              (mkOptions (Some "quick") None false None None None None None
                         None None None None None) "quick" eq_refl)
    as (win & bw & Hw & _ & Hn & _ & _ & _ & _ & _ & Hq).
  exists win, bw. destruct (Hq eq_refl) as (Hr & Ha & _).
  repeat split; try done.
  cbv in Hw. by injection Hw as <-.
Defined.

(** After the handler of [closed], no panel is docked in the window that
    closed: a docked window has its native window. *)
Lemma onWindowClosed_loop_undocks editorWin (ids : list string) W :
  (forall p, docked W p editorWin -> p ∈ ids) ->
  forall p, ~ docked (exec (for_each ids (fun id =>
    let! win := EditorPanel.findWindow id in
    if decide (win = Some editorWin) then
      modify (fun W => with_panel2windows (obj_delete (_panel2windows W) id) W)
    else ret tt)) W) p editorWin.
Proof.
  revert W. induction ids as [|id ids IH]; intros W Hall p; cbn [for_each].
  - intros Hd. apply Hall in Hd. by apply elem_of_nil in Hd.
  - unfold exec, bind at 1. unfold bind at 1, EditorPanel.findWindow at 1, read at 1.
    case_decide as Hw.
    + unfold modify at 1. apply IH. intros q Hq.
      apply docked_get in Hq. cbn [_panel2windows with_panel2windows] in Hq.
      rewrite obj_get_delete in Hq. case_decide; [done|].
      apply docked_get, Hall in Hq. apply elem_of_cons in Hq as [->|Hq]; done.
    + unfold ret at 1. apply IH. intros q Hq.
      pose proof (Hall q Hq) as Hin. apply elem_of_cons in Hin as [->|Hin]; [|done].
      by destruct Hw.
Qed.

Lemma on_closed_undocks this W win p :
  heap W !! this = Some win ->
  ~ docked (exec (NativeEvents.on_closed this) W) p this.
Proof.
  intros Hw.
  pose proof (onWindowClosed_loop_undocks this (obj_keys (_panel2windows W)) W) as Hloop.
  assert (Hclosed : ~ docked (exec (EditorPanel._onWindowClosed this) W) p this).
  { apply Hloop. intros q Hq. apply docked_get in Hq. by eapply obj_get_Some_key. }
  destruct (onWindowClosed_frame this W) as [t Ht].
  unfold exec in Hclosed. rewrite Ht in Hclosed. cbn [snd] in Hclosed.
  assert (Hw' : heap (with_panel2windows t W) !! this = Some win) by done.
  unfold exec, NativeEvents.on_closed.
  unfold bind at 1. rewrite Ht.
  unfold bind at 1. unfold deref at 1. rewrite Hw'.
  unfold bind at 1. rewrite (closed_loop this win) by done.
  destruct (until_throw _ _).2; [exact Hclosed|].
  unfold bind at 1. unfold update at 1, modify at 1.
  unfold bind at 1. unfold EditorWindow.isMainWindow at 1, read at 1.
  set (W1 := with_heap _ _).
  assert (Hh1 : heap W1 !! this = Some (set_replyCallbacks [] win)).
  { subst W1. wsimpl. by rewrite list_lookup_alter_eq, Hw. }
  destruct (removeWindow_frame this W1 _ Hh1) as (ws & evs & Hex & _).
  case_bool_decide.
  - unfold bind at 1. unfold bind at 1. rewrite Hex.
    unfold EditorWindow.dispose. run_js. exact Hclosed.
  - unfold bind at 1. rewrite Hex.
    unfold EditorWindow.dispose. run_js. exact Hclosed.
Qed.

(** ** Package loading *)

Import Package.

Section load_facts.
Variable descriptors : gmap string Manifest.
#[local] Abbreviation load := (Package.load descriptors).
#[local] Abbreviation calls := (Package.calls descriptors).
#[local] Abbreviation depends := (Package.depends descriptors).
#[local] Abbreviation waits_for := (Package.waits_for descriptors).
#[local] Abbreviation load_spec := (Package.load_spec descriptors).

Lemma load_loaded fuel name reg :
  name ∈ loaded reg -> load (S fuel) name reg = Some (None, reg).
Proof. intros Hin. cbn [Package.load]. by rewrite decide_True. Qed.

Lemma load_each_skip load1 (names rest : list string) reg :
  (forall d, d ∈ names -> load1 d reg = Some (None, reg)) ->
  load_each load1 (names ++ rest) reg = load_each load1 rest reg.
Proof.
  induction names as [|d names IH]; intros Hskip; [done|].
  cbn [app load_each]. rewrite Hskip by left. apply IH. intros d' Hd'. apply Hskip. by right.
Qed.

Lemma load_each_app load1 (names rest : list string) reg reg' :
  load_each load1 (names ++ rest) reg = Some (None, reg') ->
  exists mid,
    load_each load1 names reg = Some (None, mid)
    /\ load_each load1 rest mid = Some (None, reg').
Proof.
  revert reg. induction names as [|d names IH]; intros reg Hrun.
  - by exists reg.
  - cbn [app load_each] in *.
    destruct (load1 d reg) as [[[e|] reg1]|]; try done. by apply IH.
Qed.

(** A package whose load is waiting for itself never finishes loading. *)
Lemma load_cycle fuel name reg reg' :
  tc (calls reg) name name -> load fuel name reg <> Some (None, reg').
Proof.
  revert name reg'. induction fuel as [|fuel IH]; intros name reg' Hcyc; [done|].
  assert (exists next, calls reg name next /\ tc (calls reg) next next)
    as (next & (Hfresh & manifest & i & Hm & Hi & Hearlier) & Hnext).
  { inversion Hcyc as [? ? Hstep|? next ? Hstep Hrest]; subst.
    - exists name. split; [done|by apply tc_once].
    - exists next. split; [done|].
      eapply tc_rtc_l; [by apply tc_rtc|by apply tc_once]. }
  cbn [Package.load]. rewrite decide_False, Hm by done.
  destruct (hosts_present manifest); cbn [negb]; [|done].
  rewrite <- (take_drop_middle _ _ _ Hi).
  destruct fuel as [|fuel'].
  { destruct (take i (dependencies manifest)); cbn; done. }
  rewrite load_each_skip.
  - cbn [load_each].
    destruct (Package.load descriptors (S fuel') next reg) as [[[e|] reg1]|] eqn:Hload;
      try done.
    by apply IH in Hload.
  - intros d Hd. apply load_loaded.
    apply list_elem_of_lookup in Hd as [k Hk].
    pose proof (lookup_lt_Some _ _ _ Hk) as Hlt. rewrite length_take in Hlt.
    rewrite lookup_take_lt in Hk by lia. apply (Hearlier k); [lia|done].
Qed.

Lemma calls_mono reg reg' p d :
  loaded reg ⊆ loaded reg' -> p ∉ loaded reg' -> calls reg p d -> calls reg' p d.
Proof.
  intros Hsub Hfresh (_ & manifest & i & Hm & Hi & Hearlier).
  split; [done|]. exists manifest, i. repeat split; try done.
  intros k dk Hk Hdk. apply Hsub. by eapply Hearlier.
Qed.

Lemma waiting_mono reg reg' name y :
  loaded reg ⊆ loaded reg' ->
  (forall z, tc (calls reg) z name -> z ∉ loaded reg') ->
  tc (calls reg) y name -> tc (calls reg') y name.
Proof.
  intros Hsub Hfresh Hwait.
  induction Hwait as [y name Hstep|y z name Hstep Hrest IH].
  - apply tc_once. eapply calls_mono; [done| |done]. apply Hfresh. by apply tc_once.
  - eapply tc_l.
    + eapply calls_mono; [done| |done]. apply Hfresh. by eapply tc_l.
    + apply IH. done.
Qed.

Lemma calls_fresh reg y name : tc (calls reg) y name -> y ∉ loaded reg.
Proof. intros Hwait. inversion Hwait as [? ? [? _]|? ? ? [? _] _]; by subst. Qed.

End load_facts.
Section load_fuel.
Variable descriptors : gmap string Manifest.

Lemma load_each_more (load1 load2 : string -> Registry -> option (option error * Registry))
    (names : list string) reg r :
  (forall d reg r, load1 d reg = Some r -> load2 d reg = Some r) ->
  load_each load1 names reg = Some r -> load_each load2 names reg = Some r.
Proof.
  intros Hmore. revert reg. induction names as [|d names IH]; intros reg Hrun; [done|].
  cbn [load_each] in *.
  destruct (load1 d reg) as [[[e|] reg1]|] eqn:Hd; try done;
    rewrite (Hmore _ _ _ Hd); auto.
Qed.

(** A load that finishes finishes the same way with more fuel. *)
Lemma load_more_fuel fuel name reg r :
  Package.load descriptors fuel name reg = Some r ->
  Package.load descriptors (S fuel) name reg = Some r.
Proof.
  revert name reg r. induction fuel as [|fuel IH]; intros name reg r Hload; [done|].
  cbn [Package.load] in *. case_decide; [done|].
  destruct (descriptors !! name) as [manifest|]; [|done].
  destruct (negb (hosts_present manifest)); [done|].
  destruct (load_each (Package.load descriptors fuel) (dependencies manifest) reg)
    as [r1|] eqn:Hdeps.
  - by rewrite (load_each_more _ _ _ _ _ IH Hdeps).
  - done.
Qed.

End load_fuel.
Section load_order.
Variable descriptors : gmap string Manifest.
#[local] Abbreviation load := (Package.load descriptors).
#[local] Abbreviation calls := (Package.calls descriptors).
#[local] Abbreviation depends := (Package.depends descriptors).
#[local] Abbreviation waits_for := (Package.waits_for descriptors).
#[local] Abbreviation load_spec := (Package.load_spec descriptors).

(** The dependencies of [name] still to load, one after the other, while
    [name] and the packages waiting for it stay unloaded. *)
Lemma load_each_spec fuel name manifest reg0 :
  (forall d reg reg', load fuel d reg = Some (None, reg') -> load_spec d reg reg') ->
  descriptors !! name = Some manifest ->
  forall todo done rest reg reg',
    dependencies manifest = done ++ todo ++ rest ->
    loaded reg0 ⊆ loaded reg ->
    (forall d, d ∈ done -> d ∈ loaded reg) ->
    (forall y, waits_for reg0 name y -> y ∉ loaded reg) ->
    load_each (load fuel) todo reg = Some (None, reg') ->
    exists tr,
      broadcasts reg' = broadcasts reg ++ (package_loaded <$> tr)
      /\ loaded reg' = list_to_set tr ∪ loaded reg
      /\ NoDup tr
      /\ (forall y, y ∈ tr -> (y ∉ loaded reg) /\ exists d, d ∈ todo /\ depends d y)
      /\ (forall d, d ∈ todo -> d ∈ loaded reg')
      /\ (forall y, waits_for reg0 name y -> y ∉ loaded reg').
Proof.
  intros IH Hm todo. induction todo as [|d todo IHtodo];
    intros done rest reg reg' Hsplit Hsub Hdone Hguard Hrun.
  - injection Hrun as <-. exists []. rewrite app_nil_r.
    repeat split; try done; try set_solver; apply NoDup_nil_2.
  - cbn [load_each] in Hrun.
    destruct (load fuel d reg) as [[[e|] reg1]|] eqn:Hload; try done.
    apply IH in Hload as (tr1 & Hb1 & Hl1 & Hnd1 & Hin1 & Hd1 & _ & Hwait1).
    assert (Hcalls : calls reg name d).
    { split; [apply Hguard; by left|].
      exists manifest, (length done). split; [done|]. split.
      - rewrite Hsplit. by apply list_lookup_middle.
      - intros k dk Hk Hdk. apply Hdone. rewrite Hsplit in Hdk.
        rewrite lookup_app_l in Hdk by done. by eapply list_elem_of_lookup_2. }
    assert (Hguard1 : forall y, waits_for reg0 name y -> y ∉ loaded reg1).
    { intros y Hy. apply Hwait1. destruct Hy as [->|Hy]; [by apply tc_once|].
      eapply tc_r; [|exact Hcalls].
      eapply waiting_mono; [exact Hsub| |exact Hy].
      intros z Hz. apply Hguard. by right. }
    destruct (IHtodo (done ++ [d]) rest reg1 reg')
      as (tr2 & Hb2 & Hl2 & Hnd2 & Hin2 & Hd2 & Hguard2); try done.
    + by rewrite <- app_assoc.
    + rewrite Hl1. set_solver.
    + intros d' Hd'. rewrite Hl1. apply elem_of_app in Hd' as [Hd'|Hd'].
      * apply elem_of_union_r. by apply Hdone.
      * apply list_elem_of_singleton in Hd' as ->. by rewrite <- Hl1.
    + exists (tr1 ++ tr2).
      split; [by rewrite Hb2, Hb1, fmap_app, app_assoc|].
      split; [rewrite Hl2, Hl1, list_to_set_app_L; set_solver|].
      split; [|split; [|split]].
      * apply NoDup_app. split; [done|]. split; [|done].
        intros y Hy1 Hy2. apply Hin2 in Hy2 as [Hy2 _]. apply Hy2.
        rewrite Hl1. apply elem_of_union_l. by apply elem_of_list_to_set.
      * intros y Hy. apply elem_of_app in Hy as [Hy|Hy].
        -- apply Hin1 in Hy as [Hfresh Hdep]. split; [done|]. exists d. split; [left|done].
        -- apply Hin2 in Hy as [Hfresh (d' & Hd' & Hdep)]. split.
           ++ intros Hin. apply Hfresh. rewrite Hl1. by apply elem_of_union_r.
           ++ exists d'. split; [by right|done].
      * intros d' Hd'. apply elem_of_cons in Hd' as [->|Hd']; [|by apply Hd2].
        rewrite Hl2. by apply elem_of_union_r.
      * done.
Qed.

(** Every load that finishes without error meets [load_spec]. *)
Lemma load_meets_spec fuel name reg reg' :
  load fuel name reg = Some (None, reg') -> load_spec name reg reg'.
Proof.
  revert name reg reg'. induction fuel as [|fuel IH]; intros name reg reg' Hload; [done|].
  pose proof Hload as Hload0.
  cbn [Package.load] in Hload. case_decide as Hin.
  - injection Hload as <-. exists []. rewrite app_nil_r.
    repeat split; try done; try set_solver; try apply NoDup_nil_2.
    intros y Hy. by apply calls_fresh in Hy.
  - destruct (descriptors !! name) as [manifest|] eqn:Hm; [|done].
    destruct (hosts_present manifest); cbn [negb] in Hload; [|done].
    destruct (load_each (load fuel) (dependencies manifest) reg) as [[[e|] reg1]|] eqn:Hdeps;
      try done.
    destruct (main_runs manifest); [|done]. injection Hload as <-.
    destruct (load_each_spec fuel name manifest reg IH Hm (dependencies manifest) [] [] reg reg1)
      as (tr & Hb & Hl & Hnd & Hintr & Hd & Hguard); try done.
    { by rewrite app_nil_r. }
    { intros d Hd. by apply elem_of_nil in Hd. }
    { intros y [->|Hy]; [done|]. by apply calls_fresh in Hy. }
    assert (Hname : name ∉ tr).
    { intros Hintr'. apply (Hguard name); [by left|].
      rewrite Hl. apply elem_of_union_l. by apply elem_of_list_to_set. }
    exists (tr ++ [name]). cbn [broadcasts loaded].
    split; [by rewrite Hb, fmap_app, app_assoc|].
    split; [rewrite Hl, list_to_set_app_L; set_solver|].
    split; [|split; [|split; [|split]]].
    + apply NoDup_app. split; [done|]. split; [|apply NoDup_singleton].
      intros y Hy Hy'. apply list_elem_of_singleton in Hy' as ->. done.
    + intros y Hy. apply elem_of_app in Hy as [Hy|Hy].
      * apply Hintr in Hy as [Hfresh (d & Hd' & Hdep)]. split; [done|].
        eapply rtc_l; [|exact Hdep]. by exists manifest.
      * apply list_elem_of_singleton in Hy as ->. split; [done|]. apply rtc_refl.
    + set_solver.
    + intros _. by exists tr.
    + intros y Hy Hin'. apply elem_of_union in Hin' as [Hin'|Hin'].
      * apply elem_of_singleton in Hin' as ->. by eapply load_cycle.
      * by apply (Hguard y); [right|].
Qed.

Lemma announced_app reg reg' tr :
  broadcasts reg' = broadcasts reg ++ (package_loaded <$> tr) ->
  announced reg reg' = tr.
Proof.
  intros Hb. unfold announced. rewrite Hb, drop_app_length, <- list_fmap_compose.
  clear. induction tr as [|x tr IH]; [done|]. csimpl. by rewrite IH.
Qed.

Lemma before_app {A} (x y : A) l1 l2 l3 :
  x ∈ l1 -> y ∈ l2 -> before x y (l1 ++ l2 ++ l3).
Proof.
  intros Hx Hy.
  apply list_elem_of_split in Hx as (a1 & a2 & ->).
  apply list_elem_of_split in Hy as (b1 & b2 & ->).
  exists a1, (a2 ++ b1), (b2 ++ l3). by rewrite <- !app_assoc.
Qed.

Lemma before_app_l {A} (x y : A) l1 l2 : before x y l1 -> before x y (l1 ++ l2).
Proof.
  intros (a & b & c & ->). exists a, b, (c ++ l2).
  by rewrite <- !app_assoc, <- !app_comm_cons, <- !app_assoc.
Qed.

Lemma before_app_r {A} (x y : A) l1 l2 : before x y l2 -> before x y (l1 ++ l2).
Proof. intros (a & b & c & ->). exists (l1 ++ a), b, c. by rewrite <- !app_assoc. Qed.

(** Every load that finishes without error announces each package after the
    dependencies it declares. *)
Lemma load_dependencies_first fuel name reg reg' :
  load fuel name reg = Some (None, reg') ->
  name ∈ loaded reg' /\ exists tr, dependencies_first descriptors reg reg' tr.
Proof.
  revert name reg reg'. induction fuel as [|fuel IH]; intros name reg reg' Hload; [done|].
  cbn [Package.load] in Hload. case_decide as Hin.
  { injection Hload as <-. split; [done|]. exists [].
    split; [by cbn; rewrite app_nil_r|]. split; [set_solver|].
    intros y m d Hy. by apply elem_of_nil in Hy. }
  destruct (descriptors !! name) as [manifest|] eqn:Hm; [|done].
  destruct (hosts_present manifest); cbn [negb] in Hload; [|done].
  destruct (load_each (load fuel) (dependencies manifest) reg) as [[[e|] reg1]|] eqn:Hdeps;
    try done.
  destruct (main_runs manifest); [|done]. injection Hload as <-.
  assert (Heach : forall todo reg reg1,
    load_each (load fuel) todo reg = Some (None, reg1) ->
    (forall d, d ∈ todo -> d ∈ loaded reg1)
    /\ exists tr, dependencies_first descriptors reg reg1 tr).
  { clear -IH. induction todo as [|d todo IHtodo]; intros reg reg1 Hrun.
    - injection Hrun as <-. split; [by intros d Hd; apply elem_of_nil in Hd|].
      exists []. split; [by cbn; rewrite app_nil_r|]. split; [set_solver|].
      intros y m d Hy. by apply elem_of_nil in Hy.
    - cbn [load_each] in Hrun.
      destruct (load fuel d reg) as [[[e|] rega]|] eqn:Hload; try done.
      apply IH in Hload as (Hd & tra & Hba & Hla & Hfirsta).
      apply IHtodo in Hrun as (Htodo & trb & Hbb & Hlb & Hfirstb).
      split.
      + intros d' Hd'. apply elem_of_cons in Hd' as [->|Hd']; [|by apply Htodo].
        rewrite Hlb. by apply elem_of_union_r.
      + exists (tra ++ trb).
        split; [by rewrite Hbb, Hba, fmap_app, app_assoc|].
        split; [rewrite Hlb, Hla, list_to_set_app_L; set_solver|].
        intros y m d' Hy Hm Hd' Hfresh. apply elem_of_app in Hy as [Hy|Hy].
        * apply before_app_l. by eapply Hfirsta.
        * destruct (decide (d' ∈ loaded rega)) as [Hin|Hin].
          -- rewrite Hla in Hin. apply elem_of_union in Hin as [Hin|Hin]; [|done].
             apply elem_of_list_to_set in Hin.
             rewrite <- (app_nil_r trb). by apply before_app.
          -- apply before_app_r. by eapply Hfirstb. }
  destruct (Heach _ _ _ Hdeps) as (Hall & tr1 & Hb1 & Hl1 & Hfirst1).
  cbn [loaded broadcasts]. split; [set_solver|].
  exists (tr1 ++ [name]).
  split; [by rewrite Hb1, fmap_app, app_assoc|].
  split; [rewrite Hl1, list_to_set_app_L; set_solver|].
  intros y m d Hy Hmy Hd Hfresh. apply elem_of_app in Hy as [Hy|Hy].
  - apply before_app_l. by eapply Hfirst1.
  - apply list_elem_of_singleton in Hy as ->. rewrite Hm in Hmy. injection Hmy as <-.
    apply (before_app d name tr1 [name] []); [|left].
    apply Hall in Hd. rewrite Hl1 in Hd. apply elem_of_union in Hd as [Hd|Hd]; [|done].
    by apply elem_of_list_to_set in Hd.
Qed.

(** C1, amended.  A load of a package that was not loaded and that finishes
    without error announces no package twice and announces the package
    itself last; every declared dependency is loaded afterwards and, unless
    it was loaded already, is announced before the package; every package
    the load announces comes after each dependency it declares that was not
    loaded before; and of two declared dependencies that were not loaded,
    the one declared first is announced first when the other is not a
    dependency (direct or not) of it or of one declared before it. *)
Theorem load_announces_dependencies_first
    (fuel : nat) (name : string) (manifest : Manifest) (reg reg' : Registry) :
  descriptors !! name = Some manifest ->
  name ∉ loaded reg ->
  load fuel name reg = Some (None, reg') ->
  let tr := announced reg reg' in
  NoDup tr
  /\ last tr = Some name
  /\ (forall d, d ∈ dependencies manifest ->
         d ∈ loaded reg' /\ (d ∉ loaded reg -> before d name tr))
  /\ (forall y needs d,
         y ∈ tr -> descriptors !! y = Some needs -> d ∈ dependencies needs ->
         d ∉ loaded reg -> before d y tr)
  /\ (forall i j di dj,
         (i < j)%nat ->
         dependencies manifest !! i = Some di ->
         dependencies manifest !! j = Some dj ->
         di ∉ loaded reg ->
         dj ∉ loaded reg ->
         (forall k dk, (k <= i)%nat -> dependencies manifest !! k = Some dk ->
                       ~ depends dk dj) ->
         before di dj tr).
Proof.
  intros Hm Hfresh Hload tr. pose proof Hload as Hload0.
  destruct (load_meets_spec _ _ _ _ Hload) as (tr0 & Hb0 & Hl0 & Hnd0 & _ & _ & Hlast0 & _).
  destruct (Hlast0 Hfresh) as [pre0 ->].
  assert (Htr : tr = pre0 ++ [name]) by (by apply announced_app).
  destruct fuel as [|fuel]; [done|].
  cbn [Package.load] in Hload. rewrite decide_False, Hm in Hload by done.
  destruct (hosts_present manifest); cbn [negb] in Hload; [|done].
  destruct (load_each (load fuel) (dependencies manifest) reg) as [[[e|] reg1]|] eqn:Hdeps;
    try done.
  destruct (main_runs manifest); [|done]. injection Hload as <-.
  assert (Hguard0 : forall y, waits_for reg name y -> y ∉ loaded reg).
  { intros y [->|Hy]; [done|]. by apply calls_fresh in Hy. }
  assert (Hspec := load_meets_spec fuel).
  assert (Hpre1 : announced reg reg1 = pre0).
  { cbn [broadcasts] in Hb0. rewrite fmap_app, app_assoc in Hb0.
    apply app_inj_tail in Hb0 as [Hb0 _]. by apply announced_app. }
  assert (Hfirst : forall y needs d,
            y ∈ tr -> descriptors !! y = Some needs -> d ∈ dependencies needs ->
            d ∉ loaded reg -> before d y tr).
  { destruct (load_dependencies_first _ _ _ _ Hload0) as (_ & tr2 & Hb2 & _ & Hfirst).
    subst tr. by rewrite (announced_app _ _ _ Hb2). }
  rewrite Htr in Hfirst |- *.
  split; [done|]. split; [by rewrite last_snoc|]. split; [|split; [exact Hfirst|]].
  - intros d Hd.
    destruct (load_each_spec fuel name manifest reg Hspec Hm (dependencies manifest) [] [] reg reg1)
      as (tr1 & Hb1 & Hl1 & _ & _ & Hd1 & _); try done.
    { by rewrite app_nil_r. }
    { intros ? Hnil. by apply elem_of_nil in Hnil. }
    rewrite (announced_app _ _ _ Hb1) in Hpre1. subst tr1. cbn [loaded]. split.
    + apply elem_of_union_r. by apply Hd1.
    + intros Hd'. apply (before_app d name pre0 [name] []).
      * apply Hd1 in Hd. rewrite Hl1 in Hd. apply elem_of_union in Hd as [Hd|Hd]; [|done].
        by apply elem_of_list_to_set in Hd.
      * left.
  - intros i j di dj Hij Hi Hj Hdi Hdj Hindep.
    rewrite <- (take_drop (S i) (dependencies manifest)) in Hdeps.
    apply load_each_app in Hdeps as (mid & HA & HB).
    destruct (load_each_spec fuel name manifest reg Hspec Hm
                (take (S i) (dependencies manifest)) [] (drop (S i) (dependencies manifest))
                reg mid)
      as (trA & HbA & HlA & _ & HinA & HdA & HguardA); try done.
    { by rewrite take_drop. }
    { intros ? Hnil. by apply elem_of_nil in Hnil. }
    destruct (load_each_spec fuel name manifest reg Hspec Hm
                (drop (S i) (dependencies manifest)) (take (S i) (dependencies manifest)) []
                mid reg1)
      as (trB & HbB & HlB & _ & _ & HdB & _); try done.
    { by rewrite app_nil_r, take_drop. }
    { rewrite HlA. set_solver. }
    assert (pre0 = trA ++ trB) as ->.
    { rewrite <- Hpre1. apply announced_app. by rewrite HbB, HbA, fmap_app, app_assoc. }
    rewrite <- app_assoc. apply before_app.
    + assert (Hin : di ∈ take (S i) (dependencies manifest)).
      { apply (list_elem_of_lookup_2 _ i). by rewrite lookup_take_lt by lia. }
      apply HdA in Hin. rewrite HlA in Hin. apply elem_of_union in Hin as [Hin|Hin]; [|done].
      by apply elem_of_list_to_set in Hin.
    + assert (Hin : dj ∈ drop (S i) (dependencies manifest)).
      { apply (list_elem_of_lookup_2 _ (j - S i)). rewrite lookup_drop.
        by replace (S i + (j - S i))%nat with j by lia. }
      apply HdB in Hin. rewrite HlB in Hin. apply elem_of_union in Hin as [Hin|Hin].
      * by apply elem_of_list_to_set in Hin.
      * rewrite HlA in Hin. apply elem_of_union in Hin as [Hin|Hin]; [|done].
        apply elem_of_list_to_set in Hin. apply HinA in Hin as [_ (d & Hd & Hdep)].
        apply list_elem_of_lookup in Hd as [k Hk].
        pose proof (lookup_lt_Some _ _ _ Hk) as Hlt. rewrite length_take in Hlt.
        rewrite lookup_take_lt in Hk by lia.
        destruct (Hindep k d ltac:(lia) Hk Hdep).
Qed.

End load_order.
(** The registry after a load, when it finished without error. *)
Lemma load_fixture_app :
  exists reg',
    Package.load fixtures 5 "app" nothing_loaded = Some (None, reg')
    /\ announced nothing_loaded reg'
       = ["dep-02"; "dep-01"; "package-deps"; "simple"; "app"].
Proof. eexists. split; vm_compute; reflexivity. Qed.

(** The scenario of the test suite: loading [package-deps] announces
    [dep-02], [dep-01], [package-deps], in that order. *)
Lemma load_fixture_package_deps :
  exists reg',
    Package.load fixtures 3 "package-deps" nothing_loaded = Some (None, reg')
    /\ broadcasts reg'
       = [("package:loaded", "dep-02"); ("package:loaded", "dep-01");
          ("package:loaded", "package-deps")].
Proof. eexists. split; vm_compute; reflexivity. Qed.

Lemma fixture_simple_independent dk :
  dk ∈ ["package-deps"; "dep-01"; "dep-02"] ->
  ~ Package.depends fixtures dk "simple".
Proof.
  intros Hin Hdep. revert Hin. remember "simple" as target eqn:Htarget.
  induction Hdep as [x|x y z (manifest & Hm & Hy) _ IH]; intros Hin.
  - subst x. repeat (apply elem_of_cons in Hin as [Hin|Hin]; [discriminate|]).
    by apply elem_of_nil in Hin.
  - apply IH; [done|]. clear IH.
    repeat (apply elem_of_cons in Hin as [->|Hin];
            [vm_compute in Hm; injection Hm as <-; cbn in Hy;
             repeat (apply elem_of_cons in Hy as [->|Hy]; [set_solver|]);
             by apply elem_of_nil in Hy|]).
    by apply elem_of_nil in Hin.
Qed.

(** Loading [app] with nothing loaded: [package-deps] and what it needs
    come before [simple], and [app] comes last. *)
Lemma load_announces_dependencies_first_witness :
  exists reg',
    Package.load fixtures 5 "app" nothing_loaded = Some (None, reg')
    /\ NoDup (announced nothing_loaded reg')
    /\ last (announced nothing_loaded reg') = Some "app"
    /\ before "package-deps" "simple" (announced nothing_loaded reg').
Proof.
  destruct load_fixture_app as (reg' & Hload & _). exists reg'. split; [exact Hload|].
  destruct (load_announces_dependencies_first fixtures 5 "app"
              (plain ["package-deps"; "simple"]) nothing_loaded reg')
    as (Hnd & Hlast & _ & _ & Horder).
  - reflexivity.
  - apply not_elem_of_empty.
  - exact Hload.
  - split; [exact Hnd|]. split; [exact Hlast|].
    apply (Horder 0%nat 1%nat); try reflexivity; try apply not_elem_of_empty; [lia|].
    intros k dk Hk Hdk. destruct k as [|k]; [|lia]. injection Hdk as <-.
    apply fixture_simple_independent. left.
Defined.

(** C1, counterexample.  [top] declares [left], then [base], and [left]
    needs [base]: the load of [top] announces [base], [left], [top], so the
    two declared dependencies are not announced in declaration order. *)
Lemma load_diamond_announces_later_sibling_first :
  (exists reg',
     Package.load diamond 4 "top" nothing_loaded = Some (None, reg')
     /\ announced nothing_loaded reg' = ["base"; "left"; "top"])
  /\ ~ announces_in_declared_order diamond 4 "top" nothing_loaded.
Proof.
  split; [eexists; split; vm_compute; reflexivity|].
  intros Hclaim.
  destruct (Package.load diamond 4 "top" nothing_loaded) as [[[e|] reg']|] eqn:Hload;
    try (vm_compute in Hload; discriminate).
  destruct (Hclaim (plain ["left"; "base"]) reg' eq_refl Hload) as [_ Horder].
  destruct (Horder 0%nat 1%nat "left" "base" ltac:(lia) eq_refl eq_refl)
    as (l1 & l2 & l3 & Hsplit).
  assert (Htr : announced nothing_loaded reg' = ["base"; "left"; "top"]).
  { vm_compute in Hload. injection Hload as <-. reflexivity. }
  rewrite Htr in Hsplit.
  destruct l1 as [|? [|? [|? [|? ?]]]]; try discriminate;
    injection Hsplit as ? Hsplit; subst; try discriminate;
    destruct l2 as [|? [|? ?]]; try discriminate; injection Hsplit; intros; subst; discriminate.
Qed.

(* ===================================================================== *)
(** * The main process: what every handler keeps *)
(* ===================================================================== *)

Section respects_facts.
Context (R : relation World) `{!PreOrder R}.

Lemma respects_ret {A} (a : A) : respects R (ret a).
Proof. intros W. reflexivity. Qed.

Lemma respects_throw {A} err : respects R (@throw A err).
Proof. intros W. reflexivity. Qed.

Lemma respects_read {A} (f : World -> A) : respects R (read f).
Proof. intros W. reflexivity. Qed.

Lemma respects_deref w : respects R (deref w).
Proof. intros W. unfold exec, deref. destruct (heap W !! w); reflexivity. Qed.

Lemma respects_modify f : (forall W, R W (f W)) -> respects R (modify f).
Proof. intros H W. apply H. Qed.

Lemma respects_bind {A B} (m : M A) (k : A -> M B) :
  respects R m -> (forall a, respects R (k a)) -> respects R (bind m k).
Proof.
  intros Hm Hk W. pose proof (Hm W) as H1. unfold exec, bind in *.
  destruct (m W) as [[a|err] W1]; cbn [snd] in H1 |- *; [|done].
  etrans; [exact H1|]. apply Hk.
Qed.

Lemma respects_for_each {A} (l : list A) (body : A -> M unit) :
  (forall x, respects R (body x)) -> respects R (for_each l body).
Proof.
  intros Hbody. induction l as [|x l IH]; cbn [for_each].
  - apply respects_ret.
  - apply respects_bind; [apply Hbody|]. intros _. exact IH.
Qed.

Lemma respects_native w : respects R (native w).
Proof.
  unfold native. apply respects_bind; [apply respects_deref|].
  intros win. destruct (nativeWin win); [apply respects_ret|apply respects_throw].
Qed.

Lemma respects_triple {A} (m : M A) (P : World -> Prop) :
  (forall W W', P W -> R W W' -> P W') ->
  respects R m -> triple P m (fun _ => P) P.
Proof.
  intros Hclosed Hm W HP. pose proof (Hm W) as H1. unfold exec in H1.
  destruct (m W) as [[a|err] W1]; cbn [snd] in H1; eauto.
Qed.
End respects_facts.

Lemma triple_bind {A B} (m : M A) (k : A -> M B) P Q Q' E :
  triple P m Q E -> (forall a, triple (Q a) (k a) Q' E) -> triple P (bind m k) Q' E.
Proof.
  intros Hm Hk W HP. specialize (Hm W HP). unfold bind.
  destruct (m W) as [[a|err] W1]; [|done]. by apply Hk.
Qed.

Lemma triple_exec {A} (m : M A) P Q W :
  triple P m (fun _ => Q) Q -> P W -> Q (exec m W).
Proof.
  intros Hm HP. specialize (Hm W HP). unfold exec.
  by destruct (m W) as [[a|err] W1].
Qed.

Lemma triple_for_each {A} (l : list A) (body : A -> M unit) P :
  (forall x, triple P (body x) (fun _ => P) P) ->
  triple P (for_each l body) (fun _ => P) P.
Proof.
  intros Hbody. induction l as [|x l IH]; cbn [for_each].
  - by intros W HP.
  - eapply triple_bind; [apply Hbody|]. intros []. exact IH.
Qed.

#[local] Instance frame_preorder : PreOrder frame.
Proof.
  split.
  - intros W. by repeat split.
  - intros W1 W2 W3 (Hw & Hp & Hl) (Hw' & Hp' & Hl'). repeat split; try congruence.
    eauto.
Qed.

Lemma respects_emit (R : relation World) e :
  (forall W, R W (with_log (log W ++ [e]) W)) -> respects R (emit e).
Proof. intros H W. apply H. Qed.

Lemma respects_update (R : relation World) w f :
  (forall W, R W (with_heap (alter f w (heap W)) W)) -> respects R (update w f).
Proof. intros H W. apply H. Qed.

(** Taking a computation apart, down to the writes it makes; [leaf] deals
    with those. *)
Ltac respects_with leaf :=
  repeat match goal with
  | |- PreOrder _ => apply _
  | |- forall _, respects _ _ => intros ?
  | |- respects _ (bind _ _) => apply respects_bind
  | |- respects _ (ret _) => apply respects_ret
  | |- respects _ (throw _) => apply respects_throw
  | |- respects _ (read _) => apply respects_read
  | |- respects _ (deref _) => apply respects_deref
  | |- respects _ (native _) => apply respects_native
  | |- respects _ (for_each _ _) => apply respects_for_each
  | |- respects _ (invoke _ _ _ _) => unfold invoke
  | |- respects _ (emit _) => apply respects_emit; intros ?; leaf
  | |- respects _ (modify _) => apply respects_modify; intros ?; leaf
  | |- respects _ (update _ _) => apply respects_update; intros ?; leaf
  | |- respects _ (if ?b then _ else _) => destruct b
  | |- respects _ (match ?x with _ => _ end) => destruct x
  | |- respects _ _ => solve [eauto with respects]
  end.

Lemma live_alter W w f w' :
  (forall win, nativeWin (f win) = nativeWin win) ->
  live W w' -> live (with_heap (alter f w (heap W)) W) w'.
Proof.
  intros Hf (win & bw & Hw & Hn & Hc). unfold live. wsimpl.
  destruct (decide (w = w')) as [->|Hne].
  - exists (f win), bw. rewrite list_lookup_alter_eq, Hw, Hf. done.
  - exists win, bw. by rewrite list_lookup_alter_ne.
Qed.

Lemma frame_alter W w f :
  (forall win, nativeWin (f win) = nativeWin win) ->
  frame W (with_heap (alter f w (heap W)) W).
Proof. intros Hf. repeat split. intros w'. by apply live_alter. Qed.

Ltac frame_leaf :=
  first [ by repeat split | by apply frame_alter ].

Ltac steady := respects_with frame_leaf.

Create HintDb respects.

Lemma isMainWindow_steady w : respects frame (EditorWindow.isMainWindow w).
Proof. unfold EditorWindow.isMainWindow. steady. Qed.

Lemma show_steady w : respects frame (EditorWindow.show w).
Proof. unfold EditorWindow.show. steady. Qed.

Lemma focus_steady w : respects frame (EditorWindow.focus w).
Proof. unfold EditorWindow.focus. steady. Qed.

Lemma close_steady w : respects frame (EditorWindow.close w).
Proof. unfold EditorWindow.close. steady. Qed.

Lemma load_steady w editorUrl argv : respects frame (EditorWindow.load w editorUrl argv).
Proof. unfold EditorWindow.load. steady. Qed.

Lemma sendToPage_steady w args : respects frame (EditorWindow.sendToPage w args).
Proof. unfold EditorWindow.sendToPage. steady. Qed.

#[local] Hint Resolve isMainWindow_steady show_steady focus_steady close_steady
  load_steady sendToPage_steady : respects.

Lemma sendRequestToPage_steady w channel args :
  respects frame (EditorWindow.sendRequestToPage w channel args).
Proof. unfold EditorWindow.sendRequestToPage. steady. Qed.

Lemma cancelRequestToPage_steady w sessionId :
  respects frame (EditorWindow.cancelRequestToPage w sessionId).
Proof. unfold EditorWindow.cancelRequestToPage. steady. Qed.

Lemma reply_steady w sessionId args :
  respects frame (EditorWindow._reply w sessionId args).
Proof. unfold EditorWindow._reply. steady. Qed.

Lemma loadProfile_steady name : respects frame (EditorPanel.loadProfile name).
Proof. unfold EditorPanel.loadProfile. steady. Qed.

Lemma findWindow_steady panelID : respects frame (EditorPanel.findWindow panelID).
Proof. unfold EditorPanel.findWindow. steady. Qed.

#[local] Hint Resolve sendRequestToPage_steady cancelRequestToPage_steady
  reply_steady loadProfile_steady findWindow_steady : respects.

Lemma saveLayout_steady w panelID : respects frame (EditorPanel._saveLayout w panelID).
Proof. unfold EditorPanel._saveLayout. steady. Qed.

#[local] Hint Resolve saveLayout_steady : respects.

Lemma onWindowClose_steady w : respects frame (EditorPanel._onWindowClose w).
Proof. unfold EditorPanel._onWindowClose. steady. Qed.

#[local] Hint Resolve onWindowClose_steady : respects.

Lemma on_close_steady w : respects frame (NativeEvents.on_close w).
Proof. unfold NativeEvents.on_close. steady. Qed.

Lemma find_loop_steady test ws : respects frame (Windows.find_loop test ws).
Proof. induction ws as [|w ws IH]; cbn [Windows.find_loop]; steady. Qed.

#[local] Hint Resolve on_close_steady find_loop_steady : respects.

Lemma find_steady p : respects frame (Windows.find p).
Proof. unfold Windows.find. steady. Qed.

#[local] Hint Resolve find_steady : respects.

Lemma triple_consequence {A} (m : M A) (P P' : World -> Prop)
    (Q Q' : A -> World -> Prop) (E E' : World -> Prop) :
  triple P' m Q' E' -> (forall W, P W -> P' W) -> (forall a W, Q' a W -> Q a W) ->
  (forall W, E' W -> E W) -> triple P m Q E.
Proof.
  intros Hm HP HQ HE W HW. specialize (Hm W (HP W HW)).
  destruct (m W) as [[a|err] W1]; eauto.
Qed.

(** ** The registry, the dock table and the heap stay consistent *)

Import Process.

Lemma consistent_frame W W' : consistent W -> frame W W' -> consistent W'.
Proof.
  intros [Hnd Hlive Hdock] (Hw & Hp & Hl). split.
  - by rewrite Hw.
  - intros w. rewrite Hw. auto.
  - intros panelID w. unfold docked. rewrite Hp, Hw. apply Hdock.
Qed.

Lemma steady_keeps {A} (m : M A) : respects frame m -> keeps consistent m.
Proof. apply respects_triple. apply consistent_frame. Qed.

Lemma keeps_bind {A B} (m : M A) (k : A -> M B) P :
  keeps P m -> (forall a, keeps P (k a)) -> keeps P (bind m k).
Proof. intros Hm Hk. eapply triple_bind; [exact Hm|]. intros a. apply Hk. Qed.

Lemma new_spec nm options W :
  exists win evs W',
    EditorWindow.new nm options W = (Return (length (heap W)), W')
    /\ heap W' = heap W ++ [win]
    /\ _windows W' = _windows W ++ [length (heap W)]
    /\ mainWindow W' = mainWindow W
    /\ _panel2windows W' = _panel2windows W
    /\ _panel2argv W' = _panel2argv W
    /\ profiles W' = profiles W
    /\ log W' = log W ++ evs
    /\ name win = nm
    /\ (exists bw, nativeWin win = Some bw /\ bw_webContents bw = true)
    /\ _replyCallbacks win = [].
Proof.
  unfold EditorWindow.new.
  destruct (EditorWindow.switch_windowType _ _) as [o hide].
  unfold EditorWindow.addWindow. run_js.
  destruct hide; run_js.
  - eexists _, [_; _], _. split; [reflexivity|]. wsimpl.
    rewrite <- app_assoc. repeat split; eauto.
  - eexists _, [_], _. split; [reflexivity|]. wsimpl. repeat split; eauto.
Qed.

Lemma registered_in_heap W w : consistent W -> w ∈ _windows W -> (w < length (heap W))%nat.
Proof.
  intros HW Hin. destruct (registered_live W HW w Hin) as (win & _ & Hw & _).
  by eapply lookup_lt_Some.
Qed.

Lemma new_consistent nm options :
  triple consistent (EditorWindow.new nm options)
         (fun w W => consistent W /\ w ∈ _windows W) consistent.
Proof.
  intros W HW.
  destruct (new_spec nm options W)
    as (win & evs & W' & -> & Hh & Hws & _ & Hp & _ & _ & _ & _ & (bw & Hn & Hc) & _).
  split; [|rewrite Hws; set_solver].
  split.
  - rewrite Hws. apply NoDup_app. split; [apply HW|]. split; [|apply NoDup_singleton].
    intros w Hin Hw. apply list_elem_of_singleton in Hw as ->.
    apply (registered_in_heap W) in Hin; [lia|done].
  - intros w. rewrite Hws, elem_of_app, list_elem_of_singleton. intros [Hin| ->].
    + destruct (registered_live W HW w Hin) as (win' & bw' & Hw & Hn' & Hc').
      exists win', bw'. rewrite Hh, lookup_app_l; [done|by eapply lookup_lt_Some].
    + exists win, bw. rewrite Hh, list_lookup_middle; done.
  - intros panelID w. unfold docked. rewrite Hp, Hws. intros Hd.
    apply elem_of_app. left. by apply (docked_registered W HW panelID).
Qed.

Lemma dock_consistent panelID win :
  triple (fun W => consistent W /\ forall w, win = Some w -> w ∈ _windows W)
         (EditorPanel._dock panelID win) (fun _ => consistent) consistent.
Proof.
  intros W [HW Hwin]. cbn. split; [apply HW|apply HW|].
  intros p w. unfold docked. wsimpl. rewrite obj_get_set.
  case_decide; [|apply HW]. cbn. auto.
Qed.

Lemma undocking_consistent panelID :
  keeps consistent
    (modify (fun W => with_panel2windows (obj_delete (_panel2windows W) panelID) W)).
Proof.
  intros W HW. cbn. split; [apply HW|apply HW|].
  intros p w. unfold docked. wsimpl. rewrite obj_get_delete.
  case_decide; [done|apply HW].
Qed.

Lemma keeps_for_each {A} (l : list A) (body : A -> M unit) P :
  (forall x, keeps P (body x)) -> keeps P (for_each l body).
Proof. apply triple_for_each. Qed.

(** Taking a computation apart: every part keeps the world consistent. *)
Ltac consistent :=
  repeat match goal with
  | |- forall _, keeps _ _ => intros ?
  | |- keeps _ (bind (EditorWindow.new _ _) _) => fail 1
  | |- keeps _ (bind (Windows.find _) _) => fail 1
  | |- keeps _ (bind _ _) => apply keeps_bind
  | |- keeps _ (for_each _ _) => apply keeps_for_each
  | |- keeps _ (modify (fun W => with_panel2windows (obj_delete _ _) W)) =>
      apply undocking_consistent
  | |- keeps consistent ?m => solve [apply steady_keeps; steady]
  | |- keeps _ (if ?b then _ else _) => destruct b
  | |- keeps _ (match ?x with _ => _ end) => destruct x
  | |- keeps _ _ => solve [eauto with respects]
  end.

Lemma undock_consistent panelID : keeps consistent (EditorPanel._undock panelID).
Proof. unfold EditorPanel._undock. consistent. Qed.

#[local] Hint Resolve undock_consistent : respects.

Lemma close_panel_consistent panelID : keeps consistent (EditorPanel.close panelID).
Proof. unfold EditorPanel.close. consistent. Qed.

#[local] Hint Resolve close_panel_consistent : respects.

Lemma closeAll_consistent packageName : keeps consistent (EditorPanel.closeAll packageName).
Proof. unfold EditorPanel.closeAll, EditorPanel.findPanels. consistent. Qed.

Lemma open_consistent panelInfo panelID argv :
  keeps consistent (EditorPanel.open panelInfo panelID argv).
Proof.
  unfold EditorPanel.open. consistent.
  eapply triple_bind; [apply new_consistent|]. intros w.
  eapply (triple_bind _ _ _ (fun _ => consistent)).
  - eapply triple_consequence; [apply (dock_consistent _ (Some w))|..]; cbn; try done.
    intros W [HW Hw]. split; [done|]. by intros ? [= <-].
  - intros []. change (keeps consistent
      (native w;; emit (SetContentSize w (opt_width (EditorPanel.windowOptions p a1))
                                      (opt_height (EditorPanel.windowOptions p a1)));;
       emit (SetMenuBarVisibility w false);;
       (if decide (pi_type p = Some "simple") then
          EditorWindow.load w
            ("packages://" +:+ default "" (head (split "." panelID)) +:+ "/" +:+ pi_frame p) argv
        else EditorWindow.load w EditorPanel.templateUrl (Obj [("panelID", Str panelID)]));;
       EditorWindow.focus w)).
    consistent.
Qed.

Lemma find_loop_registered test ws W :
  forall w, outcome (Windows.find_loop test ws) W = Return (Some w) -> w ∈ ws.
Proof.
  unfold outcome. induction ws as [|w' ws IH]; intros w; cbn [Windows.find_loop].
  - done.
  - unfold bind, deref. destruct (heap W !! w') as [o|]; [|done].
    destruct (test w' o).
    + intros [= <-]. left.
    + intros H. right. by apply IH.
Qed.

Lemma find_loop_pure test ws W : exec (Windows.find_loop test ws) W = W.
Proof.
  unfold exec. induction ws as [|w' ws IH]; cbn [Windows.find_loop]; [done|].
  unfold bind, deref. destruct (heap W !! w') as [o|]; [|done].
  by destruct (test w' o).
Qed.

Lemma find_pure p W : exec (Windows.find p) W = W.
Proof.
  unfold Windows.find, exec, bind, read.
  destruct p as [s|bw|[bw|]]; try apply find_loop_pure. done.
Qed.

Lemma find_registered p W w :
  outcome (Windows.find p) W = Return (Some w) -> w ∈ _windows W.
Proof.
  unfold Windows.find, outcome, bind, read.
  destruct p as [s|bw|[bw|]]; try apply find_loop_registered. done.
Qed.

Lemma find_consistent p :
  triple consistent (Windows.find p)
         (fun r W => consistent W /\ forall w, r = Some w -> w ∈ _windows W) consistent.
Proof.
  intros W HW. pose proof (find_pure p W) as Hp. pose proof (find_registered p W) as Hr.
  unfold exec, outcome in *. destruct (Windows.find p W) as [[r|err] W']; cbn in *; subst W'.
  - split; [done|]. intros w ->. by apply Hr.
  - done.
Qed.

Lemma panel_dock_consistent sender panelID :
  keeps consistent (Ipc.panel_dock sender panelID).
Proof.
  unfold Ipc.panel_dock. eapply triple_bind; [apply find_consistent|].
  intros r. apply dock_consistent.
Qed.

Lemma sendreq2page_reply_steady sender sessionId args :
  respects frame (Ipc.sendreq2page_reply sender sessionId args).
Proof. unfold Ipc.sendreq2page_reply. steady. Qed.

Lemma window_load_steady sender url argv :
  respects frame (Ipc.window_load sender url argv).
Proof. unfold Ipc.window_load. steady. Qed.

Lemma panel_ready_steady panelID : respects frame (Ipc.panel_ready panelID).
Proof. unfold Ipc.panel_ready. steady. Qed.

Lemma window_open_consistent nm url options :
  keeps consistent (Ipc.window_open nm url options).
Proof.
  unfold Ipc.window_open. destruct (default _ options) as [o argv].
  eapply triple_bind; [apply new_consistent|]. intros w.
  eapply (triple_consequence _ _ consistent _ (fun _ => consistent) _ consistent);
    [|by intros ? []|done|done].
  fold (keeps consistent (native w;; emit (SetMenuBarVisibility w false);;
                          EditorWindow.load w url argv;; EditorWindow.show w)).
  consistent.
Qed.

Lemma splice_first_filter w ws :
  NoDup ws -> EditorWindow.splice_first w ws = filter (fun x => x <> w) ws.
Proof.
  induction 1 as [|x ws Hx Hnd IH]; cbn [EditorWindow.splice_first]; [done|].
  rewrite filter_cons. case_decide as Hxw.
  - subst x. rewrite decide_False by (by intros ?).
    symmetry. apply filter_all. apply Forall_forall. by intros y Hy ->.
  - rewrite decide_True by done. by rewrite IH.
Qed.

Lemma steady_under (P : World -> Prop) {A} (m : M A) :
  (forall W W', P W -> frame W W' -> P W') ->
  respects frame m -> triple (fun W => consistent W /\ P W) m
                             (fun _ W => consistent W /\ P W) consistent.
Proof.
  intros Hclosed Hm.
  eapply triple_consequence;
    [apply (respects_triple frame m (fun W => consistent W /\ P W))|..]; try done.
  - intros W W' [HW HP] Hf. split; [by eapply consistent_frame|by eapply Hclosed].
  - by intros W [].
Qed.

Lemma hosts_nothing_frame this W W' : hosts_nothing this W -> frame W W' -> hosts_nothing this W'.
Proof. intros H (_ & Hp & _) p. unfold docked. rewrite Hp. apply H. Qed.

Lemma unregistered_frame (this : winref) W W' :
  this ∉ _windows W -> frame W W' -> this ∉ _windows W'.
Proof. intros H (Hw & _). by rewrite Hw. Qed.

Lemma onWindowClosed_consistent this :
  triple consistent (EditorPanel._onWindowClosed this)
         (fun _ W => consistent W /\ hosts_nothing this W) consistent.
Proof.
  assert (Hk : keeps consistent (EditorPanel._onWindowClosed this)).
  { unfold EditorPanel._onWindowClosed. consistent. }
  intros W HW. specialize (Hk W HW).
  pose proof (onWindowClosed_loop_undocks this (obj_keys (_panel2windows W)) W) as Hloop.
  assert (Hclosed : hosts_nothing this (exec (EditorPanel._onWindowClosed this) W)).
  { intros p. apply Hloop. intros q Hq. apply docked_get in Hq. by eapply obj_get_Some_key. }
  unfold exec in Hclosed.
  by destruct (EditorPanel._onWindowClosed this W) as [[[]|err] W'].
Qed.

Lemma removeWindow_consistent this :
  triple (fun W => consistent W /\ hosts_nothing this W) (EditorWindow.removeWindow this)
         (fun _ W => consistent W /\ this ∉ _windows W) consistent.
Proof.
  intros W [HW Hn]. unfold EditorWindow.removeWindow, bind, read.
  case_bool_decide as Hin.
  - cbn. rewrite splice_first_filter by apply HW. split; [split|]; wsimpl.
    + apply NoDup_filter, HW.
    + intros w Hw. apply list_elem_of_filter in Hw as [_ Hw].
      destruct (registered_live W HW w Hw) as (win & bw & ?). by exists win, bw.
    + intros p w Hd. apply list_elem_of_filter. split.
      * intros ->. by apply (Hn p).
      * by apply (docked_registered W HW p).
    + intros Hw. by apply list_elem_of_filter in Hw as [? _].
  - unfold deref. destruct (heap W !! this) as [o|]; [|done]. cbn. split; [|done].
    eapply consistent_frame; [done|]. by repeat split.
Qed.

Lemma dispose_consistent this :
  triple (fun W => consistent W /\ this ∉ _windows W) (EditorWindow.dispose this)
         (fun _ => consistent) consistent.
Proof.
  intros W [HW Hn]. cbn. split; wsimpl; [apply HW| |apply HW].
  intros w Hw. destruct (registered_live W HW w Hw) as (win & bw & Hh & ?).
  exists win, bw. wsimpl. rewrite list_lookup_alter_ne; [done|].
  by intros ->.
Qed.

Lemma on_closed_consistent this : keeps consistent (NativeEvents.on_closed this).
Proof.
  unfold NativeEvents.on_closed.
  eapply triple_bind; [apply onWindowClosed_consistent|]. intros [].
  eapply triple_bind; [apply (steady_under (hosts_nothing this)); [apply hosts_nothing_frame|steady]|].
  intros win.
  eapply triple_bind; [apply (steady_under (hosts_nothing this)); [apply hosts_nothing_frame|steady]|].
  intros [].
  eapply triple_bind; [apply (steady_under (hosts_nothing this)); [apply hosts_nothing_frame|steady]|].
  intros [].
  eapply triple_bind; [apply (steady_under (hosts_nothing this)); [apply hosts_nothing_frame|steady]|].
  intros main.
  eapply (triple_bind _ _ _ (fun _ W => consistent W /\ this ∉ _windows W));
    [|intros []; apply dispose_consistent].
  destruct main; [|apply removeWindow_consistent].
  eapply triple_bind; [apply removeWindow_consistent|]. intros [].
  eapply triple_bind;
    [apply (steady_under (fun W => this ∉ _windows W)); [apply unregistered_frame|steady]|].
  intros [].
  apply (steady_under (fun W => this ∉ _windows W)); [apply unregistered_frame|steady].
Qed.

Lemma handle_consistent panelInfo e : keeps consistent (handle panelInfo e).
Proof.
  destruct e; cbn [handle].
  - apply steady_keeps, sendreq2page_reply_steady.
  - apply window_open_consistent.
  - apply steady_keeps, window_load_steady.
  - apply steady_keeps, panel_ready_steady.
  - apply open_consistent.
  - apply panel_dock_consistent.
  - apply close_panel_consistent.
  - apply steady_keeps, on_close_steady.
  - apply on_closed_consistent.
  - apply steady_keeps. unfold WebContentsEvents.on_did_finish_load. steady.
  - eapply triple_bind; [apply new_consistent|]. by intros w W [].
  - apply steady_keeps, show_steady.
  - apply steady_keeps, focus_steady.
  - apply steady_keeps, close_steady.
  - apply steady_keeps, load_steady.
  - apply steady_keeps, sendToPage_steady.
  - apply steady_keeps. steady.
  - apply steady_keeps, cancelRequestToPage_steady.
  - apply open_consistent.
  - apply close_panel_consistent.
  - apply closeAll_consistent.
Qed.

Lemma run_consistent panelInfo es W :
  consistent W -> consistent (run panelInfo es W).
Proof.
  revert W. induction es as [|e es IH]; intros W HW; cbn [run]; [done|].
  apply IH. by apply (triple_exec _ _ _ _ (handle_consistent panelInfo e)).
Qed.

Lemma empty_world_consistent : consistent empty_world.
Proof.
  split; cbn.
  - constructor.
  - intros w Hw. by apply elem_of_nil in Hw.
  - intros p w. unfold docked. cbn. done.
Qed.

(** ** Finding a registered window *)

Lemma find_loop_first test ws W :
  Forall (fun w => is_Some (heap W !! w)) ws ->
  exists r,
    Windows.find_loop test ws W = (Return r, W)
    /\ match r with
       | Some w =>
           exists i o,
             ws !! i = Some w /\ heap W !! w = Some o /\ test w o = true
             /\ forall j w' o', (j < i)%nat -> ws !! j = Some w' ->
                                heap W !! w' = Some o' -> test w' o' = false
       | None =>
           forall w o, w ∈ ws -> heap W !! w = Some o -> test w o = false
       end.
Proof.
  induction 1 as [|w ws [o Ho] _ (r & Hr & Hspec)]; cbn [Windows.find_loop].
  - exists None. split; [done|]. intros w o Hw. by apply elem_of_nil in Hw.
  - unfold bind, deref. rewrite Ho. destruct (test w o) eqn:Ht.
    + exists (Some w). split; [done|]. exists 0%nat, o. repeat split; try done.
      intros j w' o' Hj. lia.
    + exists r. split; [done|]. destruct r as [w1|].
      * destruct Hspec as (i & o1 & Hi & Ho1 & Ht1 & Hbefore).
        exists (S i), o1. repeat split; try done.
        intros [|j] w' o' Hj Hw' Ho'.
        -- cbn in Hw'. injection Hw' as <-. congruence.
        -- apply (Hbefore j w' o'); [lia|done|done].
      * intros w' o' Hw' Ho'. apply elem_of_cons in Hw' as [->|Hw'].
        -- congruence.
        -- by apply (Hspec w' o').
Qed.

(** X1.  [Editor.Window.find(name)] goes through the registered windows in
    the order they were created and returns the first whose name is the
    string asked for, so the oldest of several windows of one name; it
    returns [null] exactly when no registered window has that name.  It
    changes nothing. *)
Theorem find_by_name_returns_first_registered (W : World) (s : string) :
  registered_in_heap_all W ->
  exists r,
    Windows.find (Windows.Name s) W = (Return r, W)
    /\ match r with
       | Some w =>
           exists i o,
             _windows W !! i = Some w /\ heap W !! w = Some o /\ name o = s
             /\ forall j w' o', (j < i)%nat -> _windows W !! j = Some w' ->
                                heap W !! w' = Some o' -> name o' <> s
       | None =>
           forall w o, w ∈ _windows W -> heap W !! w = Some o -> name o <> s
       end.
Proof.
  intros Hreg. unfold Windows.find, bind, read.
  destruct (find_loop_first (Windows.named s) (_windows W) W Hreg) as (r & -> & Hspec).
  exists r. split; [done|]. destruct r as [w|].
  - destruct Hspec as (i & o & Hi & Ho & Ht & Hbefore). exists i, o.
    repeat split; try done.
    + by apply bool_decide_eq_true in Ht.
    + intros j w' o' Hj Hw' Ho'. specialize (Hbefore j w' o' Hj Hw' Ho').
      by apply bool_decide_eq_false in Hbefore.
  - intros w o Hw Ho. specialize (Hspec w o Hw Ho).
    by apply bool_decide_eq_false in Hspec.
Qed.

(** The window that hosts [foo.bar] is found by its name. *)
Lemma find_by_name_returns_first_registered_witness :
  registered_in_heap_all foo_bar_open
  /\ exists r,
       Windows.find (Windows.Name "editor-window-0") foo_bar_open = (Return r, foo_bar_open)
       /\ match r with
          | Some w =>
              exists i o,
                _windows foo_bar_open !! i = Some w /\ heap foo_bar_open !! w = Some o
                /\ name o = "editor-window-0"
                /\ forall j w' o', (j < i)%nat -> _windows foo_bar_open !! j = Some w' ->
                                   heap foo_bar_open !! w' = Some o' ->
                                   name o' <> "editor-window-0"
          | None =>
              forall w o, w ∈ _windows foo_bar_open -> heap foo_bar_open !! w = Some o ->
                          name o <> "editor-window-0"
          end.
Proof.
  assert (H : registered_in_heap_all foo_bar_open) by (repeat econstructor).
  split; [exact H|].
  exact (find_by_name_returns_first_registered foo_bar_open "editor-window-0" H).
Defined.

(** X2.  [Editor.Window.find] given a native window (or web contents whose
    native window it is) returns the registered [EditorWindow] that created
    that native window and still holds it, and [null] for any other native
    window: one created elsewhere, or one whose [EditorWindow] is no longer
    registered or is disposed.  It changes nothing. *)
Theorem find_by_native_window_returns_its_owner (W : World) (bw : native_window) :
  registered_in_heap_all W ->
  exists r,
    Windows.find (Windows.Native bw) W = (Return r, W)
    /\ Windows.find (Windows.WebContents (Some bw)) W = (Return r, W)
    /\ Windows.find (Windows.WebContents None) W = (Return None, W)
    /\ forall w,
         r = Some w <->
         bw = CreatedBy w /\ w ∈ _windows W
         /\ exists o, heap W !! w = Some o /\ is_Some (nativeWin o).
Proof.
  intros Hreg. unfold Windows.find, bind, read.
  destruct (find_loop_first (Windows.has_native bw) (_windows W) W Hreg) as (r & -> & Hspec).
  exists r. do 3 (split; [done|]). intros w. split.
  - intros ->. destruct Hspec as (i & o & Hi & Ho & Ht & _).
    apply bool_decide_eq_true in Ht as [Hn ->].
    split; [done|]. split; [by eapply list_elem_of_lookup_2|by exists o].
  - intros (-> & Hw & o & Ho & Hn). destruct r as [w'|].
    + destruct Hspec as (i & o' & _ & _ & Ht & _).
      apply bool_decide_eq_true in Ht as [_ [= ->]]. done.
    + specialize (Hspec w o Hw Ho). apply bool_decide_eq_false in Hspec.
      by destruct Hspec.
Qed.

(** The native window of window 0 leads back to window 0. *)
Lemma find_by_native_window_returns_its_owner_witness :
  registered_in_heap_all foo_bar_open
  /\ exists r,
       Windows.find (Windows.Native (CreatedBy 0)) foo_bar_open = (Return r, foo_bar_open)
       /\ Windows.find (Windows.WebContents (Some (CreatedBy 0))) foo_bar_open
          = (Return r, foo_bar_open)
       /\ Windows.find (Windows.WebContents None) foo_bar_open = (Return None, foo_bar_open)
       /\ forall w,
            r = Some w <->
            CreatedBy 0 = CreatedBy w /\ w ∈ _windows foo_bar_open
            /\ exists o, heap foo_bar_open !! w = Some o /\ is_Some (nativeWin o).
Proof.
  assert (H : registered_in_heap_all foo_bar_open) by (repeat econstructor).
  split; [exact H|].
  exact (find_by_native_window_returns_its_owner foo_bar_open (CreatedBy 0) H).
Defined.

Lemma first_where_app {A} (test : A -> bool) l1 l2 :
  first_where test (l1 ++ l2)
  = match first_where test l1 with Some x => Some x | None => first_where test l2 end.
Proof. induction l1 as [|x l1 IH]; cbn; [done|]. by destruct (test x). Qed.

Lemma first_where_ext {A} (test test' : A -> bool) l :
  Forall (fun x => test x = test' x) l -> first_where test l = first_where test' l.
Proof. induction 1 as [|x l Hx _ IH]; cbn; [done|]. by rewrite Hx, IH. Qed.

Lemma find_loop_first_where test ws W :
  Forall (fun w => is_Some (heap W !! w)) ws ->
  Windows.find_loop test ws W = (Return (first_where (passes W test) ws), W).
Proof.
  induction 1 as [|w ws [o Ho] _ IH]; cbn [Windows.find_loop first_where]; [done|].
  unfold bind, deref, passes at 1. rewrite Ho. by destruct (test w o).
Qed.

Lemma passes_older W W' win test ws :
  heap W' = heap W ++ [win] ->
  Forall (fun w => is_Some (heap W !! w)) ws ->
  Forall (fun w => passes W' test w = passes W test w) ws.
Proof.
  intros Hh Hf. eapply Forall_impl; [exact Hf|]. intros w [o Ho]. unfold passes.
  by rewrite Hh, lookup_app_l by (by eapply lookup_lt_Some).
Qed.

(** X3.  A window just built by [new EditorWindow(name, options)] is found
    at once by its native window; by its name it is found unless an older
    registered window has the same name, in which case [find] goes on
    returning the older one. *)
Theorem new_window_is_found (W : World) (nm : string) (options : Options) :
  registered_in_heap_all W ->
  let w := length (heap W) in
  let W' := exec (EditorWindow.new nm options) W in
  outcome (EditorWindow.new nm options) W = Return w
  /\ _windows W' = _windows W ++ [w]
  /\ Windows.find (Windows.Native (CreatedBy w)) W' = (Return (Some w), W')
  /\ exists older,
       Windows.find (Windows.Name nm) W = (Return older, W)
       /\ Windows.find (Windows.Name nm) W' = (Return (Some (default w older)), W').
Proof.
  intros Hreg w W'. subst w W'. unfold exec, outcome.
  destruct (new_spec nm options W)
    as (win & evs & W' & -> & Hh & Hws & _ & _ & _ & _ & _ & Hnm & (bw & Hn & _) & _).
  cbn [fst snd]. split; [done|]. split; [done|].
  assert (Hreg' : Forall (fun w => is_Some (heap W' !! w)) (_windows W ++ [length (heap W)])).
  { apply Forall_app. split.
    - eapply Forall_impl; [exact Hreg|]. intros w [o Ho]. exists o.
      by rewrite Hh, lookup_app_l by (by eapply lookup_lt_Some).
    - apply Forall_singleton. exists win. by rewrite Hh, list_lookup_middle. }
  assert (Hnew : heap W' !! length (heap W) = Some win) by (by rewrite Hh, list_lookup_middle).
  unfold Windows.find, bind, read. rewrite Hws.
  rewrite !(find_loop_first_where _ _ W') by done.
  rewrite (find_loop_first_where _ _ W) by done.
  rewrite !first_where_app.
  rewrite !(first_where_ext (passes W' _) (passes W _) (_windows W))
    by (by eapply passes_older).
  split.
  - replace (first_where (passes W (Windows.has_native (CreatedBy (length (heap W)))))
                         (_windows W)) with (@None nat).
    + cbn. unfold passes. rewrite Hnew. unfold Windows.has_native.
      rewrite bool_decide_true; [done|]. split; [by rewrite Hn|done].
    + symmetry. clear -Hreg. unfold registered_in_heap_all in Hreg.
      induction Hreg as [|w ws [o Ho] _ IH]; cbn; [done|].
      unfold passes at 1. rewrite Ho. unfold Windows.has_native at 1.
      rewrite bool_decide_false; [exact IH|].
      intros [_ [= <-]]. apply lookup_lt_Some in Ho. lia.
  - eexists. split; [reflexivity|].
    destruct (first_where _ (_windows W)) as [w0|]; [done|].
    cbn. unfold passes. rewrite Hnew. unfold Windows.named.
    by rewrite bool_decide_true.
Qed.

(** Two windows of one name: [find] by name returns the first. *)
Lemma new_window_is_found_witness :
  registered_in_heap_all foo_bar_open
  /\ Windows.find (Windows.Name "editor-window-0")
       (exec (EditorWindow.new "editor-window-0" no_options) foo_bar_open)
     = (Return (Some 0), exec (EditorWindow.new "editor-window-0" no_options) foo_bar_open)
  /\ Windows.find (Windows.Native (CreatedBy 1))
       (exec (EditorWindow.new "editor-window-0" no_options) foo_bar_open)
     = (Return (Some 1), exec (EditorWindow.new "editor-window-0" no_options) foo_bar_open).
Proof.
  assert (H : registered_in_heap_all foo_bar_open) by (repeat econstructor).
  split; [exact H|].
  destruct (new_window_is_found foo_bar_open "editor-window-0" no_options H)
    as (_ & _ & Hnative & older & Hold & Hname).
  split; [|exact Hnative].
  rewrite Hname. vm_compute in Hold. by injection Hold as <-.
Defined.

(** ** The [closed] event *)





Lemma exec_bind {A B} (m : M A) (k : A -> M B) W a W1 :
  m W = (Return a, W1) -> exec (bind m k) W = exec (k a) W1.
Proof. intros Hm. unfold exec, bind. by rewrite Hm. Qed.





Lemma find_native_spec W bw :
  registered_in_heap_all W ->
  exists r,
    Windows.find (Windows.Native bw) W = (Return r, W)
    /\ forall w, r = Some w <-> owner_of W bw w.
Proof.
  intros Hreg. unfold Windows.find, bind, read.
  destruct (find_loop_first (Windows.has_native bw) (_windows W) W Hreg) as (r & -> & Hspec).
  exists r. split; [done|]. intros w. split.
  - intros ->. destruct Hspec as (i & o & Hi & Ho & Ht & _).
    apply bool_decide_eq_true in Ht as [Hn ->].
    split; [done|]. split; [by eapply list_elem_of_lookup_2|by exists o].
  - intros (-> & Hw & o & Ho & Hn). destruct r as [w'|].
    + destruct Hspec as (i & o' & _ & _ & Ht & _).
      apply bool_decide_eq_true in Ht as [_ [= ->]]. done.
    + specialize (Hspec w o Hw Ho). apply bool_decide_eq_false in Hspec.
      by destruct Hspec.
Qed.

(** ** Messages from the pages *)

(** X5.  A reply to a request ([editor:sendreq2page:reply]) is handed to
    [_reply] of the registered window whose native window sent it, and of no
    other; a reply whose sender has no registered window that still holds
    its native window (a window already closed, say) is dropped with a
    warning: no callback is called and nothing else changes. *)
Theorem reply_reaches_only_the_senders_window
    (W : World) (sender : native_window) (sessionId : Z) (args : list value) :
  registered_in_heap_all W ->
  (forall w, owner_of W sender w ->
     Ipc.sendreq2page_reply sender sessionId args W
     = EditorWindow._reply w sessionId args W)
  /\ ((forall w, ~ owner_of W sender w) ->
      Ipc.sendreq2page_reply sender sessionId args W
      = (Return tt,
         with_log (log W ++ [EditorWarn
           [Str "editor:sendreq2page:reply failed: Can not find the window."]]) W)).
Proof.
  intros Hreg. destruct (find_native_spec W sender Hreg) as (r & Hfind & Hr).
  unfold Ipc.sendreq2page_reply, bind. rewrite Hfind. split.
  - intros w Hw. apply Hr in Hw. by subst r.
  - intros Hnone. destruct r as [w|]; [|done]. destruct (Hnone w). by apply Hr.
Qed.

(** A reply from the page of window 0 after that window was closed. *)
Lemma reply_reaches_only_the_senders_window_witness :
  let W := exec (NativeEvents.on_closed 0) foo_bar_open in
  registered_in_heap_all W
  /\ Ipc.sendreq2page_reply (CreatedBy 0) 0 [] W
     = (Return tt,
        with_log (log W ++ [EditorWarn
          [Str "editor:sendreq2page:reply failed: Can not find the window."]]) W).
Proof.
  assert (H : registered_in_heap_all (exec (NativeEvents.on_closed 0) foo_bar_open))
    by (vm_compute; constructor).
  split; [exact H|].
  apply (proj2 (reply_reaches_only_the_senders_window _ (CreatedBy 0) 0 [] H)).
  intros w (_ & Hw & _). vm_compute in Hw. by apply elem_of_nil in Hw.
Defined.

(** X6.  [panel:dock] records the sender's editor window as the window of
    the panel, whatever window the panel was docked in before: that window
    is not told, nothing is sent or logged, and no other panel's entry
    changes.  When the sender has no registered editor window, the entry
    becomes [null] and the panel is docked nowhere. *)
Theorem panel_dock_records_the_senders_window
    (W : World) (sender : native_window) (panelID : string) :
  registered_in_heap_all W ->
  exists r,
    (forall w, r = Some w <-> owner_of W sender w)
    /\ Ipc.panel_dock sender panelID W
       = (Return tt, with_panel2windows (obj_set (_panel2windows W) panelID r) W)
    /\ let W' := exec (Ipc.panel_dock sender panelID) W in
       outcome (EditorPanel.findWindow panelID) W' = Return r
       /\ (forall other, other <> panelID ->
             outcome (EditorPanel.findWindow other) W'
             = outcome (EditorPanel.findWindow other) W)
       /\ since W W' = [].
Proof.
  intros Hreg. destruct (find_native_spec W sender Hreg) as (r & Hfind & Hr).
  exists r. split; [done|].
  assert (Hrun : Ipc.panel_dock sender panelID W
                 = (Return tt, with_panel2windows (obj_set (_panel2windows W) panelID r) W)).
  { unfold Ipc.panel_dock, bind. by rewrite Hfind. }
  split; [done|]. unfold exec. rewrite Hrun. cbn [snd].
  unfold outcome, EditorPanel.findWindow, read, since. wsimpl. repeat split.
  - by rewrite obj_get_set, decide_True.
  - intros other Hne. by rewrite obj_get_set, decide_False.
  - by rewrite drop_all.
Qed.

(** [foo.bar] docked again, from a native window that is no editor window:
    it is docked nowhere afterwards. *)
Lemma panel_dock_records_the_senders_window_witness :
  registered_in_heap_all foo_bar_open
  /\ docked foo_bar_open "foo.bar" 0
  /\ outcome (EditorPanel.findWindow "foo.bar")
             (exec (Ipc.panel_dock Elsewhere "foo.bar") foo_bar_open) = Return None.
Proof.
  assert (H : registered_in_heap_all foo_bar_open) by (repeat econstructor).
  split; [exact H|]. split; [reflexivity|].
  destruct (panel_dock_records_the_senders_window foo_bar_open Elsewhere "foo.bar" H)
    as (r & Hr & _ & Hfound & _).
  rewrite Hfound. destruct r as [w|]; [|reflexivity].
  destruct (proj1 (Hr w) eq_refl) as [Hbad _]. discriminate Hbad.
Defined.

(** ** The cached [argv] of a panel *)

#[local] Instance same_argv_preorder panelID : PreOrder (same_argv panelID).
Proof. split; unfold same_argv; [by intros W|intros W1 W2 W3; congruence]. Qed.

Lemma pure_respects (R : relation World) `{!Reflexive R} {A} (m : M A) :
  (forall W, exec m W = W) -> respects R m.
Proof. intros Hm W. by rewrite Hm. Qed.

Ltac argv_leaf :=
  first [ done
        | by (unfold same_argv; wsimpl; rewrite obj_get_set, decide_False) ].

(** Every function but the loop of [find], unfolded. *)
Ltac open_code :=
  unfold Process.handle, Ipc.sendreq2page_reply, Ipc.window_open, Ipc.window_load,
    Ipc.panel_ready, Ipc.panel_open, Ipc.panel_dock, Ipc.panel_close,
    NativeEvents.on_close, NativeEvents.on_closed,
    WebContentsEvents.on_did_finish_load, EditorPanel.open, EditorPanel.close, EditorPanel.closeAll, EditorPanel.findPanels,
    EditorPanel._onWindowClose, EditorPanel._onWindowClosed, EditorPanel._undock,
    EditorPanel._dock, EditorPanel._saveLayout, EditorPanel.loadProfile,
    EditorPanel.findWindow, Windows.find,
    EditorWindow.new, EditorWindow.addWindow, EditorWindow.removeWindow,
    EditorWindow.dispose, EditorWindow.show, EditorWindow.focus, EditorWindow.close,
    EditorWindow.load, EditorWindow.isMainWindow, EditorWindow.sendRequestToPage,
    EditorWindow.cancelRequestToPage, EditorWindow._reply, EditorWindow.sendToPage.

Lemma find_loop_same_argv panelID test ws :
  respects (same_argv panelID) (Windows.find_loop test ws).
Proof. apply pure_respects; [apply _|]. apply find_loop_pure. Qed.

#[local] Hint Resolve find_loop_same_argv : respects.

Lemma handle_same_argv panelInfo panelID e :
  opens panelID e = false -> respects (same_argv panelID) (handle panelInfo e).
Proof.
  intros Hopen.
  destruct e; cbn [opens] in Hopen; try apply bool_decide_eq_false in Hopen;
    repeat progress open_code; respects_with argv_leaf.
Qed.

Lemma run_same_argv panelInfo panelID es W :
  Forall (fun e => opens panelID e = false) es ->
  same_argv panelID W (run panelInfo es W).
Proof.
  intros Hes. revert W. induction Hes as [|e es He _ IH]; intros W; cbn [run]; [done|].
  etrans; [apply (handle_same_argv panelInfo panelID e He)|apply IH].
Qed.

Lemma open_caches_argv panelInfo panelID argv W :
  is_Some (panelInfo panelID) ->
  obj_get (_panel2argv (exec (EditorPanel.open panelInfo panelID argv) W)) panelID = Some argv.
Proof.
  intros [info Hinfo]. unfold EditorPanel.open. rewrite Hinfo.
  erewrite exec_bind by reflexivity.
  match goal with |- obj_get (_panel2argv (exec ?m ?W1)) _ = _ =>
    assert (Hrest : respects (same_argv panelID) m) end.
  { repeat progress open_code. respects_with argv_leaf. }
  rewrite (Hrest _). wsimpl. by rewrite obj_get_set, decide_True.
Qed.

(** X7.  [Editor.Panel.open] caches the [argv] it is given for a panel the
    package registry knows, and nothing but another [open] of the same panel
    ever writes or removes that entry: whatever happens in between (the
    panel or its window closed, other panels opened, messages, requests),
    [panel:ready] for the panel sends it [panel:run] with the [argv] of the
    last [open]. *)
Theorem panel_ready_delivers_argv_of_last_open
    (panelInfo : string -> option PanelInfo) (W : World)
    (panelID : string) (argv : value) (es : list event) :
  is_Some (panelInfo panelID) ->
  Forall (fun e => opens panelID e = false) es ->
  let W' := run panelInfo es (exec (EditorPanel.open panelInfo panelID argv) W) in
  Ipc.panel_ready panelID W'
  = (Return tt, with_log (log W' ++ [SendToPanel panelID "panel:run" argv]) W').
Proof.
  intros Hinfo Hes W'. unfold Ipc.panel_ready, bind, read, emit.
  assert (Hget : obj_get (_panel2argv W') panelID = Some argv).
  { subst W'. rewrite (run_same_argv panelInfo panelID es _ Hes).
    by apply open_caches_argv. }
  by rewrite Hget.
Qed.

(** [foo.bar] opened with an [argv], closed, its window closed: [panel:ready]
    still delivers that [argv]. *)
Lemma panel_ready_delivers_argv_of_last_open_witness :
  is_Some (foo_bar_only "foo.bar")
  /\ Forall (fun e => opens "foo.bar" e = false) [PanelClose "foo.bar"; ClosedEvent 0]
  /\ Ipc.panel_ready "foo.bar" foo_bar_closed
     = (Return tt,
        with_log (log foo_bar_closed ++ [SendToPanel "foo.bar" "panel:run" (Str "scene")])
                 foo_bar_closed).
Proof.
  assert (H1 : is_Some (foo_bar_only "foo.bar")) by (by eexists).
  assert (H2 : Forall (fun e => opens "foo.bar" e = false) [PanelClose "foo.bar"; ClosedEvent 0])
    by (repeat constructor).
  split; [exact H1|]. split; [exact H2|].
  exact (panel_ready_delivers_argv_of_last_open foo_bar_only empty_world "foo.bar"
           (Str "scene") _ H1 H2).
Defined.

(** ** Consistency of the registry *)

(** X8.  Started in a consistent world, the main process stays in one
    whatever messages, window events and calls it handles, in any order and
    also when a handler throws: no window is registered twice, every
    registered window has its native window and web contents, and every
    panel that is docked is docked in such a window. *)
Theorem docked_windows_stay_registered_and_live
    (panelInfo : string -> option PanelInfo) (W : World) (es : list event) :
  consistent W ->
  let W' := run panelInfo es W in
  NoDup (_windows W')
  /\ (forall w, w ∈ _windows W' -> live W' w)
  /\ (forall panelID w, docked W' panelID w -> w ∈ _windows W' /\ live W' w).
Proof.
  intros HW W'. pose proof (run_consistent panelInfo es W HW) as [Hnd Hlive Hdock].
  fold W' in Hnd, Hlive, Hdock. split; [done|]. split; [done|].
  intros panelID w Hd. split; [by eapply Hdock|]. eapply Hlive, Hdock, Hd.
Qed.

(** From nothing: two panels opened (one unknown to the registry), a window
    opened, the first window closed. *)
Lemma docked_windows_stay_registered_and_live_witness :
  consistent empty_world
  /\ NoDup (_windows (run foo_bar_only
       [PanelOpen "foo.bar" Undefined; PanelOpen "foo.baz" Undefined;
        IpcWindowOpen "tools" "app://tools.html" None; ClosedEvent 0] empty_world)).
Proof.
  split; [exact empty_world_consistent|].
  exact (proj1 (docked_windows_stay_registered_and_live foo_bar_only empty_world
    [PanelOpen "foo.bar" Undefined; PanelOpen "foo.baz" Undefined;
     IpcWindowOpen "tools" "app://tools.html" None; ClosedEvent 0]
    empty_world_consistent)).
Defined.

(** ** Opening a panel that is not docked *)

(** Projections of an instance out of the instance setters. *)
Ltac isimpl :=
  cbn [name hideWhenBlur windowType save _loaded _nextSessionId _replyCallbacks
       nativeWin set_loaded set_nextSessionId set_replyCallbacks set_nativeWin
       bw_options bw_webContents].

Ltac crunch :=
  repeat (progress (isimpl; wsimpl; cbn [fmap option_fmap option_map];
                    rewrite ?list_lookup_alter_eq, ?list_lookup_middle by done)).

Lemma World_eq W1 W2 :
  heap W1 = heap W2 -> _windows W1 = _windows W2 -> mainWindow W1 = mainWindow W2 ->
  _panel2windows W1 = _panel2windows W2 -> _panel2argv W1 = _panel2argv W2 ->
  profiles W1 = profiles W2 -> now W1 = now W2 -> url W1 = url W2 ->
  getPosition W1 = getPosition W2 -> getContentSize W1 = getContentSize W2 ->
  throws W1 = throws W2 -> log W1 = log W2 -> W1 = W2.
Proof. destruct W1, W2; cbn; intros; by subst. Qed.

Lemma new_world nm options W :
  let w := length (heap W) in
  let win := mkWindow nm (constructed options).2
               (default "dockable" (opt_windowType (EditorWindow.defaults options)))
               (default true (opt_save (EditorWindow.defaults options))) false 0 []
               (Some (mkBrowserWindow (constructed options).1 true)) in
  EditorWindow.new nm options W
  = (Return w,
     with_windows (_windows W ++ [w])
       (with_log (log W ++ NewBrowserWindow w (constructed options).1
                    :: (if (constructed options).2 then [SetAlwaysOnTop w true] else []))
          (with_heap (heap W ++ [win]) W))).
Proof.
  unfold EditorWindow.new, constructed.
  destruct (EditorWindow.switch_windowType _ _) as [o hide].
  unfold EditorWindow.addWindow. run_js.
  destruct hide; run_js; destruct W; cbn; by rewrite <- ?app_assoc.
Qed.

Lemma open_undocked panelInfo W panelID argv info :
  panelInfo panelID = Some info ->
  mjoin (obj_get (_panel2windows W) panelID) = None ->
  let w := length (heap W) in
  let options :=
    EditorPanel.windowOptions info
      (default (mkLayoutProfile None None None None)
               (obj_get (profiles W) ("layout." +:+ panelID))) in
  let win := mkWindow ("editor-window-" +:+ pretty (now W)) (constructed options).2
               (default "dockable" (opt_windowType (EditorWindow.defaults options)))
               (default true (opt_save (EditorWindow.defaults options))) false 0 []
               (Some (mkBrowserWindow (constructed options).1 true)) in
  let page := panel_page info panelID argv in
  EditorPanel.open panelInfo panelID argv W
  = (Return tt,
     with_log (log W ++ NewBrowserWindow w (constructed options).1
                 :: (if (constructed options).2 then [SetAlwaysOnTop w true] else [])
                 ++ [SetContentSize w (opt_width options) (opt_height options);
                     SetMenuBarVisibility w false;
                     match url W page.1 with
                     | Some resultUrl => LoadPage w resultUrl page.2
                     | None =>
                         EditorError [Str "Failed to load page "; Str page.1;
                                      Str (" for window " +:+ EditorWindow.dquote);
                                      Str ("editor-window-" +:+ pretty (now W));
                                      Str EditorWindow.dquote]
                     end;
                     NativeFocus w])
       (with_panel2windows (obj_set (_panel2windows W) panelID (Some w))
          (with_panel2argv (obj_set (_panel2argv W) panelID argv)
             (with_windows (_windows W ++ [w])
                (with_heap (heap W ++ [win]) W))))).
Proof.
  intros Hinfo Hnone w options win page.
  unfold EditorPanel.open. rewrite Hinfo.
  unfold bind at 1. unfold modify at 1.
  unfold bind at 1. unfold EditorPanel.findWindow at 1, read at 1. wsimpl. rewrite Hnone.
  unfold bind at 1. unfold read at 1. wsimpl.
  unfold bind at 1. unfold EditorPanel.loadProfile at 1, read at 1. wsimpl.
  unfold bind at 1. rewrite new_world. wsimpl. fold options. fold w.
  unfold EditorPanel._dock, EditorWindow.load, EditorWindow.focus, panel_page in *.
  run_js. rewrite !list_lookup_middle by done. wsimpl.
  subst page. 
  destruct (decide (pi_type info = Some "simple")); crunch;
    (destruct (url W _) eqn:Hurl; crunch; rewrite ?Hurl;
     f_equal; apply World_eq; wsimpl; try done).
  all: try (subst w; rewrite <- (Nat.add_0_r (length (heap W))), alter_app_r; done).
  all: rewrite <- ?app_assoc; try done.
Qed.

(** X9.  [Editor.Panel.open] for a panel the package registry knows and
    that is docked nowhere builds one window, named after the time, of the
    panel's type ([dockable] when it gives none), registers it last, docks
    the panel in it and caches [argv]; it then sets the content size, hides
    the menu bar, loads the page (the panel's own frame with [argv] for a
    [simple] panel, the window template with the panel identifier
    otherwise; an error is logged instead when the URL does not resolve) and
    focuses the window.  No other panel's dock entry changes. *)
Theorem open_undocked_panel_builds_its_window
    (panelInfo : string -> option PanelInfo) (W : World)
    (panelID : string) (argv : value) (info : PanelInfo) :
  panelInfo panelID = Some info ->
  mjoin (obj_get (_panel2windows W) panelID) = None ->
  let w := length (heap W) in
  let W' := exec (EditorPanel.open panelInfo panelID argv) W in
  let options := EditorPanel.windowOptions info (saved_layout W panelID) in
  let page := panel_page info panelID argv in
  outcome (EditorPanel.open panelInfo panelID argv) W = Return tt
  /\ _windows W' = _windows W ++ [w]
  /\ (exists win,
        heap W' = heap W ++ [win]
        /\ name win = "editor-window-" +:+ pretty (now W)
        /\ windowType win = default "dockable" (opt_windowType options)
        /\ _loaded win = false)
  /\ docked W' panelID w
  /\ live W' w
  /\ (forall other, other <> panelID ->
        obj_get (_panel2windows W') other = obj_get (_panel2windows W) other)
  /\ obj_get (_panel2argv W') panelID = Some argv
  /\ exists created,
       Forall (fun e => (exists o, e = NewBrowserWindow w o) \/ e = SetAlwaysOnTop w true)
              created
       /\ since W W'
          = created
            ++ [SetContentSize w (opt_width options) (opt_height options);
                SetMenuBarVisibility w false;
                match url W page.1 with
                | Some resultUrl => LoadPage w resultUrl page.2
                | None =>
                    EditorError [Str "Failed to load page "; Str page.1;
                                 Str (" for window " +:+ EditorWindow.dquote);
                                 Str ("editor-window-" +:+ pretty (now W));
                                 Str EditorWindow.dquote]
                end;
                NativeFocus w].
Proof.
  intros Hinfo Hnone w W' options page. subst W'. unfold exec, outcome.
  rewrite (open_undocked panelInfo W panelID argv info Hinfo Hnone).
  fold w. fold (saved_layout W panelID). fold options. fold page. wsimpl.
  split; [done|]. split; [done|]. split.
  { eexists. split; [reflexivity|]. isimpl. repeat split; done. }
  split; [unfold docked; wsimpl; by rewrite obj_get_set, decide_True|].
  split.
  { eexists _, _. wsimpl. split; [by apply list_lookup_middle|]. by isimpl. }
  split; [intros other Hne; by rewrite obj_get_set, decide_False|].
  split; [by rewrite obj_get_set, decide_True|].
  exists (NewBrowserWindow w (constructed options).1
            :: (if (constructed options).2 then [SetAlwaysOnTop w true] else [])).
  split.
  - constructor; [left; by eexists|].
    destruct (constructed options).2; [apply Forall_singleton; by right|constructor].
  - apply since_app. wsimpl. done.
Qed.

(** [foo.bar] opened from nothing. *)
Lemma open_undocked_panel_builds_its_window_witness :
  foo_bar_only "foo.bar" = Some (mkPanelInfo None "" None None None None None None)
  /\ mjoin (obj_get (_panel2windows empty_world) "foo.bar") = None
  /\ docked (exec (EditorPanel.open foo_bar_only "foo.bar" Undefined) empty_world) "foo.bar" 0
  /\ live (exec (EditorPanel.open foo_bar_only "foo.bar" Undefined) empty_world) 0.
Proof.
  split; [reflexivity|]. split; [reflexivity|].
  destruct (open_undocked_panel_builds_its_window foo_bar_only empty_world "foo.bar"
              Undefined _ eq_refl eq_refl) as (_ & _ & _ & Hd & Hl & _).
  split; [exact Hd|exact Hl].
Defined.

Lemma constructed_keeps options :
  let o := (constructed options).1 in
  opt_x o = opt_x options /\ opt_y o = opt_y options
  /\ opt_width o = Some (default 400%Z (opt_width options))
  /\ opt_height o = Some (default 300%Z (opt_height options))
  /\ opt_minWidth o = opt_minWidth options /\ opt_minHeight o = opt_minHeight options
  /\ opt_maxWidth o = opt_maxWidth options /\ opt_maxHeight o = opt_maxHeight options
  /\ opt_useContentSize o = opt_useContentSize options.
Proof.
  unfold constructed, EditorWindow.switch_windowType.
  repeat case_decide; cbn; repeat split; done.
Qed.

Lemma or_else_saved field fallback n :
  field = Some n -> n <> 0%Z -> EditorPanel.or_else field fallback = Some n.
Proof.
  intros -> Hn. unfold EditorPanel.or_else, EditorPanel.truthy.
  by rewrite (proj2 (Z.eqb_neq n 0) Hn).
Qed.

Lemma or_else_missing field fallback :
  field = None \/ field = Some 0%Z -> EditorPanel.or_else field fallback = fallback.
Proof. by intros [-> | ->]. Qed.

(** X10.  The window [open] builds for a panel gets its geometry as
    follows.  Width and height are always numbers: those of the saved
    layout when they are there and not zero, else those of the package
    manifest, else 400; for a [fixed-size] panel always those of the
    manifest (or 400), whatever was saved.  The position is the saved one;
    a coordinate that is missing or zero is left to the window system.  The
    minimum size is the manifest's, or 200; and the size is the content
    size, which is set once more after the window is built. *)
Theorem open_gives_the_window_its_saved_geometry
    (panelInfo : string -> option PanelInfo) (W : World)
    (panelID : string) (argv : value) (info : PanelInfo) :
  panelInfo panelID = Some info ->
  mjoin (obj_get (_panel2windows W) panelID) = None ->
  let w := length (heap W) in
  let W' := exec (EditorPanel.open panelInfo panelID argv) W in
  let saved := saved_layout W panelID in
  let fixed := pi_type info = Some "fixed-size" in
  exists o,
    NewBrowserWindow w o ∈ since W W'
    /\ SetContentSize w (opt_width o) (opt_height o) ∈ since W W'
    /\ opt_useContentSize o = true
    /\ (fixed -> opt_width o = Some (default 400%Z (pi_width info))
                 /\ opt_height o = Some (default 400%Z (pi_height info)))
    /\ (~ fixed -> forall n, lp_width saved = Some n -> n <> 0%Z -> opt_width o = Some n)
    /\ (~ fixed -> forall n, lp_height saved = Some n -> n <> 0%Z -> opt_height o = Some n)
    /\ (lp_width saved = None \/ lp_width saved = Some 0%Z ->
        opt_width o = Some (default 400%Z (pi_width info)))
    /\ (lp_height saved = None \/ lp_height saved = Some 0%Z ->
        opt_height o = Some (default 400%Z (pi_height info)))
    /\ (forall n, lp_x saved = Some n -> n <> 0%Z -> opt_x o = Some n)
    /\ (forall n, lp_y saved = Some n -> n <> 0%Z -> opt_y o = Some n)
    /\ (lp_x saved = None \/ lp_x saved = Some 0%Z -> opt_x o = None)
    /\ (lp_y saved = None \/ lp_y saved = Some 0%Z -> opt_y o = None)
    /\ opt_minWidth o = Some (default 200%Z (pi_min_width info))
    /\ opt_minHeight o = Some (default 200%Z (pi_min_height info))
    /\ opt_maxWidth o = pi_max_width info
    /\ opt_maxHeight o = pi_max_height info.
Proof.
  intros Hinfo Hnone w W' saved fixed. subst W'. unfold exec.
  rewrite (open_undocked panelInfo W panelID argv info Hinfo Hnone).
  fold w. fold (saved_layout W panelID). fold saved.
  set (options := EditorPanel.windowOptions info saved).
  destruct (constructed_keeps options) as (Hx & Hy & Hw & Hh & Hmw & Hmh & HMw & HMh & Hcs).
  exists (constructed options).1. cbn [snd].
  erewrite since_app by (wsimpl; reflexivity).
  rewrite Hx, Hy, Hw, Hh, Hmw, Hmh, HMw, HMh, Hcs.
  split; [left|].
  subst options. unfold EditorPanel.windowOptions, EditorPanel.unless_NaN.
  cbn [opt_x opt_y opt_width opt_height opt_minWidth opt_minHeight opt_maxWidth
       opt_maxHeight opt_useContentSize default from_option id].
  split.
  { apply elem_of_cons. right. apply elem_of_app. right. left. }
  split; [done|].
  split. { intros Hf. by rewrite !bool_decide_true. }
  split. { intros Hf n Hn Hn0. rewrite bool_decide_false by done.
           by rewrite (or_else_saved _ _ n). }
  split. { intros Hf n Hn Hn0. rewrite bool_decide_false by done.
           by rewrite (or_else_saved _ _ n). }
  split. { intros Hn. case_bool_decide; [done|]. by rewrite or_else_missing. }
  split. { intros Hn. case_bool_decide; [done|]. by rewrite or_else_missing. }
  split. { intros n Hn Hn0. by apply or_else_saved. }
  split. { intros n Hn Hn0. by apply or_else_saved. }
  split. { intros Hn. by rewrite or_else_missing. }
  split. { intros Hn. by rewrite or_else_missing. }
  done.
Qed.

(** Opening [foo.bar] from nothing: no layout is saved, the manifest gives
    no size, and the window is 400 by 400. *)
Lemma open_gives_the_window_its_saved_geometry_witness :
  foo_bar_only "foo.bar" = Some (mkPanelInfo None "" None None None None None None)
  /\ mjoin (obj_get (_panel2windows empty_world) "foo.bar") = None
  /\ exists o,
       NewBrowserWindow 0 o
         ∈ since empty_world (exec (EditorPanel.open foo_bar_only "foo.bar" Undefined) empty_world)
       /\ opt_width o = Some 400%Z /\ opt_height o = Some 400%Z.
Proof.
  split; [reflexivity|]. split; [reflexivity|].
  destruct (open_gives_the_window_its_saved_geometry foo_bar_only empty_world "foo.bar"
              Undefined _ eq_refl eq_refl)
    as (o & Hin & _ & _ & _ & _ & _ & Hw & Hh & _).
  exists o. split; [exact Hin|]. split; [apply Hw|apply Hh]; by left.
Defined.

(** X11.  Closing a panel and opening it again gives it a window where the
    old one was: when the panel is not [fixed-size] and is docked in a live
    window other than the main window, [close] saves that window's position
    and content size, and the window a later [open] builds has them, each
    coordinate and dimension that is not zero. *)
Theorem reopened_panel_gets_the_geometry_it_was_closed_with
    (panelInfo : string -> option PanelInfo) (W : World)
    (panelID : string) (argv : value) (info : PanelInfo) (w : winref) :
  panelInfo panelID = Some info -> pi_type info <> Some "fixed-size" ->
  docked W panelID w -> live W w -> mainWindow W <> Some w ->
  let W1 := exec (EditorPanel.close (ArgStr panelID)) W in
  let W2 := exec (EditorPanel.open panelInfo panelID argv) W1 in
  let position := getPosition W w in
  let size := getContentSize W w in
  exists o,
    NewBrowserWindow (length (heap W1)) o ∈ since W1 W2
    /\ (position.1 <> 0%Z -> opt_x o = Some position.1)
    /\ (position.2 <> 0%Z -> opt_y o = Some position.2)
    /\ (size.1 <> 0%Z -> opt_width o = Some size.1)
    /\ (size.2 <> 0%Z -> opt_height o = Some size.2).
Proof.
  intros Hinfo Hfixed Hd Hl Hmain W1 W2 position size.
  destruct (close_docked W panelID w Hd Hl) as (_ & Ht & Hp). fold W1 in Ht, Hp.
  rewrite bool_decide_false in Hp by done.
  assert (Hnone : mjoin (obj_get (_panel2windows W1) panelID) = None).
  { by rewrite Ht, obj_get_delete, decide_True. }
  assert (Hsaved : saved_layout W1 panelID = geometry W w).
  { unfold saved_layout. by rewrite Hp, obj_get_set, decide_True. }
  subst W2. unfold exec at 1.
  rewrite (open_undocked panelInfo W1 panelID argv info Hinfo Hnone).
  fold (saved_layout W1 panelID). rewrite Hsaved.
  set (options := EditorPanel.windowOptions info (geometry W w)).
  destruct (constructed_keeps options) as (Hx & Hy & Hw & Hh & _).
  exists (constructed options).1. cbn [snd].
  erewrite since_app by (wsimpl; reflexivity).
  rewrite Hx, Hy, Hw, Hh. split; [left|].
  subst options. unfold EditorPanel.windowOptions, EditorPanel.unless_NaN, geometry.
  cbn [opt_x opt_y opt_width opt_height lp_x lp_y lp_width lp_height
       default from_option id].
  rewrite bool_decide_false by done. fold position size.
  repeat split; intros Hn; by rewrite (or_else_saved _ _ _ eq_refl Hn).
Qed.

(** [foo.bar] closed and opened again: the new window is where the old one
    was. *)
Lemma reopened_panel_gets_the_geometry_it_was_closed_with_witness :
  exists o,
    NewBrowserWindow 1 o
      ∈ since (exec (EditorPanel.close (ArgStr "foo.bar")) foo_bar_placed)
              (exec (EditorPanel.open foo_bar_only "foo.bar" Undefined)
                    (exec (EditorPanel.close (ArgStr "foo.bar")) foo_bar_placed))
    /\ opt_x o = Some 100%Z /\ opt_y o = Some 50%Z
    /\ opt_width o = Some 640%Z /\ opt_height o = Some 480%Z.
Proof.
  assert (Hl : live foo_bar_placed 0) by (eexists _, _; repeat split; reflexivity).
  assert (Hf : pi_type (mkPanelInfo None "" None None None None None None)
               <> Some "fixed-size") by done.
  assert (Hm : mainWindow foo_bar_placed <> Some 0%nat) by done.
  destruct (reopened_panel_gets_the_geometry_it_was_closed_with foo_bar_only foo_bar_placed
              "foo.bar" Undefined _ 0 eq_refl Hf eq_refl Hl Hm)
    as (o & Hin & Hx & Hy & Hw & Hh).
  exists o. split; [exact Hin|].
  split; [by apply Hx|]. split; [by apply Hy|]. split; [by apply Hw|by apply Hh].
Defined.

(** ** The [close] event *)

Lemma saveLayout_live this panelID W win bw :
  heap W !! this = Some win -> nativeWin win = Some bw -> mainWindow W <> Some this ->
  EditorPanel._saveLayout this (ArgStr panelID) W
  = (Return tt,
     with_log (log W ++ [ProfileSave ("layout." +:+ panelID) (geometry W this)])
       (with_profiles (obj_set (profiles W) ("layout." +:+ panelID) (geometry W this)) W)).
Proof.
  intros Hw Hn Hm. unfold EditorPanel._saveLayout, EditorWindow.isMainWindow,
    EditorPanel.loadProfile. run_js.
  rewrite bool_decide_false by done. wsimpl. rewrite Hw, Hn. done.
Qed.

Lemma saveLayout_main this panelID W :
  mainWindow W = Some this -> EditorPanel._saveLayout this panelID W = (Return tt, W).
Proof.
  intros Hm. unfold EditorPanel._saveLayout, EditorWindow.isMainWindow. run_js.
  by rewrite bool_decide_true.
Qed.

Lemma onWindowClose_loop this (ids : list string) W0 W win bw :
  heap W !! this = Some win -> nativeWin win = Some bw -> mainWindow W <> Some this ->
  _panel2windows W = _panel2windows W0 -> geometry W this = geometry W0 this ->
  exists ps,
    for_each ids (fun id =>
      let! win := EditorPanel.findWindow id in
      if decide (win = Some this) then EditorPanel._saveLayout this (ArgStr id)
      else ret tt) W
    = (Return tt,
       with_log (log W ++ ((fun id => ProfileSave ("layout." +:+ id) (geometry W0 this))
                             <$> filter (fun id => mjoin (obj_get (_panel2windows W0) id)
                                                   = Some this) ids))
         (with_profiles ps W))
    /\ (forall id, id ∈ ids -> mjoin (obj_get (_panel2windows W0) id) = Some this ->
          obj_get ps ("layout." +:+ id) = Some (geometry W0 this))
    /\ (forall nm, obj_get (profiles W) nm = Some (geometry W0 this) ->
          obj_get ps nm = Some (geometry W0 this)).
Proof.
  revert W. induction ids as [|id ids IH]; intros W Hw Hn Hm Ht Hg; cbn [for_each].
  - exists (profiles W). split; [|split; [|done]].
    + cbn. rewrite app_nil_r. f_equal. by apply World_eq.
    + intros id Hid. by apply elem_of_nil in Hid.
  - unfold bind at 1. unfold bind at 1, EditorPanel.findWindow at 1, read at 1.
    rewrite filter_cons, Ht.
    destruct (decide (mjoin (obj_get (_panel2windows W0) id) = Some this)) as [Hd|Hd].
    + rewrite (saveLayout_live this id W win bw Hw Hn Hm), Hg.
      set (W1 := with_log _ _).
      destruct (IH W1) as (ps & -> & Hps & Hkeep); try done.
      exists ps. split; [|split].
      * subst W1. cbn [fmap list_fmap]. wsimpl. rewrite <- app_assoc.
        first [done | f_equal; by apply World_eq].
      * intros id' Hid' Hd'. apply elem_of_cons in Hid' as [->|Hid']; [|by apply Hps].
        apply Hkeep. subst W1. wsimpl. by rewrite obj_get_set, decide_True.
      * intros nm Hnm. apply Hkeep. subst W1. wsimpl. rewrite obj_get_set.
        by case_decide.
    + unfold ret at 1. destruct (IH W) as (ps & -> & Hps & Hkeep); try done.
      exists ps. split; [done|]. split; [|done].
      intros id' Hid' Hd'. apply elem_of_cons in Hid' as [->|Hid']; [done|by apply Hps].
Qed.

Lemma onWindowClose_loop_main this (ids : list string) W :
  mainWindow W = Some this ->
  for_each ids (fun id =>
    let! win := EditorPanel.findWindow id in
    if decide (win = Some this) then EditorPanel._saveLayout this (ArgStr id)
    else ret tt) W
  = (Return tt, W).
Proof.
  intros Hm. induction ids as [|id ids IH]; cbn [for_each]; [done|].
  unfold bind at 1. unfold bind at 1, EditorPanel.findWindow at 1, read at 1.
  case_decide; [by rewrite saveLayout_main|done].
Qed.

Lemma on_close_world this W win :
  heap W !! this = Some win -> is_Some (nativeWin win) ->
  let hiding :=
    if decide (windowType win = "quick") then [PreventDefault this; NativeHide this]
    else [] in
  let saving :=
    if decide (mainWindow W = Some this) then []
    else (fun id => ProfileSave ("layout." +:+ id) (geometry W this)) <$> hosted W this in
  exists ps,
    NativeEvents.on_close this W
    = (Return tt,
       with_log (log W ++ hiding ++ saving ++ [CommitWindowStates; SaveWindowStates])
         (with_profiles ps W))
    /\ (mainWindow W <> Some this ->
        forall id, id ∈ hosted W this ->
          obj_get ps ("layout." +:+ id) = Some (geometry W this))
    /\ (mainWindow W = Some this -> ps = profiles W).
Proof.
  intros Hw [bw Hn] hiding saving.
  unfold NativeEvents.on_close.
  unfold bind at 1. unfold deref at 1. rewrite Hw.
  set (W1 := with_log (log W ++ hiding) W).
  assert (H1 : forall (k : unit -> M unit),
    bind (if decide (windowType win = "quick")
          then emit (PreventDefault this);; native this;; emit (NativeHide this)
          else ret tt) k W = k tt W1).
  { intros k. subst W1 hiding. unfold bind at 1. case_decide.
    - run_js. rewrite Hw, Hn. wsimpl. f_equal. apply World_eq; wsimpl; try done.
      by rewrite <- app_assoc.
    - unfold ret. rewrite app_nil_r. f_equal. by apply World_eq. }
  rewrite H1. clear H1.
  unfold EditorPanel._onWindowClose. unfold bind at 1. unfold bind at 1, read at 1.
  change (_panel2windows W1) with (_panel2windows W).
  destruct (decide (mainWindow W = Some this)) as [Hm|Hm].
  - rewrite (onWindowClose_loop_main this _ W1 Hm). run_js. subst W1 saving. wsimpl.
    exists (profiles W). split; [|done].
    f_equal. apply World_eq; wsimpl; try done. by rewrite <- !app_assoc.
  - destruct (onWindowClose_loop this (obj_keys (_panel2windows W)) W W1 win bw)
      as (ps & -> & Hps & _); try done.
    run_js. subst W1 saving. wsimpl. exists ps. split; [|split; [|done]].
    + f_equal. apply World_eq; wsimpl; try done. by rewrite <- !app_assoc.
    + intros _ id Hid. apply list_elem_of_filter in Hid as [Hd Hid]. by apply Hps.
Qed.

(** X12.  When a window that still has its native window gets the native
    [close] event, the handler saves the window's position and content size
    as the layout of every panel docked in it, in the order of the dock
    table, before it has the window states committed and saved; for the main
    window it saves no panel layout.  The windows, the list of windows and
    the dock table are as they were: the panels are undocked only by
    [closed]. *)
Theorem close_event_saves_the_layout_of_hosted_panels
    (W : World) (this : winref) (win : Window) :
  heap W !! this = Some win -> is_Some (nativeWin win) ->
  let W' := exec (NativeEvents.on_close this) W in
  let hiding :=
    if decide (windowType win = "quick") then [PreventDefault this; NativeHide this]
    else [] in
  let saving :=
    if decide (mainWindow W = Some this) then []
    else (fun id => ProfileSave ("layout." +:+ id) (geometry W this)) <$> hosted W this in
  outcome (NativeEvents.on_close this) W = Return tt
  /\ since W W' = hiding ++ saving ++ [CommitWindowStates; SaveWindowStates]
  /\ (mainWindow W <> Some this ->
      forall id, id ∈ hosted W this ->
        obj_get (profiles W') ("layout." +:+ id) = Some (geometry W this))
  /\ (mainWindow W = Some this -> profiles W' = profiles W)
  /\ heap W' = heap W
  /\ _windows W' = _windows W
  /\ _panel2windows W' = _panel2windows W.
Proof.
  intros Hw Hn W' hiding saving. subst W'.
  destruct (on_close_world this W win Hw Hn) as (ps & Hrun & Hps & Hmain).
  unfold exec, outcome. rewrite Hrun. wsimpl.
  split; [done|]. split; [by apply since_app|]. repeat split; done.
Qed.

(** The window that hosts [foo.bar], at (100, 50) and 640 by 480, gets the
    [close] event. *)
Lemma close_event_saves_the_layout_of_hosted_panels_witness :
  since foo_bar_placed (exec (NativeEvents.on_close 0) foo_bar_placed)
  = [ProfileSave "layout.foo.bar"
       (mkLayoutProfile (Some 100%Z) (Some 50%Z) (Some 640%Z) (Some 480%Z));
     CommitWindowStates; SaveWindowStates].
Proof.
  assert (Hn : is_Some (nativeWin
    (mkWindow "editor-window-0" false "dockable" true false 0 []
       (Some (mkBrowserWindow
          (EditorWindow.switch_windowType "dockable"
             (EditorWindow.defaults
                (EditorPanel.windowOptions
                   (mkPanelInfo None "" None None None None None None)
                   (mkLayoutProfile None None None None)))).1 true)))))
    by (by eexists).
  exact (proj1 (proj2 (close_event_saves_the_layout_of_hosted_panels foo_bar_placed 0 _
                         eq_refl Hn))).
Defined.

(** ** Requests to the page, at the edges *)

(** X13.  [sendRequestToPage] with a string channel and a reply function
    stores the function and takes the session id before it tries to send.
    With web contents, what goes to the page is the channel, the session id
    and the arguments without the reply function, and the id is returned.
    Without web contents the id is returned all the same and only an error
    is logged; on a disposed window the call throws instead of returning the
    id.  In both cases nothing was sent, yet the reply function stays stored
    under the id that was taken. *)
Theorem sendRequestToPage_registers_before_it_sends
    (W : World) (this : winref) (win : Window)
    (channel : value) (args : list value) (reply : callback) :
  heap W !! this = Some win ->
  typeof channel = "string" -> last args = Some (Fn reply) ->
  let sessionId := _nextSessionId win in
  let W' := exec (EditorWindow.sendRequestToPage this channel args) W in
  heap W' !! this
  = Some (set_replyCallbacks (obj_set (_replyCallbacks win) sessionId reply)
            (set_nextSessionId (incr sessionId) win))
  /\ match nativeWin win with
     | None =>
         outcome (EditorWindow.sendRequestToPage this channel args) W = Throw TypeError
         /\ since W W' = []
     | Some bw =>
         outcome (EditorWindow.sendRequestToPage this channel args) W
         = Return (Some sessionId)
         /\ since W W'
            = [if bw_webContents bw
               then WebContentsSend this [Str "editor:sendreq2page"; channel;
                                          Num sessionId; Arr (removelast args)]
               else EditorError
                      [Str ("Failed to send " +:+ EditorWindow.dquote);
                       Str "editor:sendreq2page";
                       Str (EditorWindow.dquote +:+ " to "); Str (name win);
                       Str " because web contents not yet loaded"]]
     end.
Proof.
  intros Hw Hch Hlast sessionId W'. subst W' sessionId.
  unfold exec, outcome, since, EditorWindow.sendRequestToPage, EditorWindow.sendToPage.
  rewrite bool_decide_true by done. cbn [negb]. rewrite Hlast.
  run_js.
  destruct (nativeWin win) as [bw|] eqn:Hn; [destruct (bw_webContents bw) eqn:Hc|];
    repeat (progress (crunch; rewrite ?Hw, ?Hn, ?Hc));
    rewrite ?drop_app_length, ?drop_all; done.
Qed.

(** A request made after the window was closed. *)
Lemma sendRequestToPage_registers_before_it_sends_witness :
  outcome (EditorWindow.sendRequestToPage 0 (Str "scene:query") [Fn 7])
          (exec (NativeEvents.on_closed 0) foo_bar_open)
  = Throw TypeError
  /\ callbacks (exec (EditorWindow.sendRequestToPage 0 (Str "scene:query") [Fn 7])
                     (exec (NativeEvents.on_closed 0) foo_bar_open)) 0
     = [(0%Z, 7%nat)].
Proof.
  destruct (sendRequestToPage_registers_before_it_sends
              (exec (NativeEvents.on_closed 0) foo_bar_open) 0 _
              (Str "scene:query") [Fn 7] 7 eq_refl eq_refl eq_refl) as [Hh Hout].
  split; [exact (proj1 Hout)|].
  unfold callbacks. by rewrite Hh.
Defined.

(** ** The panels of a package *)

Lemma split_nonempty sep s : split sep s <> [].
Proof.
  destruct s as [|c s]; cbn [split]; [done|].
  destruct (Ascii.eqb c sep); [done|]. by destruct (split sep s).
Qed.

Lemma join_cons_nonempty sep piece pieces :
  pieces <> [] -> join sep (piece :: pieces) = piece +:+ sep +:+ join sep pieces.
Proof. by destruct pieces. Qed.

(** Cutting a string at a character and joining the pieces with that
    character gives the string back. *)
Lemma join_split sep s : join (String sep EmptyString) (split sep s) = s.
Proof.
  induction s as [|c s IH]; cbn [split]; [done|].
  destruct (Ascii.eqb c sep) eqn:Hc.
  - apply Ascii.eqb_eq in Hc as ->.
    rewrite join_cons_nonempty by apply split_nonempty. by rewrite IH.
  - pose proof (split_nonempty sep s) as Hne.
    destruct (split sep s) as [|piece pieces]; [done|].
    destruct pieces as [|piece' pieces].
    + cbn in *. by rewrite IH.
    + rewrite join_cons_nonempty in IH |- * by done.
      change (String c piece +:+ ?r) with (String c (piece +:+ r)). by rewrite IH.
Qed.

Lemma findPanels_step_panel_of packageName panelIDs p :
  EditorPanel.findPanels_step packageName panelIDs p
  = panelIDs ++ option_list (panel_of packageName p).
Proof.
  unfold EditorPanel.findPanels_step, panel_of.
  destruct (split "." p) as [|a [|b [|c rest]]]; cbn [length];
    try (rewrite decide_True by lia; by rewrite app_nil_r).
  rewrite decide_False by (intros H; by apply H).
  cbn [lookup list_lookup default from_option id].
  case_decide; [done|by rewrite app_nil_r].
Qed.

Lemma findPanels_omap packageName ids acc :
  foldl (EditorPanel.findPanels_step packageName) acc ids
  = acc ++ omap (panel_of packageName) ids.
Proof.
  revert acc. induction ids as [|p ids IH]; intros acc; cbn [foldl].
  - by rewrite app_nil_r.
  - rewrite IH, findPanels_step_panel_of, <- app_assoc. f_equal.
    cbn [omap list_omap]. by destruct (panel_of packageName p).
Qed.

(** X14.  [Editor.Panel.findPanels] goes through the docked panel
    identifiers in the order of the dock table and, for each that is made of
    exactly two pieces around one dot with [packageName] as the first,
    returns the two pieces as an array, not the identifier: joined with a
    dot each array gives a docked identifier back, and every docked
    identifier of the package is returned this way.  The world is not
    touched. *)
Theorem findPanels_returns_the_identifiers_cut_in_two (W : World) (packageName : string) :
  exists pairs,
    EditorPanel.findPanels packageName W = (Return pairs, W)
    /\ pairs = omap (panel_of packageName) (obj_keys (_panel2windows W))
    /\ (forall pair, pair ∈ pairs ->
          exists b, pair = [packageName; b]
                    /\ join "." pair ∈ obj_keys (_panel2windows W))
    /\ (forall p b, p ∈ obj_keys (_panel2windows W) ->
          split "." p = [packageName; b] -> [packageName; b] ∈ pairs).
Proof.
  unfold EditorPanel.findPanels, bind, read, ret.
  rewrite findPanels_omap. cbn [app]. eexists. split; [reflexivity|].
  split; [reflexivity|]. split.
  - intros pair Hpair. apply list_elem_of_omap in Hpair as (p & Hp & Hpanel).
    unfold panel_of in Hpanel. pose proof (join_split "." p) as Hjoin.
    destruct (split "." p) as [|a [|b [|c rest]]]; try done.
    case_decide; [|done]. injection Hpanel as <-. subst a.
    exists b. split; [done|]. by rewrite Hjoin.
  - intros p b Hp Hsplit. apply list_elem_of_omap. exists p. split; [done|].
    unfold panel_of. rewrite Hsplit. by rewrite decide_True.
Qed.

(** ** Opening a window for a page *)

Lemma window_open_world W nm editorUrl options :
  let w := length (heap W) in
  let given := default (no_options, Undefined) options in
  let win := mkWindow nm (constructed given.1).2
               (default "dockable" (opt_windowType (EditorWindow.defaults given.1)))
               (default true (opt_save (EditorWindow.defaults given.1))) false 0 []
               (Some (mkBrowserWindow (constructed given.1).1 true)) in
  Ipc.window_open nm editorUrl options W
  = (Return tt,
     with_log (log W ++ NewBrowserWindow w (constructed given.1).1
                 :: (if (constructed given.1).2 then [SetAlwaysOnTop w true] else [])
                 ++ [SetMenuBarVisibility w false;
                     match url W editorUrl with
                     | Some resultUrl => LoadPage w resultUrl given.2
                     | None =>
                         EditorError [Str "Failed to load page "; Str editorUrl;
                                      Str (" for window " +:+ EditorWindow.dquote);
                                      Str nm; Str EditorWindow.dquote]
                     end;
                     NativeShow w])
       (with_windows (_windows W ++ [w]) (with_heap (heap W ++ [win]) W))).
Proof.
  intros w given win. unfold Ipc.window_open. fold given.
  destruct given as [o argv] eqn:Hgiven. cbn [fst snd] in *.
  unfold bind at 1. rewrite new_world. fold w.
  unfold EditorWindow.load, EditorWindow.show. run_js. crunch.
  destruct (url W editorUrl) eqn:Hurl; crunch; rewrite ?Hurl;
    f_equal; apply World_eq; wsimpl; try done.
  all: try (subst w; rewrite <- (Nat.add_0_r (length (heap W))), alter_app_r; done).
  all: rewrite <- ?app_assoc; try done.
Qed.

(** X21.  [window:open] builds a window of the given name, registers it
    last, hides its menu bar, loads the page with [options.argv] and shows
    the window; without [options] the window is built from the defaults.
    When the URL does not resolve, an error is logged instead of the load,
    and the window is shown all the same. *)
Theorem window_open_builds_loads_and_shows
    (W : World) (nm editorUrl : string) (options : option (Options * value)) :
  let w := length (heap W) in
  let W' := exec (Ipc.window_open nm editorUrl options) W in
  let given := default (no_options, Undefined) options in
  outcome (Ipc.window_open nm editorUrl options) W = Return tt
  /\ _windows W' = _windows W ++ [w]
  /\ (exists win,
        heap W' = heap W ++ [win] /\ name win = nm
        /\ windowType win = default "dockable" (opt_windowType given.1)
        /\ _loaded win = false)
  /\ live W' w
  /\ _panel2windows W' = _panel2windows W
  /\ exists created,
       Forall (fun e => (exists o, e = NewBrowserWindow w o) \/ e = SetAlwaysOnTop w true)
              created
       /\ since W W'
          = created
            ++ [SetMenuBarVisibility w false;
                match url W editorUrl with
                | Some resultUrl => LoadPage w resultUrl given.2
                | None =>
                    EditorError [Str "Failed to load page "; Str editorUrl;
                                 Str (" for window " +:+ EditorWindow.dquote);
                                 Str nm; Str EditorWindow.dquote]
                end;
                NativeShow w].
Proof.
  intros w W' given. subst W'. unfold exec, outcome.
  rewrite window_open_world. fold w given. wsimpl.
  split; [done|]. split; [done|].
  split; [eexists; split; [reflexivity|]; by isimpl|].
  split; [eexists _, _; wsimpl; split; [by apply list_lookup_middle|by isimpl]|].
  split; [done|].
  exists (NewBrowserWindow w (constructed given.1).1
            :: (if (constructed given.1).2 then [SetAlwaysOnTop w true] else [])).
  split.
  - constructor; [left; by eexists|].
    destruct (constructed given.1).2; [apply Forall_singleton; by right|constructor].
  - apply since_app. wsimpl. done.
Qed.

(** A window asked for without options, for a page. *)
Lemma window_open_builds_loads_and_shows_witness :
  _windows (exec (Ipc.window_open "tools" "app://tools.html" None) empty_world) = [0%nat]
  /\ live (exec (Ipc.window_open "tools" "app://tools.html" None) empty_world) 0.
Proof.
  destruct (window_open_builds_loads_and_shows empty_world "tools" "app://tools.html" None)
    as (_ & Hws & _ & Hlive & _).
  split; [exact Hws|exact Hlive].
Defined.

(** ** The flag [_loaded] *)

#[local] Instance still_unloaded_preorder w : PreOrder (still_unloaded w).
Proof. split; unfold still_unloaded; [by intros W|intros W1 W2 W3; eauto]. Qed.

Lemma unloaded_alter w W i f :
  (forall win, _loaded win = false -> _loaded (f win) = false) \/ i <> w ->
  still_unloaded w W (with_heap (alter f i (heap W)) W).
Proof.
  intros Hf (win & Hw & Hl). unfold unloaded. wsimpl.
  destruct (decide (i = w)) as [->|Hne].
  - destruct Hf as [Hf|]; [|done].
    exists (f win). rewrite list_lookup_alter_eq, Hw. eauto.
  - exists win. by rewrite list_lookup_alter_ne.
Qed.

Lemma unloaded_app w W win' :
  still_unloaded w W (with_heap (heap W ++ [win']) W).
Proof.
  intros (win & Hw & Hl). unfold unloaded. wsimpl.
  exists win. split; [|done]. by apply lookup_app_l_Some.
Qed.

Ltac loaded_leaf :=
  first [ by intros ?
        | apply unloaded_app
        | by (apply unloaded_alter; left; intros ? ?)
        | by (apply unloaded_alter; right) ].

Lemma find_loop_still_unloaded w test ws :
  respects (still_unloaded w) (Windows.find_loop test ws).
Proof. apply pure_respects; [apply _|]. apply find_loop_pure. Qed.

#[local] Hint Resolve find_loop_still_unloaded : respects.

Lemma handle_still_unloaded panelInfo w e :
  e <> DidFinishLoad w -> respects (still_unloaded w) (handle panelInfo e).
Proof.
  intros He.
  destruct e; repeat progress open_code; respects_with loaded_leaf.
  apply respects_update. intros W. apply unloaded_alter. right. congruence.
Qed.

Lemma run_still_unloaded panelInfo w es W :
  Forall (fun e => e <> DidFinishLoad w) es ->
  still_unloaded w W (run panelInfo es W).
Proof.
  intros Hes. revert W. induction Hes as [|e es He _ IH]; intros W; cbn [run]; [done|].
  etrans; [apply (handle_still_unloaded panelInfo w e He)|apply IH].
Qed.

Lemma isLoaded_unloaded w W :
  unloaded w W -> outcome (isLoaded w) W = Return false.
Proof.
  intros (win & Hw & Hl). unfold outcome, isLoaded, bind, deref, ret.
  rewrite Hw. cbn. by rewrite Hl.
Qed.

(** X23. Once [load] is called with a page that resolves, or [close] is
    called, [isLoaded] is false and stays false whatever the main process
    handles, until [did-finish-load] arrives for the window; then it is
    true. *)
Theorem window_is_not_loaded_until_did_finish_load
    panelInfo W w editorUrl argv m es :
  is_Some (heap W !! w) ->
  (m = EditorWindow.load w editorUrl argv /\ is_Some (url W editorUrl))
  \/ m = EditorWindow.close w ->
  Forall (fun e => e <> DidFinishLoad w) es ->
  outcome (isLoaded w) (run panelInfo es (exec m W)) = Return false
  /\ outcome (isLoaded w)
       (exec (handle panelInfo (DidFinishLoad w)) (run panelInfo es (exec m W)))
     = Return true.
Proof.
  intros [win Hw] Hm Hes.
  assert (Hstart : unloaded w (exec m W)).
  { assert (Hfirst : unloaded w (with_heap (alter (set_loaded false) w (heap W)) W)).
    { exists (set_loaded false win). wsimpl. by rewrite list_lookup_alter_eq, Hw. }
    destruct Hm as [[-> [resultUrl Hurl]]| ->].
    - unfold EditorWindow.load.
      erewrite exec_bind by (unfold read; reflexivity). rewrite Hurl.
      erewrite exec_bind by (unfold update, modify; reflexivity).
      match goal with |- unloaded w (exec ?k _) =>
        assert (Hrest : respects (still_unloaded w) k) by respects_with loaded_leaf end.
      by apply Hrest.
    - unfold EditorWindow.close.
      erewrite exec_bind by (unfold update, modify; reflexivity).
      match goal with |- unloaded w (exec ?k _) =>
        assert (Hrest : respects (still_unloaded w) k) by respects_with loaded_leaf end.
      by apply Hrest. }
  pose proof (run_still_unloaded panelInfo w es _ Hes Hstart) as (win' & Hw' & Hl').
  split; [apply isLoaded_unloaded; by exists win'|].
  revert Hw'. generalize (run panelInfo es (exec m W)). intros W' Hw'.
  unfold handle, WebContentsEvents.on_did_finish_load, update, modify, exec, outcome,
    isLoaded, bind, deref, ret.
  cbn [fst snd]. wsimpl. by rewrite list_lookup_alter_eq, Hw'.
Qed.

Lemma window_is_not_loaded_until_did_finish_load_witness :
  outcome (isLoaded 0)
    (run foo_bar_only [WindowFocus 0; IpcPanelReady "foo.bar"]
       (exec (EditorWindow.load 0 "app://index.html" Undefined) foo_bar_open))
  = Return false
  /\ outcome (isLoaded 0)
       (exec (handle foo_bar_only (DidFinishLoad 0))
          (run foo_bar_only [WindowFocus 0; IpcPanelReady "foo.bar"]
             (exec (EditorWindow.load 0 "app://index.html" Undefined) foo_bar_open)))
     = Return true.
Proof.
  apply (window_is_not_loaded_until_did_finish_load foo_bar_only foo_bar_open 0
           "app://index.html" Undefined _ [WindowFocus 0; IpcPanelReady "foo.bar"]).
  - by eexists.
  - left. split; [done|by eexists].
  - by repeat constructor.
Defined.

(* ===================================================================== *)
(** * Position, size and layout of the windows *)
(* ===================================================================== *)

Import WindowStates.

(** X15.  [adjust] replaces a width or height that is not a number, or is
    zero or below, by 800 or 600, so the size it sets is positive unless it
    is given NaN: NaN is a number for which [n <= 0] is false, and it is
    handed on to [setSize] as it is.  It then moves the window to the work
    area of the display that matches the rectangle, and last to ([x], [y])
    when all four arguments were kept; when any of them was replaced, it
    centres the window instead. *)
Theorem adjust_places_or_centres
    (getDisplayMatching : num -> num -> num -> num -> Z * Z)
    (this : Window) (x y w h : value) :
  is_Some (nativeWin this) ->
  exists (w' h' : num) (workArea : Z * Z) (last : native_call),
    adjust getDisplayMatching this x y w h
    = Return [SetSize w' h'; SetPosition workArea.1 workArea.2; last]
    /\ w' = default (Int 800) (kept w)
    /\ h' = default (Int 600) (kept h)
    /\ (w <> NaN -> exists n, w' = Int n /\ (0 < n)%Z)
    /\ (h <> NaN -> exists n, h' = Int n /\ (0 < n)%Z)
    /\ (w = NaN -> w' = NotANumber)
    /\ (h = NaN -> h' = NotANumber)
    /\ workArea = getDisplayMatching (default (Int 0) (number x))
                                     (default (Int 0) (number y)) w' h'
    /\ last = match number x, number y, kept w, kept h with
              | Some x, Some y, Some _, Some _ => SetPosition x y
              | _, _, _, _ => Center
              end.
Proof.
  intros [bw Hn]. unfold adjust, kept. rewrite Hn.
  assert (Hsize : forall v dflt, (0 < dflt)%Z ->
            let n' := default (Int dflt)
                        match number v with
                        | Some n => if le_zero n then None else Some n
                        | None => None
                        end in
            (v <> NaN -> exists n, n' = Int n /\ (0 < n)%Z)
            /\ (v = NaN -> n' = NotANumber)).
  { intros v dflt Hd.
    destruct v as [| | |n| | | | |]; cbn; try (split; [by eauto|done]).
    destruct (Z.leb_spec n 0); cbn; (split; [intros _; eexists; split; [done|lia]|done]). }
  destruct (Hsize w 800%Z ltac:(lia)) as [Hw Hw'].
  destruct (Hsize h 600%Z ltac:(lia)) as [Hh Hh'].
  destruct (number x) as [a|], (number y) as [b|], (number w) as [c|], (number h) as [d|];
    try destruct (le_zero c); try destruct (le_zero d);
    cbn [app fst snd default from_option id] in *; eexists _, _, _, _;
    (split; [reflexivity|]); repeat split; done.
Qed.

(** A window with no usable position, 1024 wide and of no height, on a
    display whose work area starts at (0, 23). *)
Lemma adjust_places_or_centres_witness :
  adjust (fun _ _ _ _ => (0, 23)%Z)
         (mkWindow "main" false "dockable" true false 0 []
                   (Some (mkBrowserWindow no_options true)))
         Undefined Undefined (Num 1024) (Num 0)
  = Return [SetSize 1024 600; SetPosition 0 23; Center].
Proof.
  destruct (adjust_places_or_centres (fun _ _ _ _ => (0, 23)%Z)
              (mkWindow "main" false "dockable" true false 0 []
                        (Some (mkBrowserWindow no_options true)))
              Undefined Undefined (Num 1024) (Num 0))
    as (w' & h' & workArea & last & -> & -> & -> & _ & _ & _ & _ & -> & ->).
  - by eexists.
  - reflexivity.
Defined.

Lemma field_set o k v k' :
  field (obj_set o k v) k' = if decide (k = k') then v else field o k'.
Proof. unfold field. rewrite obj_get_set. by case_decide. Qed.

Lemma field_assign winInfo b k :
  field (assign winInfo b) k
  = if decide (k = "height") then Num (b_height b)
    else if decide (k = "width") then Num (b_width b)
    else if decide (k = "y") then Num (b_y b)
    else if decide (k = "x") then Num (b_x b)
    else field winInfo k.
Proof.
  unfold assign. rewrite !field_set.
  repeat case_decide; congruence.
Qed.

Lemma commitWindowState_live getBounds W this win layoutInfo L :
  heap W !! this = Some win -> save win = true -> is_Some (nativeWin win) ->
  let b := getBounds this in
  let old := default [] (obj_get (_windowLayouts L) (name win)) in
  let entry :=
    if ToBoolean layoutInfo then obj_set (assign old (committed b)) "layout" layoutInfo
    else assign old (committed b) in
  commitWindowState getBounds W this layoutInfo L
  = (Return tt,
     mkLayouts (obj_set (_windowLayouts L) (name win) entry)
       (warned L
        ++ (if (b_width b =? 0)%Z
            then [EditorWarn [Str "Failed to commit window state. Invalid window width: ";
                              Num 0]]
            else [])
        ++ (if (b_height b =? 0)%Z
            then [EditorWarn [Str "Failed to commit window state. Invalid window height ";
                              Num 0]]
            else []))).
Proof.
  intros Hw Hs [bw Hn] b old entry. unfold commitWindowState.
  rewrite Hw, Hs, Hn. cbn [negb]. fold b. subst entry old. unfold committed.
  destruct (Z.eqb_spec (b_width b) 0) as [Hw0|Hw0],
           (Z.eqb_spec (b_height b) 0) as [Hh0|Hh0];
    cbn [b_x b_y b_width b_height]; rewrite ?Hw0, ?Hh0;
    cbn [Z.eqb]; rewrite ?(proj2 (Z.eqb_neq _ _) Hh0); try done.
  all: by destruct b.
Qed.

(** X16.  [commitWindowState(layoutInfo)] does nothing for a window whose
    [save] flag is off.  Otherwise it stores the window's bounds under the
    window's name in [_windowLayouts], with 800 for a width of zero and 600
    for a height of zero, each with a warning; it stores [layoutInfo] as the
    layout when it is given, and keeps the layout and any other field stored
    before when it is not; the states of windows of other names are as they
    were.  On a disposed window whose [save] flag is on it throws, and
    changes nothing. *)
Theorem commitWindowState_stores_the_bounds
    (getBounds : winref -> Bounds) (W : World) (this : winref) (win : Window)
    (layoutInfo : value) (L : Layouts) :
  heap W !! this = Some win ->
  let b := getBounds this in
  let old := default [] (obj_get (_windowLayouts L) (name win)) in
  (save win = false -> commitWindowState getBounds W this layoutInfo L = (Return tt, L))
  /\ (save win = true -> nativeWin win = None ->
      commitWindowState getBounds W this layoutInfo L = (Throw TypeError, L))
  /\ (save win = true -> is_Some (nativeWin win) ->
      exists L' entry,
        commitWindowState getBounds W this layoutInfo L = (Return tt, L')
        /\ obj_get (_windowLayouts L') (name win) = Some entry
        /\ field entry "x" = Num (b_x b)
        /\ field entry "y" = Num (b_y b)
        /\ field entry "width" = Num (if (b_width b =? 0)%Z then 800 else b_width b)
        /\ field entry "height" = Num (if (b_height b =? 0)%Z then 600 else b_height b)
        /\ field entry "layout"
           = (if ToBoolean layoutInfo then layoutInfo else field old "layout")
        /\ (forall k, k ∉ ["x"; "y"; "width"; "height"; "layout"] ->
              field entry k = field old k)
        /\ (forall other, other <> name win ->
              obj_get (_windowLayouts L') other = obj_get (_windowLayouts L) other)
        /\ exists warnings,
             warned L' = warned L ++ warnings
             /\ length warnings
                = ((if (b_width b =? 0)%Z then 1 else 0)
                   + (if (b_height b =? 0)%Z then 1 else 0))%nat).
Proof.
  intros Hw b old. split; [|split].
  - intros Hs. unfold commitWindowState. by rewrite Hw, Hs.
  - intros Hs Hn. unfold commitWindowState. by rewrite Hw, Hs, Hn.
  - intros Hs Hn. rewrite (commitWindowState_live getBounds W this win layoutInfo L Hw Hs Hn).
    fold b old. eexists _, _. split; [reflexivity|].
    cbn [_windowLayouts warned]. split; [by rewrite obj_get_set, decide_True|].
    assert (Hfield : forall k,
      field (if ToBoolean layoutInfo
             then obj_set (assign old (committed b)) "layout" layoutInfo
             else assign old (committed b)) k
      = if decide (k = "layout") then
          (if ToBoolean layoutInfo then layoutInfo else field old "layout")
        else field (assign old (committed b)) k).
    { intros k. destruct (ToBoolean layoutInfo).
      - rewrite field_set. repeat case_decide; congruence.
      - case_decide as Hk; [|done]. subst k. by rewrite field_assign. }
    rewrite !Hfield, !field_assign. cbn [committed b_x b_y b_width b_height].
    repeat (split; [done|]). split; [|split].
    + intros k Hk. rewrite Hfield, field_assign.
      repeat case_decide; try done; subst k; destruct Hk; set_solver.
    + intros other Hne. by rewrite obj_get_set, decide_False.
    + eexists. split; [reflexivity|]. rewrite length_app.
      by destruct (b_width b =? 0)%Z, (b_height b =? 0)%Z.
Qed.

(** The main window, of no width, committed with a layout. *)
Lemma commitWindowState_stores_the_bounds_witness :
  exists L' entry,
    commitWindowState (fun _ => mkBounds 10 20 0 480) main_only 0 (Str "docks")
                      (mkLayouts [] []) = (Return tt, L')
    /\ obj_get (_windowLayouts L') "main" = Some entry
    /\ field entry "x" = Num 10
    /\ field entry "y" = Num 20
    /\ field entry "width" = Num 800
    /\ field entry "height" = Num 480
    /\ field entry "layout" = Str "docks".
Proof.
  destruct (proj2 (proj2 (commitWindowState_stores_the_bounds
              (fun _ => mkBounds 10 20 0 480) main_only 0 main_window (Str "docks")
              (mkLayouts [] []) eq_refl)) eq_refl (ex_intro _ _ eq_refl))
    as (L' & entry & H & Hget & Hx & Hy & Hwd & Hh & Hl & _).
  exists L', entry. repeat split; assumption.
Defined.

Lemma fill_windows_spec W L ws acc :
  Forall (fun w => is_Some (heap W !! w)) ws ->
  exists windows,
    fill_windows W L ws acc = Return windows
    /\ forall nm,
         obj_get windows nm
         = if decide (nm ∈ names W ws) then Some (obj_get (_windowLayouts L) nm)
           else obj_get acc nm.
Proof.
  intros Hws. revert acc. induction Hws as [|w ws [win Hw] _ IH]; intros acc.
  - exists acc. split; [done|]. intros nm. rewrite decide_False; [done|].
    apply not_elem_of_nil.
  - cbn [fill_windows]. rewrite Hw.
    destruct (IH (obj_set acc (name win) (obj_get (_windowLayouts L) (name win))))
      as (windows & -> & Hget).
    exists windows. split; [done|]. intros nm. rewrite Hget.
    unfold names. cbn [omap list_omap]. rewrite Hw. cbn [fmap option_fmap option_map].
    fold (names W ws). rewrite obj_get_set.
    destruct (decide (nm ∈ names W ws)) as [Hin|Hin].
    + rewrite decide_True; [done|by right].
    + destruct (decide (name win = nm)) as [<-|Hne].
      * rewrite decide_True; [done|left].
      * rewrite decide_False; [done|].
        intros Hin'. apply elem_of_cons in Hin' as [?|?]; congruence.
Qed.

(** X17.  [saveWindowStates] saves nothing in test mode and nothing once
    there is no main window.  Otherwise the profile it saves holds one entry
    for each name of a registered window and no other: the state last
    committed under that name, or [undefined] when none was; states
    committed by windows that are no longer registered stay in
    [_windowLayouts] and are left out of the profile. *)
Theorem saveWindowStates_saves_the_registered_windows
    (runMode : string) (W : World) (L : Layouts) :
  registered_in_heap_all W ->
  (runMode = "test" \/ mainWindow W = None -> saveWindowStates runMode W L = Return None)
  /\ (runMode <> "test" -> mainWindow W <> None ->
      exists windows,
        saveWindowStates runMode W L = Return (Some windows)
        /\ (forall nm, nm ∈ obj_keys windows <-> nm ∈ names W (_windows W))
        /\ (forall nm, nm ∈ names W (_windows W) ->
              obj_get windows nm = Some (obj_get (_windowLayouts L) nm))).
Proof.
  intros Hreg. unfold saveWindowStates. split.
  - intros [->|Hm]; [done|]. case_decide; [done|]. by rewrite decide_True.
  - intros Hmode Hmain. rewrite !decide_False by done.
    destruct (fill_windows_spec W L (_windows W) [] Hreg) as (windows & -> & Hget).
    exists windows. split; [done|]. split.
    + intros nm. specialize (Hget nm). split.
      * intros Hin. destruct (decide (nm ∈ names W (_windows W))); [done|].
        cbn in Hget. by apply obj_get_None_key in Hget.
      * intros Hin. rewrite decide_True in Hget by done.
        by eapply obj_get_Some_key.
    + intros nm Hin. by rewrite Hget, decide_True.
Qed.

(** The main window alone, with the state of a window closed earlier still
    in [_windowLayouts]. *)
Lemma saveWindowStates_saves_the_registered_windows_witness :
  registered_in_heap_all main_only
  /\ saveWindowStates "test" main_only
       (mkLayouts [("tools", [("x", Num 1)]); ("main", [("x", Num 2)])] [])
     = Return None
  /\ exists windows,
       saveWindowStates "" main_only
         (mkLayouts [("tools", [("x", Num 1)]); ("main", [("x", Num 2)])] [])
       = Return (Some windows)
       /\ obj_keys windows = ["main"].
Proof.
  assert (H : registered_in_heap_all main_only) by (repeat econstructor).
  split; [exact H|].
  destruct (saveWindowStates_saves_the_registered_windows "test" main_only
              (mkLayouts [("tools", [("x", Num 1)]); ("main", [("x", Num 2)])] []) H)
    as [Htest _].
  split; [apply Htest; by left|].
  eexists. split; reflexivity.
Defined.

Lemma commitWindowState_other getBounds W this layoutInfo L nm :
  (forall win, heap W !! this = Some win -> name win <> nm) ->
  obj_get (_windowLayouts (commitWindowState getBounds W this layoutInfo L).2) nm
  = obj_get (_windowLayouts L) nm.
Proof.
  intros Hne. unfold commitWindowState.
  destruct (heap W !! this) as [win|]; [|done].
  destruct (save win); [|done]. cbn [negb].
  destruct (nativeWin win); [|done].
  destruct (_ =? _)%Z; cbn [b_height];
    destruct (_ =? _)%Z; cbn [snd _windowLayouts];
    rewrite obj_get_set, decide_False; try done; by apply Hne.
Qed.

Lemma commit_each_spec getBounds W ws L :
  Forall (fun w => live W w) ws ->
  exists L',
    commit_each getBounds W ws L = (Return tt, L')
    /\ forall nm, nm ∉ names W ws ->
         obj_get (_windowLayouts L') nm = obj_get (_windowLayouts L) nm.
Proof.
  intros Hws. revert L. induction Hws as [|w ws (win & bw & Hw & Hn & _) _ IH]; intros L.
  - by exists L.
  - cbn [commit_each].
    pose proof (commitWindowState_other getBounds W w Undefined L) as Hother.
    assert (Hret : (commitWindowState getBounds W w Undefined L).1 = Return tt).
    { unfold commitWindowState. rewrite Hw, Hn. destruct (save win); [|done]. cbn [negb].
      by destruct (_ =? _)%Z; cbn [b_height]; destruct (_ =? _)%Z. }
    destruct (commitWindowState getBounds W w Undefined L) as [r L1].
    cbn [fst snd] in *. subst r.
    destruct (IH L1) as (L' & -> & Hkeep). exists L'. split; [done|].
    intros nm Hnm. unfold names in Hnm. cbn [omap list_omap] in Hnm.
    rewrite Hw in Hnm. cbn [fmap option_fmap option_map] in Hnm.
    apply not_elem_of_cons in Hnm as [Hne Hnm].
    rewrite Hkeep by done. apply Hother. intros win' Hw'. congruence.
Qed.

Lemma commit_each_app getBounds W ws1 ws2 L :
  commit_each getBounds W (ws1 ++ ws2) L
  = match commit_each getBounds W ws1 L with
    | (Return _, L1) => commit_each getBounds W ws2 L1
    | (Throw err, L1) => (Throw err, L1)
    end.
Proof.
  revert L. induction ws1 as [|w ws1 IH]; intros L; cbn [commit_each app]; [done|].
  destruct (commitWindowState getBounds W w Undefined L) as [[[]|err] L1]; [apply IH|done].
Qed.

(** X18.  The state of a window survives the round trip through the
    profile.  When the editor runs outside test mode and has a main window,
    and a registered window is the only one of its name and has its [save]
    flag on, then [commitWindowStates(); saveWindowStates()] (what the
    handler of [close] ends with) saves a profile from which
    [restorePositionAndSize] gives a window of that name the bounds the
    first window had: the same size, with 800 or 600 for a width or height
    of zero, and the same position. *)
Theorem window_state_round_trip
    (getBounds : winref -> Bounds) (runMode : string)
    (getDisplayMatching : num -> num -> num -> num -> Z * Z)
    (W : World) (L : Layouts) (this : winref) (win : Window) (size : Z * Z) :
  Process.consistent W ->
  this ∈ _windows W -> heap W !! this = Some win -> save win = true ->
  (forall w' win', w' ∈ _windows W -> heap W !! w' = Some win' ->
                   name win' = name win -> w' = this) ->
  runMode <> "test" -> mainWindow W <> None ->
  (0 <= b_width (getBounds this))%Z -> (0 <= b_height (getBounds this))%Z ->
  let b := committed (getBounds this) in
  exists windows L',
    commit_and_save getBounds runMode W L = (Return (Some windows), L')
    /\ restorePositionAndSize getDisplayMatching win size (Some windows)
       = Return [SetSize (b_width b) (b_height b);
                 SetPosition (getDisplayMatching (b_x b) (b_y b) (b_width b) (b_height b)).1
                             (getDisplayMatching (b_x b) (b_y b) (b_width b) (b_height b)).2;
                 SetPosition (b_x b) (b_y b)].
Proof.
  intros HW Hin Hw Hs Honly Hmode Hmain Hbw Hbh b.
  destruct (registered_live W HW this Hin) as (win0 & bw & Hw0 & Hn & _).
  rewrite Hw in Hw0. injection Hw0 as <-.
  apply list_elem_of_split in Hin as (ws1 & ws2 & Hsplit).
  pose proof (registered_once W HW) as Hnd. rewrite Hsplit in Hnd.
  apply NoDup_app in Hnd as (_ & Hdisj & Hnd2). apply NoDup_cons in Hnd2 as [Hthis2 _].
  assert (Hlive : forall ws, ws ⊆ _windows W -> Forall (fun w => live W w) ws).
  { intros ws Hsub. apply Forall_forall. intros w Hw'. apply (registered_live W HW), Hsub, Hw'. }
  assert (Hfresh : forall ws, ws ⊆ _windows W -> this ∉ ws -> name win ∉ names W ws).
  { intros ws Hsub Hni Hnm. apply list_elem_of_omap in Hnm as (w' & Hw' & Hname).
    destruct (heap W !! w') as [win'|] eqn:Hh; [|done]. injection Hname as Hname.
    apply Hni. by rewrite <- (Honly w' win' (Hsub _ Hw') Hh Hname). }
  assert (Hsub1 : ws1 ⊆ _windows W) by (rewrite Hsplit; set_solver).
  assert (Hsub2 : ws2 ⊆ _windows W) by (rewrite Hsplit; set_solver).
  assert (Hni1 : this ∉ ws1) by (intros Hin1; apply (Hdisj this Hin1); left).
  unfold commit_and_save, commitWindowStates. rewrite Hsplit, commit_each_app.
  destruct (commit_each_spec getBounds W ws1 L (Hlive _ Hsub1)) as (L1 & -> & Hkeep1).
  cbn [commit_each].
  rewrite (commitWindowState_live getBounds W this win Undefined L1 Hw Hs (ex_intro _ _ Hn)).
  cbn [ToBoolean]. set (L2 := mkLayouts _ _).
  destruct (commit_each_spec getBounds W ws2 L2 (Hlive _ Hsub2)) as (L3 & -> & Hkeep3).
  assert (Hentry : obj_get (_windowLayouts L3) (name win)
    = Some (assign (default [] (obj_get (_windowLayouts L1) (name win)))
                   (committed (getBounds this)))).
  { rewrite Hkeep3 by (by apply Hfresh). subst L2. cbn [_windowLayouts].
    by rewrite obj_get_set, decide_True. }
  assert (Hreg : Forall (fun w => is_Some (heap W !! w)) (_windows W)).
  { apply Forall_forall. intros w Hw'.
    destruct (registered_live W HW w Hw') as (win' & _ & Hh & _). by exists win'. }
  assert (Hnm : name win ∈ names W (_windows W)).
  { apply list_elem_of_omap. exists this. rewrite Hw. split; [|done].
    rewrite Hsplit. set_solver. }
  unfold saveWindowStates. rewrite !decide_False by done.
  destruct (fill_windows_spec W L3 (_windows W) [] Hreg) as (windows & -> & Hget).
  exists windows, L3. split; [done|].
  unfold restorePositionAndSize. rewrite Hn. cbn [mbind option_bind].
  rewrite Hget, decide_True by done. cbn [mjoin option_join]. rewrite Hentry.
  cbn [mjoin option_join].
  set (old := default [] (obj_get (_windowLayouts L1) (name win))).
  assert (Hx : field (assign old (committed (getBounds this))) "x"
               = Num (b_x (committed (getBounds this))))
    by (rewrite field_assign; repeat case_decide; done).
  assert (Hy : field (assign old (committed (getBounds this))) "y"
               = Num (b_y (committed (getBounds this))))
    by (rewrite field_assign; repeat case_decide; done).
  assert (Hwd : field (assign old (committed (getBounds this))) "width"
                = Num (b_width (committed (getBounds this))))
    by (rewrite field_assign; repeat case_decide; done).
  assert (Hh : field (assign old (committed (getBounds this))) "height"
               = Num (b_height (committed (getBounds this))))
    by (rewrite field_assign; repeat case_decide; done).
  rewrite Hx, Hy, Hwd, Hh. fold b.
  assert (Hpw : (b_width b <=? 0)%Z = false).
  { apply Z.leb_gt. subst b. unfold committed. cbn [b_width].
    destruct (Z.eqb_spec (b_width (getBounds this)) 0); lia. }
  assert (Hph : (b_height b <=? 0)%Z = false).
  { apply Z.leb_gt. subst b. unfold committed. cbn [b_height].
    destruct (Z.eqb_spec (b_height (getBounds this)) 0); lia. }
  unfold adjust. rewrite Hn. cbn [number le_zero]. by rewrite Hpw, Hph.
Qed.

(** The main window, at (10, 20) and 1024 by 768, closed and opened again. *)
Lemma window_state_round_trip_witness :
  exists windows L',
    commit_and_save (fun _ => mkBounds 10 20 1024 768) "" main_only (mkLayouts [] [])
    = (Return (Some windows), L')
    /\ restorePositionAndSize (fun _ _ _ _ => (0, 23)%Z) main_window (800, 600)%Z
                              (Some windows)
       = Return [SetSize 1024 768; SetPosition 0 23; SetPosition 10 20].
Proof.
  assert (HW : Process.consistent main_only).
  { split.
    - repeat constructor. apply not_elem_of_nil.
    - intros w Hw. apply list_elem_of_singleton in Hw as ->.
      eexists _, _. repeat split; reflexivity.
    - intros panelID w Hd. discriminate Hd. }
  assert (Hin : 0%nat ∈ _windows main_only) by left.
  assert (Honly : forall w' win', w' ∈ _windows main_only -> heap main_only !! w' = Some win' ->
                    name win' = name main_window -> w' = 0%nat).
  { intros w' win' Hw' _ _. by apply list_elem_of_singleton in Hw'. }
  assert (Hmode : "" <> "test") by done.
  assert (Hmain : mainWindow main_only <> None) by done.
  assert (Hbw : (0 <= 1024)%Z) by lia. assert (Hbh : (0 <= 768)%Z) by lia.
  exact (window_state_round_trip (fun _ => mkBounds 10 20 1024 768) ""
           (fun _ _ _ _ => (0, 23)%Z) main_only (mkLayouts [] []) 0 main_window
           (800, 600)%Z HW Hin eq_refl eq_refl Honly Hmode Hmain Hbw Hbh).
Defined.

Lemma find_owner W sender w :
  registered_in_heap_all W -> owner_of W sender w ->
  outcome (Windows.find (Windows.Native sender)) W = Return (Some w).
Proof.
  intros Hreg Ho. destruct (find_native_spec W sender Hreg) as (r & Hfind & Hr).
  unfold outcome. rewrite Hfind. cbn [fst]. f_equal. by apply Hr.
Qed.

(** X19.  A layout a page saves is the layout it gets back.  After
    [window:save-layout] with a layout, from the page of a registered window
    whose [save] flag is on, [window:query-layout] from that page replies
    with that layout and [needReset] false, whatever was stored before and
    whether or not there is a default layout.  For a window whose [save]
    flag is off the layout is not kept: [_windowLayouts] is as it was. *)
Theorem saved_layout_is_given_back
    (getBounds : winref -> Bounds) (runMode : string) (W : World) (L : Layouts)
    (sender : native_window) (w : winref) (win : Window)
    (layoutInfo : value) (defaultLayout : option (result value)) :
  registered_in_heap_all W -> owner_of W sender w -> heap W !! w = Some win ->
  exists saved L',
    window_save_layout getBounds runMode W sender layoutInfo L = (saved, L')
    /\ (save win = true -> ToBoolean layoutInfo = true ->
        window_query_layout W sender defaultLayout L'
        = (Return [layoutInfo; Bool false], []))
    /\ (save win = false -> L' = L).
Proof.
  intros Hreg Ho Hw. pose proof (find_owner W sender w Hreg Ho) as Hfind.
  destruct Ho as (_ & _ & win' & Hw' & Hn). rewrite Hw in Hw'. injection Hw' as <-.
  unfold window_save_layout, window_query_layout. rewrite Hfind, Hw.
  destruct (save win) eqn:Hs.
  - rewrite (commitWindowState_live getBounds W w win layoutInfo L Hw Hs Hn).
    eexists _, _. split; [reflexivity|]. split; [|done].
    intros _ Ht. rewrite Ht. cbn [_windowLayouts].
    rewrite obj_get_set, decide_True by done.
    rewrite field_set, decide_True by done. rewrite !Ht. cbn [negb].
    by rewrite andb_false_r.
  - unfold commitWindowState. rewrite Hw, Hs. cbn [negb].
    eexists _, _. split; [reflexivity|]. split; [done|]. done.
Qed.

(** The main window saves a layout and asks for it; a default layout
    exists. *)
Lemma saved_layout_is_given_back_witness :
  exists saved L',
    window_save_layout (fun _ => mkBounds 10 20 1024 768) "" main_only (CreatedBy 0)
                       (Str "docks") (mkLayouts [] []) = (saved, L')
    /\ window_query_layout main_only (CreatedBy 0) (Some (Return (Str "default"))) L'
       = (Return [Str "docks"; Bool false], []).
Proof.
  assert (Hreg : registered_in_heap_all main_only) by (repeat econstructor).
  assert (Ho : owner_of main_only (CreatedBy 0) 0).
  { split; [done|]. split; [left|]. exists main_window. split; [done|by eexists]. }
  destruct (saved_layout_is_given_back (fun _ => mkBounds 10 20 1024 768) "" main_only
              (mkLayouts [] []) (CreatedBy 0) 0 main_window (Str "docks")
              (Some (Return (Str "default"))) Hreg Ho eq_refl)
    as (saved & L' & Hsave & Hquery & _).
  exists saved, L'. split; [exact Hsave|]. by apply Hquery.
Defined.

(** X20.  [window:query-layout] asks the page to reset its layout
    ([needReset] true) in one case only: the sender is the main window, no
    layout is committed for it, and the default layout file exists and
    parses; the reply then carries the parsed default layout.  In every
    other case a known sender gets the committed layout, or [null] when
    there is none, with [needReset] false; a default layout that fails to
    parse is logged as an error.  A sender that is no registered window gets
    a reply without arguments, and a warning is logged. *)
Theorem query_layout_resets_only_to_the_default_layout
    (W : World) (L : Layouts) (sender : native_window)
    (defaultLayout : option (result value)) :
  registered_in_heap_all W ->
  let committed_layout w :=
    match heap W !! w with
    | Some win => field (default [] (obj_get (_windowLayouts L) (name win))) "layout"
    | None => Undefined
    end in
  ((forall w, ~ owner_of W sender w) ->
   window_query_layout W sender defaultLayout L
   = (Return [], [EditorWarn [Str "Failed to query layout, can not find the window."]]))
  /\ (forall w, owner_of W sender w ->
      exists layout needReset logged,
        window_query_layout W sender defaultLayout L
        = (Return [layout; Bool needReset], logged)
        /\ (needReset = true <->
            mainWindow W = Some w /\ ToBoolean (committed_layout w) = false
            /\ defaultLayout = Some (Return layout))
        /\ (ToBoolean (committed_layout w) = true ->
            layout = committed_layout w /\ logged = [])
        /\ (needReset = false -> ToBoolean (committed_layout w) = false -> layout = Null)
        /\ (logged <> [] <-> exists message,
              mainWindow W = Some w /\ ToBoolean (committed_layout w) = false
              /\ defaultLayout = Some (Throw message)
              /\ logged = [EditorError [Str "Failed to load default layout: ";
                                        Str message]])).
Proof.
  intros Hreg committed_layout. split.
  - intros Hnone. destruct (find_native_spec W sender Hreg) as (r & Hfind & Hr).
    unfold window_query_layout, outcome. rewrite Hfind. cbn [fst].
    destruct r as [w|]; [|done]. destruct (Hnone w). by apply Hr.
  - intros w Ho. pose proof (find_owner W sender w Hreg Ho) as Hfind.
    destruct Ho as (_ & _ & win & Hw & _).
    unfold window_query_layout. rewrite Hfind, Hw.
    subst committed_layout. cbn beta. rewrite Hw.
    set (stored := obj_get (_windowLayouts L) (name win)).
    assert (Hlayout :
      match stored with
      | Some winInfo =>
          if ToBoolean (field winInfo "layout") then field winInfo "layout" else Null
      | None => Null
      end
      = if ToBoolean (field (default [] stored) "layout")
        then field (default [] stored) "layout" else Null).
    { by destruct stored. }
    rewrite Hlayout. clear Hlayout.
    destruct (ToBoolean (field (default [] stored) "layout")) eqn:Ht.
    + rewrite Ht. cbn [negb]. rewrite andb_false_r.
      eexists _, _, _. split; [reflexivity|]. repeat split; try done.
      * by intros (_ & ? & _).
      * by intros (? & _ & ? & _).
    + cbn [ToBoolean negb]. rewrite andb_true_r.
      case_bool_decide as Hm; [destruct defaultLayout as [[parsed|message]|]|];
        (eexists _, _, _; split; [reflexivity|]); repeat split; try done;
        try (by intros (? & ? & ?)); try (by intros (? & ? & ? & ? & ?));
        try (by intros [= <-]).
      * intros _. by exists message.
Qed.

(** The main window without a committed layout asks for its layout. *)
Lemma query_layout_resets_only_to_the_default_layout_witness :
  registered_in_heap_all main_only
  /\ window_query_layout main_only (CreatedBy 0) (Some (Return (Str "default")))
                         (mkLayouts [] [])
     = (Return [Str "default"; Bool true], [])
  /\ window_query_layout main_only Elsewhere (Some (Return (Str "default")))
                         (mkLayouts [] [])
     = (Return [], [EditorWarn [Str "Failed to query layout, can not find the window."]]).
Proof.
  assert (Hreg : registered_in_heap_all main_only) by (repeat econstructor).
  split; [exact Hreg|]. split; [reflexivity|].
  apply (proj1 (query_layout_resets_only_to_the_default_layout main_only (mkLayouts [] [])
                  Elsewhere (Some (Return (Str "default"))) Hreg)).
  intros w [Hbad _]. discriminate Hbad.
Defined.

Lemma foldl_obj_set_get {V} (l acc : list (string * V)) nm :
  NoDup (obj_keys l) ->
  obj_get (foldl (fun layouts entry => obj_set layouts entry.1 entry.2) acc l) nm
  = match obj_get l nm with
    | Some v => Some v
    | None => obj_get acc nm
    end.
Proof.
  revert acc. induction l as [|[k v] l IH]; intros acc Hnd; [done|].
  unfold obj_keys in Hnd. cbn [fmap list_fmap fst] in Hnd.
  apply NoDup_cons in Hnd as [Hk Hnd].
  cbn [foldl fst snd]. rewrite IH by done. cbn [obj_get].
  destruct (decide (k = nm)) as [->|Hne].
  - apply obj_get_None_key in Hk. rewrite Hk.
    by rewrite obj_get_set, decide_True.
  - destruct (obj_get l nm); [done|]. by rewrite obj_get_set, decide_False.
Qed.

Lemma loadLayouts_get windows nm :
  NoDup (obj_keys windows) -> obj_get (loadLayouts windows) nm = obj_get windows nm.
Proof.
  intros Hnd. unfold loadLayouts. rewrite foldl_obj_set_get by done.
  by destruct (obj_get windows nm).
Qed.

Lemma commitWindowState_layout getBounds W this L nm :
  field (default [] (obj_get (_windowLayouts
           (commitWindowState getBounds W this Undefined L).2) nm)) "layout"
  = field (default [] (obj_get (_windowLayouts L) nm)) "layout".
Proof.
  unfold commitWindowState.
  destruct (heap W !! this) as [win|]; [|done].
  destruct (save win); [|done]. cbn [negb].
  destruct (nativeWin win); [|done].
  destruct (_ =? _)%Z; cbn [b_height];
    destruct (_ =? _)%Z; cbn [snd _windowLayouts ToBoolean];
    rewrite obj_get_set; (case_decide as Hnm; [subst nm|done]);
    cbn [default from_option id]; rewrite field_assign; by repeat case_decide.
Qed.

Lemma commit_each_layout getBounds W ws L nm :
  field (default [] (obj_get (_windowLayouts (commit_each getBounds W ws L).2) nm)) "layout"
  = field (default [] (obj_get (_windowLayouts L) nm)) "layout".
Proof.
  revert L. induction ws as [|w ws IH]; intros L; cbn [commit_each]; [done|].
  pose proof (commitWindowState_layout getBounds W w L nm) as Hone.
  destruct (commitWindowState getBounds W w Undefined L) as [[[]|err] L1];
    cbn [snd] in Hone; [by rewrite IH|done].
Qed.

(** X24.  A layout loaded at start is not lost when the windows close.
    After [loadLayouts] has read the profile, and outside test mode with a
    main window, [commitWindowStates(); saveWindowStates()] (what the handler
    of [close] ends with) saves a profile in which every registered window
    has, under its name, the layout the profile held for that name when it
    was loaded, and none if it held none. *)
Theorem loaded_layouts_are_saved_again
    (getBounds : winref -> Bounds) (runMode : string) (W : World)
    (loaded : list (string * WinInfo)) :
  NoDup (obj_keys loaded) ->
  Process.consistent W ->
  runMode <> "test" -> mainWindow W <> None ->
  exists windows L',
    commit_and_save getBounds runMode W (mkLayouts (loadLayouts loaded) [])
    = (Return (Some windows), L')
    /\ forall w win,
         w ∈ _windows W -> heap W !! w = Some win ->
         field (default [] (mjoin (obj_get windows (name win)))) "layout"
         = field (default [] (obj_get loaded (name win))) "layout".
Proof.
  intros Hnd HW Hmode Hmain.
  assert (Hlive : Forall (fun w => live W w) (_windows W)).
  { apply Forall_forall. intros w Hw. by apply (registered_live W HW). }
  assert (Hreg : Forall (fun w => is_Some (heap W !! w)) (_windows W)).
  { apply Forall_forall. intros w Hw.
    destruct (registered_live W HW w Hw) as (win & _ & Hh & _). by exists win. }
  unfold commit_and_save, commitWindowStates.
  pose proof (commit_each_layout getBounds W (_windows W)
                (mkLayouts (loadLayouts loaded) [])) as Hlayout.
  destruct (commit_each_spec getBounds W (_windows W)
              (mkLayouts (loadLayouts loaded) []) Hlive) as (L' & Hrun & _).
  rewrite Hrun in Hlayout |- *. cbn [snd _windowLayouts] in Hlayout.
  unfold saveWindowStates. rewrite !decide_False by done.
  destruct (fill_windows_spec W L' (_windows W) [] Hreg) as (windows & -> & Hget).
  exists windows, L'. split; [done|].
  intros w win Hw Hh. rewrite Hget, decide_True.
  - cbn [mjoin option_join]. rewrite Hlayout. by rewrite loadLayouts_get.
  - apply list_elem_of_omap. exists w. by rewrite Hh.
Qed.

(** The main window closes in a session that loaded a layout for it. *)
Lemma loaded_layouts_are_saved_again_witness :
  exists windows L',
    commit_and_save (fun _ => mkBounds 10 20 1024 768) "" main_only
      (mkLayouts (loadLayouts [("main", [("x", Num 1); ("layout", Str "docks")])]) [])
    = (Return (Some windows), L')
    /\ forall w win,
         w ∈ _windows main_only -> heap main_only !! w = Some win ->
         field (default [] (mjoin (obj_get windows (name win)))) "layout"
         = field (default [] (obj_get [("main", [("x", Num 1); ("layout", Str "docks")])]
                                      (name win))) "layout".
Proof.
  assert (Hnd : NoDup (obj_keys [("main", [("x", Num 1); ("layout", Str "docks")])])).
  { repeat constructor. apply not_elem_of_nil. }
  assert (HW : Process.consistent main_only).
  { split.
    - repeat constructor. apply not_elem_of_nil.
    - intros w Hw. apply list_elem_of_singleton in Hw as ->.
      eexists _, _. repeat split; reflexivity.
    - intros panelID w Hd. discriminate Hd. }
  assert (Hmode : "" <> "test") by done.
  assert (Hmain : mainWindow main_only <> None) by done.
  exact (loaded_layouts_are_saved_again (fun _ => mkBounds 10 20 1024 768) "" main_only
           [("main", [("x", Num 1); ("layout", Str "docks")])] Hnd HW Hmode Hmain).
Defined.

